(** * Time Tracker Plus: the tracker model, its codec and its document protocol

    A shallow embedding of [tracker.ts] and of the parts of [main.ts] that
    call it.  Strings are sequences of 8-bit code units.  The vault, the
    console and the clock are the state of a small exception monad; the
    libraries ([moment]) are parameters.  The entry tree is a tree of
    distinct objects, so an object of the tree is named by its position. *)

From Stdlib Require Import String Ascii List ZArith Lia Bool Arith DecimalString DecimalNat.
Import ListNotations.
Local Open Scope string_scope.
Local Open Scope list_scope.
Local Open Scope nat_scope.

(** ** Strings the way the code uses them *)

Module Str.

Definition nl : ascii := "010"%char.

(** White space of [trimEnd] and of the string-to-number conversion, for
    code units below 256: TAB, LF, VT, FF, CR, SP and NBSP. *)
Definition is_ws (c : ascii) : bool :=
  let n := nat_of_ascii c in
  ((9 <=? n) && (n <=? 13)) || (n =? 32) || (n =? 160).

Definition is_digit (c : ascii) : bool :=
  let n := nat_of_ascii c in (48 <=? n) && (n <=? 57).

Definition truthy (s : string) : bool :=
  match s with EmptyString => false | _ => true end.

Fixpoint all_chars (p : ascii -> bool) (s : string) : bool :=
  match s with
  | EmptyString => true
  | String c r => p c && all_chars p r
  end.

Fixpoint drop_while (p : ascii -> bool) (s : string) : string :=
  match s with
  | EmptyString => EmptyString
  | String c r => if p c then drop_while p r else s
  end.

Definition trimStart (s : string) : string := drop_while is_ws s.

Fixpoint trimEnd (s : string) : string :=
  match s with
  | EmptyString => EmptyString
  | String c r =>
      match trimEnd r with
      | EmptyString => if is_ws c then EmptyString else String c EmptyString
      | r' => String c r'
      end
  end.

(** [s.split("\n")]: never empty, one more piece than there are newlines. *)
Fixpoint split (s : string) : list string :=
  match s with
  | EmptyString => [EmptyString]
  | String c r =>
      if Ascii.eqb c nl then EmptyString :: split r
      else match split r with
           | h :: t => String c h :: t
           | [] => [String c EmptyString]
           end
  end.

(** [lines.join("\n")]. *)
Fixpoint join (l : list string) : string :=
  match l with
  | [] => EmptyString
  | [x] => x
  | x :: r => (x ++ String nl (join r))%string
  end.

(** [lines.filter((_, i) => keep(i))], the index counted from [i]. *)
Fixpoint filter_index (keep : Z -> bool) (i : Z) (l : list string) : list string :=
  match l with
  | [] => []
  | x :: r => if keep i then x :: filter_index keep (i + 1) r
              else filter_index keep (i + 1) r
  end.

(** Decimal rendering of a count inside a template literal. *)
Definition of_nat (n : nat) : string := NilEmpty.string_of_uint (Nat.to_uint n).

Fixpoint drop (n : nat) (s : string) : string :=
  match n, s with
  | S k, String _ r => drop k r
  | _, _ => s
  end.

(** [s.startsWith(pat)]. *)
Fixpoint starts (pat s : string) : bool :=
  match pat, s with
  | EmptyString, _ => true
  | String a p, String b r => Ascii.eqb a b && starts p r
  | String _ _, EmptyString => false
  end.

(** The first occurrence of [pat]: what precedes it and what follows it. *)
Fixpoint cut (pat s : string) : option (string * string) :=
  if starts pat s then Some (EmptyString, drop (String.length pat) s)
  else
    match s with
    | EmptyString => None
    | String c r =>
        match cut pat r with
        | Some (b, a) => Some (String c b, a)
        | None => None
        end
    end.

End Str.

(** ** The number a string converts to: is [+s] a number or NaN? *)

Module Num.
Import Str.

Definition strip_sign (s : string) : string :=
  match s with
  | String "+" r => r
  | String "-" r => r
  | _ => s
  end.

Definition skip_digits (s : string) : string := drop_while is_digit s.

Definition starts_digit (s : string) : bool :=
  match s with String c _ => is_digit c | EmptyString => false end.

Definition is_hex (c : ascii) : bool :=
  let n := nat_of_ascii c in
  is_digit c || ((65 <=? n) && (n <=? 70)) || ((97 <=? n) && (n <=? 102)).
Definition is_octal (c : ascii) : bool :=
  let n := nat_of_ascii c in (48 <=? n) && (n <=? 55).
Definition is_binary (c : ascii) : bool :=
  let n := nat_of_ascii c in (48 <=? n) && (n <=? 49).

(** ExponentPart, or nothing, up to the end of the literal. *)
Definition exponent_part (r : string) : bool :=
  match r with
  | EmptyString => true
  | String c r' =>
      (Ascii.eqb c "e" || Ascii.eqb c "E")
      && starts_digit (strip_sign r')
      && (skip_digits (strip_sign r') =? EmptyString)%string
  end.

(** StrUnsignedDecimalLiteral. *)
Definition unsigned_decimal (u : string) : bool :=
  if (u =? "Infinity")%string then true
  else
    match skip_digits u with
    | String "." r2 =>
        (starts_digit u || starts_digit r2) && exponent_part (skip_digits r2)
    | r1 => starts_digit u && exponent_part r1
    end.

(** NonDecimalIntegerLiteral: 0x, 0o and 0b forms, unsigned. *)
Definition non_decimal (t : string) : bool :=
  match t with
  | String "0" (String k r) =>
      if Ascii.eqb k "x" || Ascii.eqb k "X" then truthy r && all_chars is_hex r
      else if Ascii.eqb k "o" || Ascii.eqb k "O" then truthy r && all_chars is_octal r
      else if Ascii.eqb k "b" || Ascii.eqb k "B" then truthy r && all_chars is_binary r
      else false
  | _ => false
  end.

(** [!isNaN(+s)]: the trimmed text is empty (the number 0) or a numeric
    literal. *)
Definition is_number (s : string) : bool :=
  let t := trimEnd (trimStart s) in
  (t =? EmptyString)%string || non_decimal t || unsigned_decimal (strip_sign t).

End Num.

(** ** The data model *)

(** A timestamp as it sits in memory: [null], a string (ISO-8601 once
    migrated) or, in legacy payloads, a whole number of Unix seconds. *)
Inductive TimeValue : Type :=
| TNull
| TStr (s : string)
| TNum (n : Z).

(** The optional [subEntries] property: the key missing (or [undefined]),
    [null], or an array. *)
Inductive Sub (A : Type) : Type :=
| Absent
| Null
| Present (l : list A).
Arguments Absent {A}.
Arguments Null {A}.
Arguments Present {A} l.

Unset Elimination Schemes.
Inductive Entry : Type :=
  mkEntry {
    name : string;
    startTime : TimeValue;
    endTime : TimeValue;
    subEntries : Sub Entry;
    collapsed : option bool
  }.
Set Elimination Schemes.

Record Tracker : Type :=
  mkTracker {
    entries : list Entry;
    targetTime : option string
  }.

Record SectionInfo : Type :=
  mkSection {
    lineStart : Z;
    lineEnd : Z
  }.

(** Induction over an entry tree: the sub-entries of an array satisfy the
    property before the entry does. *)
Definition Entry_tree_ind (P : Entry -> Prop)
  (Hleaf : forall n s e c, P (mkEntry n s e Absent c))
  (Hnull : forall n s e c, P (mkEntry n s e Null c))
  (Hnode : forall n s e l c, Forall P l -> P (mkEntry n s e (Present l) c)) :
  forall entry, P entry :=
  fix F (entry : Entry) : P entry :=
    match entry with
    | mkEntry n s e Absent c => Hleaf n s e c
    | mkEntry n s e Null c => Hnull n s e c
    | mkEntry n s e (Present l) c =>
        Hnode n s e l c
          ((fix G (l : list Entry) : Forall P l :=
              match l with
              | [] => Forall_nil P
              | x :: r => Forall_cons x (F x) (G r)
              end) l)
    end.

(** JavaScript truthiness of the values the code tests. *)
Definition truthy_time (t : TimeValue) : bool :=
  match t with
  | TNull => false
  | TStr s => Str.truthy s
  | TNum n => negb (n =? 0)%Z
  end.

Definition truthy_sub {A} (s : Sub A) : bool :=
  match s with Present _ => true | _ => false end.

(** [!isNaN(+t)] for a truthy timestamp. *)
Definition is_numeric (t : TimeValue) : bool :=
  match t with
  | TNull => true
  | TStr s => Num.is_number s
  | TNum _ => true
  end.

Definition of_option (o : option string) : TimeValue :=
  match o with Some s => TStr s | None => TNull end.

(** ** Entry tree operations *)

Definition first_some {A B} (f : A -> option B) : list A -> option B :=
  fix go (l : list A) : option B :=
    match l with
    | [] => None
    | x :: r => match f x with Some y => Some y | None => go r end
    end.

(** One turn of the loop of [getRunningEntry]. *)
Fixpoint runningIn (entry : Entry) : option Entry :=
  match subEntries entry with
  | Present subs => first_some runningIn subs
  | _ => if negb (truthy_time (endTime entry)) then Some entry else None
  end.

Definition getRunningEntry (entries : list Entry) : option Entry :=
  first_some runningIn entries.

Definition isRunning (tracker : Tracker) : bool :=
  match getRunningEntry (entries tracker) with Some _ => true | None => false end.

Definition hasRunningEntry (entry : Entry) : bool :=
  match subEntries entry with
  | Present subs =>
      match getRunningEntry subs with Some _ => true | None => false end
  | _ => negb (truthy_time (endTime entry))
  end.

Definition set_endTime (t : TimeValue) (entry : Entry) : Entry :=
  mkEntry (name entry) (startTime entry) t (subEntries entry) (collapsed entry).

(** [running.endTime = now] on the object [getRunningEntry] returns: the
    first running leaf of the array, in place. *)
Definition stop_first {A} (f : A -> option A) : list A -> option (list A) :=
  fix go (l : list A) : option (list A) :=
    match l with
    | [] => None
    | x :: r =>
        match f x with
        | Some x' => Some (x' :: r)
        | None => match go r with Some r' => Some (x :: r') | None => None end
        end
    end.

Fixpoint stopIn (now : string) (entry : Entry) : option Entry :=
  match subEntries entry with
  | Present subs =>
      match stop_first (stopIn now) subs with
      | Some subs' =>
          Some (mkEntry (name entry) (startTime entry) (endTime entry)
                        (Present subs') (collapsed entry))
      | None => None
      end
  | _ => if negb (truthy_time (endTime entry))
         then Some (set_endTime (TStr now) entry) else None
  end.

(** [let r = getRunningEntry(entries); if (r) r.endTime = now]. *)
Definition stopRunning (now : string) (entries : list Entry) : list Entry :=
  match stop_first (stopIn now) entries with
  | Some entries' => entries'
  | None => entries
  end.

Definition endRunningEntryInSegment (now : string) (entry : Entry) : Entry :=
  match subEntries entry with
  | Present subs =>
      mkEntry (name entry) (startTime entry) (endTime entry)
              (Present (stopRunning now subs)) (collapsed entry)
  | _ => if negb (truthy_time (endTime entry))
         then set_endTime (TStr now) entry else entry
  end.

Definition newEntry (now nm : string) : Entry :=
  mkEntry nm (TStr now) TNull Absent None.

Definition startSubEntry (now : string) (entry : Entry) (nm : string) : Entry :=
  let subs :=
    match subEntries entry with
    | Present l => l
    | s => [mkEntry "Part 1" (startTime entry) (endTime entry) s (collapsed entry)]
    end in
  let st := if truthy_sub (subEntries entry) then startTime entry else TNull in
  let et := if truthy_sub (subEntries entry) then endTime entry else TNull in
  let nm' :=
    if Str.truthy nm then nm
    else ("Part " ++ Str.of_nat (length subs + 1))%string in
  mkEntry (name entry) st et (Present (subs ++ [newEntry now nm']))
          (collapsed entry).

Definition startNewEntry (now : string) (tracker : Tracker) (nm : string) : Tracker :=
  let nm' :=
    if Str.truthy nm then nm
    else ("Segment " ++ Str.of_nat (length (entries tracker) + 1))%string in
  mkTracker (entries tracker ++ [newEntry now nm']) (targetTime tracker).

(** An entry object of the tree, named from an array: the index of the
    element that is it or holds it, then the indexes below.  The empty
    reference names an object that is not under the array. *)
Definition EntryRef : Type := list nat.

(** [entries.contains(toRemove)]: the object is an element of this array. *)
Definition contains (entries : list Entry) (toRemove : EntryRef) : bool :=
  match toRemove with
  | [i] => i <? length entries
  | _ => false
  end.

(** [entries.remove(toRemove)]. *)
Definition remove (entries : list Entry) (toRemove : EntryRef) : list Entry :=
  match toRemove with
  | [i] => firstn i entries ++ skipn (S i) entries
  | _ => entries
  end.

(** The same object named from [entries[j].subEntries]. *)
Definition seen_from (j : nat) (toRemove : EntryRef) : EntryRef :=
  match toRemove with
  | i :: ((_ :: _) as below) => if i =? j then below else []
  | _ => []
  end.

(** The [for] loop of [removeEntry]: [visit] is the body's test and
    flattening for one entry, [j] the index of the head of [l]. *)
Definition remove_loop (visit : Entry -> EntryRef -> Entry * bool)
    (toRemove : EntryRef) : nat -> list Entry -> list Entry * bool :=
  fix loop (j : nat) (l : list Entry) : list Entry * bool :=
    match l with
    | [] => ([], false)
    | entry :: rest =>
        let '(entry', found) := visit entry (seen_from j toRemove) in
        if found then (entry' :: rest, true)
        else let '(rest', found') := loop (S j) rest in (entry :: rest', found')
    end.

Definition removeEntry_with (visit : Entry -> EntryRef -> Entry * bool)
    (entries : list Entry) (toRemove : EntryRef) : list Entry * bool :=
  if contains entries toRemove then (remove entries toRemove, true)
  else remove_loop visit toRemove 0 entries.

(** [entry.subEntries && removeEntry(entry.subEntries, toRemove)], then the
    flattening of an entry left with a single sub-entry. *)
Fixpoint removeIn (entry : Entry) (toRemove : EntryRef) {struct entry} : Entry * bool :=
  match subEntries entry with
  | Present subs =>
      let '(subs', found) := removeEntry_with removeIn subs toRemove in
      if found then
        (match subs' with
         | [single] =>
             mkEntry (name entry) (startTime single) (endTime single)
                     Absent (collapsed entry)
         | _ =>
             mkEntry (name entry) (startTime entry) (endTime entry)
                     (Present subs') (collapsed entry)
         end, true)
      else (entry, false)
  | _ => (entry, false)
  end.

(** [removeEntry(entries, toRemove)]: the array afterwards and the result. *)
Definition removeEntry (entries : list Entry) (toRemove : EntryRef) : list Entry * bool :=
  removeEntry_with removeIn entries toRemove.

(** ** Legacy migration *)

Section Moment.

(** [moment.unix(+t).toISOString()] for a timestamp [t] whose number is not
    NaN: the library's ISO-8601 text, or [null] for an invalid date. *)
Variable unixISO : TimeValue -> option string.

Definition migrate_time (t : TimeValue) : TimeValue :=
  if truthy_time t && is_numeric t then of_option (unixISO t) else t.

(** The body of the loop of [updateLegacyInfo]. *)
Fixpoint updateLegacyEntry (entry : Entry) : Entry :=
  mkEntry (name entry)
          (migrate_time (startTime entry))
          (migrate_time (endTime entry))
          (match subEntries entry with
           | Present subs =>
               match subs with
               | [] => Absent
               | _ :: _ => Present (map updateLegacyEntry subs)
               end
           | _ => Absent
           end)
          (collapsed entry).

Definition updateLegacyInfo (entries : list Entry) : list Entry :=
  map updateLegacyEntry entries.

End Moment.

(** ** JSON text: [JSON.stringify] and [JSON.parse] *)

Module JSON.
Import Str.

(** A parsed value.  Numbers are whole; a literal with a fraction or an
    exponent is outside the embedding and is refused like a syntax error. *)
Unset Elimination Schemes.
Inductive json : Type :=
| JNull
| JBool (b : bool)
| JNum (n : Z)
| JStr (s : string)
| JArr (l : list json)
| JObj (m : list (string * json)).
Set Elimination Schemes.

Definition json_tree_ind (P : json -> Prop)
  (Hnull : P JNull) (Hbool : forall b, P (JBool b)) (Hnum : forall n, P (JNum n))
  (Hstr : forall s, P (JStr s))
  (Harr : forall l, Forall P l -> P (JArr l))
  (Hobj : forall m, Forall (fun kv => P (snd kv)) m -> P (JObj m)) :
  forall v, P v :=
  fix F (v : json) : P v :=
    match v with
    | JNull => Hnull
    | JBool b => Hbool b
    | JNum n => Hnum n
    | JStr s => Hstr s
    | JArr l =>
        Harr l ((fix G (l : list json) : Forall P l :=
                   match l with
                   | [] => Forall_nil P
                   | x :: r => Forall_cons x (F x) (G r)
                   end) l)
    | JObj m =>
        Hobj m ((fix G (m : list (string * json)) : Forall (fun kv => P (snd kv)) m :=
                   match m with
                   | [] => Forall_nil _
                   | kv :: r => Forall_cons kv (F (snd kv)) (G r)
                   end) m)
    end.

Definition dq : ascii := "034"%char.
Definition bs : ascii := "092"%char.

(** *** Printing *)

Definition hex_digit (n : nat) : ascii :=
  if n <? 10 then ascii_of_nat (48 + n) else ascii_of_nat (87 + n).

(** QuoteJSONString, one code unit. *)
Definition escape_char (c : ascii) : string :=
  let n := nat_of_ascii c in
  if n =? 34 then String bs (String dq EmptyString)
  else if n =? 92 then String bs (String bs EmptyString)
  else if n =? 8 then String bs "b"
  else if n =? 9 then String bs "t"
  else if n =? 10 then String bs "n"
  else if n =? 12 then String bs "f"
  else if n =? 13 then String bs "r"
  else if n <? 32 then
    String bs (String "u" (String "0" (String "0"
      (String (hex_digit (n / 16)) (String (hex_digit (n mod 16)) EmptyString)))))
  else String c EmptyString.

Fixpoint escape (s : string) : string :=
  match s with
  | EmptyString => EmptyString
  | String c r => (escape_char c ++ escape r)%string
  end.

Definition quote (s : string) : string :=
  String dq (escape s ++ String dq EmptyString)%string.

Definition print_Z (n : Z) : string := NilEmpty.string_of_int (Z.to_int n).

Fixpoint commas (l : list string) : string :=
  match l with
  | [] => EmptyString
  | x :: r =>
      match r with
      | [] => x
      | _ :: _ => (x ++ String "," (commas r))%string
      end
  end.

Fixpoint print (v : json) : string :=
  match v with
  | JNull => "null"
  | JBool true => "true"
  | JBool false => "false"
  | JNum n => print_Z n
  | JStr s => quote s
  | JArr l => String "[" (commas (map print l) ++ "]")%string
  | JObj m =>
      String "{"
        (commas (map (fun kv => (quote (fst kv) ++ String ":" (print (snd kv)))%string) m)
         ++ "}")%string
  end.

(** *** Parsing *)

Definition is_json_ws (c : ascii) : bool :=
  let n := nat_of_ascii c in
  (n =? 32) || (n =? 9) || (n =? 10) || (n =? 13).

Definition skip_ws (s : string) : string := drop_while is_json_ws s.

Definition unhex (c : ascii) : option nat :=
  let n := nat_of_ascii c in
  if (48 <=? n) && (n <=? 57) then Some (n - 48)
  else if (65 <=? n) && (n <=? 70) then Some (n - 55)
  else if (97 <=? n) && (n <=? 102) then Some (n - 87)
  else None.

Definition unhex4 (a b c d : ascii) : option nat :=
  match unhex a, unhex b, unhex c, unhex d with
  | Some x, Some y, Some z, Some w => Some (((x * 16 + y) * 16 + z) * 16 + w)
  | _, _, _, _ => None
  end.

Definition simple_escape (e : ascii) : option ascii :=
  let n := nat_of_ascii e in
  if n =? 34 then Some dq
  else if n =? 92 then Some bs
  else if n =? 47 then Some "/"%char
  else if n =? 98 then Some (ascii_of_nat 8)
  else if n =? 102 then Some (ascii_of_nat 12)
  else if n =? 110 then Some (ascii_of_nat 10)
  else if n =? 114 then Some (ascii_of_nat 13)
  else if n =? 116 then Some (ascii_of_nat 9)
  else None.

Definition push (c : ascii) (o : option (string * string)) : option (string * string) :=
  match o with
  | Some (s, r) => Some (String c s, r)
  | None => None
  end.

(** The characters of a string literal after its opening quote: the string
    and the text after the closing quote.  An escape above 255 has no
    code unit here and is refused. *)
Fixpoint parse_chars (s : string) : option (string * string) :=
  match s with
  | EmptyString => None
  | String c r =>
      if Ascii.eqb c dq then Some (EmptyString, r)
      else if Ascii.eqb c bs then
        match r with
        | EmptyString => None
        | String e r1 =>
            match simple_escape e with
            | Some c' => push c' (parse_chars r1)
            | None =>
                if Ascii.eqb e "u" then
                  match r1 with
                  | String h1 (String h2 (String h3 (String h4 r2))) =>
                      match unhex4 h1 h2 h3 h4 with
                      | Some n =>
                          if n <? 256 then push (ascii_of_nat n) (parse_chars r2)
                          else None
                      | None => None
                      end
                  | _ => None
                  end
                else None
            end
        end
      else if nat_of_ascii c <? 32 then None
      else push c (parse_chars r)
  end.

Fixpoint digits_value (acc : Z) (s : string) : Z * string :=
  match s with
  | String c r =>
      if is_digit c then digits_value (10 * acc + Z.of_nat (nat_of_ascii c - 48)) r
      else (acc, s)
  | EmptyString => (acc, s)
  end.

Definition ends_number (r : string) : bool :=
  match r with
  | String c _ => negb (Ascii.eqb c "." || Ascii.eqb c "e" || Ascii.eqb c "E")
  | EmptyString => true
  end.

(** An unsigned whole number: [0], or digits that do not start with [0]. *)
Definition parse_unsigned (s : string) : option (Z * string) :=
  match s with
  | String c r =>
      if Ascii.eqb c "0" then if ends_number r then Some (0%Z, r) else None
      else if is_digit c then
        let '(n, r') := digits_value 0 s in
        if ends_number r' then Some (n, r') else None
      else None
  | EmptyString => None
  end.

Definition parse_number (s : string) : option (Z * string) :=
  match s with
  | String c r =>
      if Ascii.eqb c "-" then
        match parse_unsigned r with
        | Some (n, r') => Some ((- n)%Z, r')
        | None => None
        end
      else parse_unsigned s
  | EmptyString => None
  end.

Definition starts_with (c : ascii) (s : string) : bool :=
  match s with
  | String c' _ => Ascii.eqb c' c
  | EmptyString => false
  end.

Definition literal (word : string) (v : json) (s : string) : option (json * string) :=
  if starts word s then Some (v, drop (String.length word) s) else None.

Fixpoint parse_value (fuel : nat) (s : string) {struct fuel} : option (json * string) :=
  match fuel with
  | 0 => None
  | S fuel' =>
      match skip_ws s with
      | EmptyString => None
      | String c r =>
          if Ascii.eqb c "n" then literal "null" JNull (String c r)
          else if Ascii.eqb c "t" then literal "true" (JBool true) (String c r)
          else if Ascii.eqb c "f" then literal "false" (JBool false) (String c r)
          else if Ascii.eqb c dq then
            match parse_chars r with
            | Some (str, r') => Some (JStr str, r')
            | None => None
            end
          else if Ascii.eqb c "[" then
            if starts_with "]" (skip_ws r) then Some (JArr [], drop 1 (skip_ws r))
            else
              match parse_elements fuel' r with
              | Some (vs, r') => Some (JArr vs, r')
              | None => None
              end
          else if Ascii.eqb c "{" then
            if starts_with "}" (skip_ws r) then Some (JObj [], drop 1 (skip_ws r))
            else
              match parse_members fuel' r with
              | Some (kvs, r') => Some (JObj kvs, r')
              | None => None
              end
          else
            match parse_number (String c r) with
            | Some (n, r') => Some (JNum n, r')
            | None => None
            end
      end
  end

with parse_elements (fuel : nat) (s : string) {struct fuel} : option (list json * string) :=
  match fuel with
  | 0 => None
  | S fuel' =>
      match parse_value fuel' s with
      | None => None
      | Some (v, r) =>
          match skip_ws r with
          | EmptyString => None
          | String c r' =>
              if Ascii.eqb c "," then
                match parse_elements fuel' r' with
                | Some (vs, r'') => Some (v :: vs, r'')
                | None => None
                end
              else if Ascii.eqb c "]" then Some ([v], r')
              else None
          end
      end
  end

with parse_members (fuel : nat) (s : string) {struct fuel} : option (list (string * json) * string) :=
  match fuel with
  | 0 => None
  | S fuel' =>
      match skip_ws s with
      | EmptyString => None
      | String q r0 =>
          if Ascii.eqb q dq then
            match parse_chars r0 with
            | None => None
            | Some (k, r1) =>
                match skip_ws r1 with
                | EmptyString => None
                | String colon r2 =>
                    if Ascii.eqb colon ":" then
                      match parse_value fuel' r2 with
                      | None => None
                      | Some (v, r3) =>
                          match skip_ws r3 with
                          | EmptyString => None
                          | String c r4 =>
                              if Ascii.eqb c "," then
                                match parse_members fuel' r4 with
                                | Some (kvs, r5) => Some ((k, v) :: kvs, r5)
                                | None => None
                                end
                              else if Ascii.eqb c "}" then Some ([(k, v)], r4)
                              else None
                          end
                      end
                    else None
                end
            end
          else None
      end
  end.

(** [JSON.parse(text)]: one value, white space around it, nothing else;
    [None] is the SyntaxError. *)
Definition parse (text : string) : option json :=
  match parse_value (S (String.length text)) text with
  | Some (v, r) =>
      match skip_ws r with
      | EmptyString => Some v
      | String _ _ => None
      end
  | None => None
  end.

End JSON.

(** ** Trackers as JSON values *)

Module Codec.
Import JSON.

Definition time_to_json (t : TimeValue) : json :=
  match t with
  | TNull => JNull
  | TStr s => JStr s
  | TNum n => JNum n
  end.

(** The members [JSON.stringify] writes for an entry: a property holding
    [undefined] is left out. *)
Fixpoint entry_to_json (entry : Entry) : json :=
  JObj ([("name", JStr (name entry));
         ("startTime", time_to_json (startTime entry));
         ("endTime", time_to_json (endTime entry))]
        ++ match subEntries entry with
           | Absent => []
           | Null => [("subEntries", JNull)]
           | Present subs => [("subEntries", JArr (map entry_to_json subs))]
           end
        ++ match collapsed entry with
           | None => []
           | Some b => [("collapsed", JBool b)]
           end).

Definition tracker_to_json (tracker : Tracker) : json :=
  JObj ([("entries", JArr (map entry_to_json (entries tracker)))]
        ++ match targetTime tracker with
           | None => []
           | Some s => [("targetTime", JStr s)]
           end).

(** [JSON.stringify(tracker)]. *)
Definition stringify (tracker : Tracker) : string := print (tracker_to_json tracker).

Fixpoint all_some {A} (l : list (option A)) : option (list A) :=
  match l with
  | [] => Some []
  | Some x :: r =>
      match all_some r with Some r' => Some (x :: r') | None => None end
  | None :: _ => None
  end.

Fixpoint lookup {A} (k : string) (m : list (string * A)) : option A :=
  match m with
  | [] => None
  | (k', v) :: r =>
      match lookup k r with
      | Some v' => Some v'
      | None => if (k' =? k)%string then Some v else None
      end
  end.

Definition json_to_time (o : option json) : option TimeValue :=
  match o with
  | Some JNull => Some TNull
  | Some (JStr s) => Some (TStr s)
  | Some (JNum n) => Some (TNum n)
  | _ => None
  end.

(** The parsed value read as an [Entry].  [None]: the value does not have
    the declared shape (a member of another type, a required member
    missing); members the interface does not declare are not read. *)
Fixpoint json_to_entry (v : json) : option Entry :=
  match v with
  | JObj m =>
      let subs :=
        map (fun kv =>
               (fst kv,
                match snd kv with
                | JNull => Some Null
                | JArr l =>
                    match all_some (map json_to_entry l) with
                    | Some es => Some (Present es)
                    | None => None
                    end
                | _ => None
                end)) m in
      match lookup "name" m,
            json_to_time (lookup "startTime" m),
            json_to_time (lookup "endTime" m),
            match lookup "subEntries" subs with
            | None => Some Absent
            | Some s => s
            end,
            match lookup "collapsed" m with
            | None => Some None
            | Some (JBool b) => Some (Some b)
            | Some _ => None
            end
      with
      | Some (JStr n), Some s, Some e, Some sub, Some c => Some (mkEntry n s e sub c)
      | _, _, _, _, _ => None
      end
  | _ => None
  end.

Definition json_to_tracker (v : json) : option Tracker :=
  match v with
  | JObj m =>
      match lookup "entries" m,
            match lookup "targetTime" m with
            | None => Some None
            | Some (JStr s) => Some (Some s)
            | Some _ => None
            end
      with
      | Some (JArr l), Some t =>
          match all_some (map json_to_entry l) with
          | Some es => Some (mkTracker es t)
          | None => None
          end
      | _, _ => None
      end
  | _ => None
  end.

End Codec.

(** ** Effects: the vault, the console, the clock and exceptions *)

Inductive Error : Type := SyntaxError | TypeError | HostError.

Inductive Completion (A : Type) : Type :=
| Normal (a : A)
| Throw (e : Error).
Arguments Normal {A} a.
Arguments Throw {A} e.

Inductive Level : Type := LogError | LogDebug.

Record World : Type :=
  mkWorld {
    vault : list (string * string);   (* path and text of every file *)
    console : list (Level * string);  (* what was logged, oldest first *)
    ticks : nat                       (* clock readings taken so far *)
  }.

Definition M (A : Type) : Type := World -> Completion A * World.

Definition ret {A} (a : A) : M A := fun w => (Normal a, w).

Definition throw {A} (e : Error) : M A := fun w => (Throw e, w).

Definition bind {A B} (m : M A) (k : A -> M B) : M B :=
  fun w =>
    match m w with
    | (Normal a, w') => k a w'
    | (Throw e, w') => (Throw e, w')
    end.

(** [try { body } catch (e) { handler(e) }]. *)
Definition try_catch {A} (body : M A) (handler : Error -> M A) : M A :=
  fun w =>
    match body w with
    | (Normal a, w') => (Normal a, w')
    | (Throw e, w') => handler e w'
    end.

Notation "x <- m ;; k" := (bind m (fun x => k))
  (at level 61, m at next level, right associativity).
Notation "m ;;; k" := (bind m (fun _ => k))
  (at level 61, right associativity).

Definition log (lvl : Level) (msg : string) : M unit :=
  fun w => (Normal tt, mkWorld (vault w) (console w ++ [(lvl, msg)]) (ticks w)).

Fixpoint assoc (k : string) (m : list (string * string)) : option string :=
  match m with
  | [] => None
  | (k', v) :: r => if (k' =? k)%string then Some v else assoc k r
  end.

Fixpoint update (k v : string) (m : list (string * string)) : list (string * string) :=
  match m with
  | [] => []
  | (k', v') :: r => if (k' =? k)%string then (k', v) :: r else (k', v') :: update k v r
  end.

(** [app.vault.getAbstractFileByPath(path)] narrowed to a file, then
    [app.vault.read]: [None] when there is no such file. *)
Definition read_file (path : string) : M (option string) :=
  fun w => (Normal (assoc path (vault w)), w).

(** [app.vault.modify(file, text)]. *)
Definition modify (path text : string) : M unit :=
  fun w => (Normal tt, mkWorld (update path text (vault w)) (console w) (ticks w)).

Fixpoint foldM {A S} (f : S -> A -> M S) (s : S) (l : list A) : M S :=
  match l with
  | [] => ret s
  | x :: r => s' <- f s x ;; foldM f s' r
  end.

(** [text.replace(pattern, replacement)] with two strings: the first
    occurrence only, and [$$], [$&], [$`] and [$'] in the replacement stand
    for a dollar sign, the match, the text before it and the text after it. *)
Fixpoint substitution (replacement matched before after : string) : string :=
  match replacement with
  | EmptyString => EmptyString
  | String d r0 =>
      if Ascii.eqb d "$" then
        match r0 with
        | String c r =>
            if Ascii.eqb c "$" then String "$" (substitution r matched before after)
            else if Ascii.eqb c "&" then
              (matched ++ substitution r matched before after)%string
            else if Ascii.eqb c "`" then
              (before ++ substitution r matched before after)%string
            else if Ascii.eqb c "'" then
              (after ++ substitution r matched before after)%string
            else String d (substitution r0 matched before after)
        | EmptyString => String d EmptyString
        end
      else String d (substitution r0 matched before after)
  end.

Definition replace (text pattern replacement : string) : string :=
  match Str.cut pattern text with
  | Some (before, after) =>
      (before ++ substitution replacement pattern before after ++ after)%string
  | None => text
  end.

(** ** The program *)

Section Program.
Import Str JSON Codec.

(** [moment.unix(+t).toISOString()] and the text of the clock's k-th
    reading, [moment().toISOString()]. *)
Variable unixISO : TimeValue -> option string.
Variable clock : nat -> string.

Definition moment_now : M string :=
  fun w => (Normal (clock (ticks w)), mkWorld (vault w) (console w) (S (ticks w))).

Definition JSON_parse (text : string) : M json :=
  match JSON.parse text with
  | Some v => ret v
  | None => throw SyntaxError
  end.

(** The annotation [: Tracker] checks nothing when the code runs, and the
    code goes on with a value of another shape as long as the members it
    uses are there.  The embedding is typed: a parsed value of another shape
    fails here, as a TypeError does where the entries of the value cannot be
    walked.  What is stated of the reader and of the scanner on payloads
    that are no serialization of a tracker is stated for the payloads both
    read alike ([readable]). *)
Definition as_Tracker (v : json) : M Tracker :=
  match json_to_tracker v with
  | Some t => ret t
  | None => throw TypeError
  end.

Definition emptyTracker : Tracker := mkTracker [] None.

Definition loadTracker (json : string) : M Tracker :=
  if truthy json then
    try_catch
      (v <- JSON_parse json ;;
       parsed <- as_Tracker v ;;
       ret (mkTracker (updateLegacyInfo unixISO (entries parsed)) (targetTime parsed)))
      (fun e =>
         log LogError ("Failed to parse Tracker from " ++ json)%string ;;;
         ret emptyTracker)
  else ret emptyTracker.

Definition fence : string := "```time-tracker-plus".
Definition fence_end : string := "```".

(** The loop of [loadAllTrackers] from line [i] on; [curr] is the block
    being read: where its payload starts and the text so far. *)
Fixpoint locate (content : list string) (i : Z) (curr : option (Z * string))
  : M (list (SectionInfo * Tracker)) :=
  match content with
  | [] => ret []
  | line :: rest =>
      if (trimEnd line =? fence)%string then
        locate rest (i + 1)%Z (Some ((i + 1)%Z, EmptyString))
      else
        match curr with
        | Some (start, text) =>
            if (trimEnd line =? fence_end)%string then
              tracker <- loadTracker text ;;
              more <- locate rest (i + 1)%Z None ;;
              ret ((mkSection start (i - 1)%Z, tracker) :: more)
            else
              locate rest (i + 1)%Z (Some (start, (text ++ line ++ String nl EmptyString)%string))
        | None => locate rest (i + 1)%Z None
        end
  end.

Definition loadAllTrackers (fileName : string) : M (list (SectionInfo * Tracker)) :=
  file <- read_file fileName ;;
  match file with
  | None => ret []
  | Some content => locate (split content) 0%Z None
  end.

(** The text [saveTracker] writes. *)
Definition splice (content : string) (section : SectionInfo) (tracker : Tracker) : string :=
  let lines := split content in
  let prev := join (filter_index (fun i => (i <=? lineStart section)%Z) 0%Z lines) in
  let next := join (filter_index (fun i => (i >=? lineEnd section)%Z) 0%Z lines) in
  (prev ++ String nl (stringify tracker ++ String nl next))%string.

Definition saveTracker (tracker : Tracker) (fileName : string) (section : SectionInfo)
  : M unit :=
  file <- read_file fileName ;;
  match file with
  | None => ret tt
  | Some content => modify fileName (splice content section tracker)
  end.

(** *** The auto-stop scanner *)

Definition block_open : string := (fence ++ String nl EmptyString)%string.
Definition block_close : string := String nl "```".

(** The successive results of the regular expression
    [/```time-tracker-plus\n([\s\S]*?)\n```/g] on [text]: the whole match and
    the captured payload. *)
Fixpoint blocks (fuel : nat) (text : string) : list (string * string) :=
  match fuel with
  | 0 => []
  | S fuel' =>
      match cut block_open text with
      | None => []
      | Some (_, r) =>
          match cut block_close r with
          | None => []
          | Some (payload, r') =>
              ((block_open ++ payload ++ block_close)%string, payload)
              :: blocks fuel' r'
          end
      end
  end.

Definition exec_all (text : string) : list (string * string) :=
  blocks (String.length text) text.

(** One turn of the [while] loop of [stopAllRunnersInFile]. *)
Definition scan_block (st : string * bool) (m : string * string) : M (string * bool) :=
  try_catch
    (v <- JSON_parse (snd m) ;;
     tracker <- as_Tracker v ;;
     if isRunning tracker then
       match getRunningEntry (entries tracker) with
       | Some _ =>
           now <- moment_now ;;
           let updatedTracker :=
             stringify (mkTracker (stopRunning now (entries tracker))
                                  (targetTime tracker)) in
           ret (replace (fst st) (fst m)
                        (block_open ++ updatedTracker ++ block_close)%string,
                true)
       | None => ret st
       end
     else ret st)
    (fun e => log LogDebug "Skipping invalid tracker block" ;;; ret st).

Definition stopAllRunnersInFile (fileContent fileName : string) : M bool :=
  st <- foldM scan_block (fileContent, false) (exec_all fileContent) ;;
  (if snd st then
     file <- read_file fileName ;;
     match file with
     | Some _ => modify fileName (fst st)
     | None => ret tt
     end
   else ret tt) ;;;
  ret (snd st).

Definition ends_with (suffix s : string) : bool :=
  starts suffix (drop (String.length s - String.length suffix) s)
  && (String.length suffix <=? String.length s).

(** [app.vault.getMarkdownFiles()]. *)
Definition getMarkdownFiles : M (list string) :=
  fun w => (Normal (filter (ends_with ".md") (map fst (vault w))), w).

Definition stopAllOtherRunningTimers (currentFileName : string) : M unit :=
  files <- getMarkdownFiles ;;
  foldM (fun (_ : unit) (path : string) =>
           try_catch
             (file <- read_file path ;;
              match file with
              | Some content => stopAllRunnersInFile content path ;;; ret tt
              | None => throw HostError
              end)
             (fun e => log LogError ("Error stopping timers in file: " ++ path)%string))
        tt files.

(** *** The start and continue buttons *)

Definition update_nth {A} (i : nat) (f : A -> A) (l : list A) : list A :=
  match nth_error l i with
  | Some x => firstn i l ++ f x :: skipn (S i) l
  | None => l
  end.



Inductive Control : Type :=
| StartButton
| ContinueButton (i : nat).

(** What [displayTracker] renders for [tracker]: the play button when
    there is no entry, else a continue button per top-level row, disabled
    while the tracker is running. *)
Definition offered (tracker : Tracker) (c : Control) : bool :=
  match c with
  | StartButton =>
      match entries tracker with [] => true | _ :: _ => false end
  | ContinueButton i =>
      (i <? length (entries tracker)) && negb (isRunning tracker)
  end.


End Program.

(** ** An instance of the library: whole Unix seconds to ISO-8601 text *)

Module Calendar.
Local Open Scope Z_scope.

Definition pad (width : nat) (n : Z) : string :=
  let s := NilEmpty.string_of_uint (N.to_uint (Z.to_N n)) in
  (string_of_list_ascii (repeat "0"%char (width - String.length s)) ++ s)%string.

(** Year, month and day of a day count since 1970-01-01 (proleptic
    Gregorian calendar). *)
Definition civil (days : Z) : Z * Z * Z :=
  let z := days + 719468 in
  let era := z / 146097 in
  let doe := z - era * 146097 in
  let yoe := (doe - doe / 1460 + doe / 36524 - doe / 146096) / 365 in
  let doy := doe - (365 * yoe + yoe / 4 - yoe / 100) in
  let mp := (5 * doy + 2) / 153 in
  let d := doy - (153 * mp + 2) / 5 + 1 in
  let m := if mp <? 10 then mp + 3 else mp - 9 in
  let y := yoe + era * 400 + (if m <=? 2 then 1 else 0) in
  (y, m, d).

Definition year_text (y : Z) : string :=
  if (0 <=? y) && (y <=? 9999) then pad 4 y
  else if y <? 0 then String "-" (pad 6 (- y))
  else String "+" (pad 6 y).

(** [new Date(1000 * seconds).toISOString()], or [None] past the range of
    dates. *)
Definition iso_of_seconds (seconds : Z) : option string :=
  if (Z.abs seconds <=? 8640000000000) then
    let '(y, m, d) := civil (seconds / 86400) in
    let t := seconds mod 86400 in
    Some (year_text y ++ "-" ++ pad 2 m ++ "-" ++ pad 2 d ++ "T"
          ++ pad 2 (t / 3600) ++ ":" ++ pad 2 (t / 60 mod 60) ++ ":"
          ++ pad 2 (t mod 60) ++ ".000Z")%string
  else None.

(** The whole number a timestamp holds: a number, or a string of digits
    with an optional minus sign. *)
Definition whole (t : TimeValue) : option Z :=
  match t with
  | TNum n => Some n
  | TStr (String c r as s) =>
      if Ascii.eqb c "-" then
        if Str.truthy r && Str.all_chars Str.is_digit r
        then Some (- fst (JSON.digits_value 0 r)) else None
      else if Str.all_chars Str.is_digit s
        then Some (fst (JSON.digits_value 0 s)) else None
  | _ => None
  end.

Definition unixISO (t : TimeValue) : option string :=
  match whole t with
  | Some n => iso_of_seconds n
  | None => None
  end.

(** A clock that starts at noon of 2024-01-01 and advances a second per
    reading. *)
Definition clock (k : nat) : string :=
  match iso_of_seconds (1704110400 + Z.of_nat k) with
  | Some s => s
  | None => EmptyString
  end.

End Calendar.

(** ** Notions the properties are stated with *)

(** The leaves of an entry that have no end time, counted by a depth-first
    walk.  As in the code, an entry is a leaf when [subEntries] is not an
    array, and an end time is missing when it is [null] (or falsy). *)
Fixpoint runningLeaves (entry : Entry) : nat :=
  match subEntries entry with
  | Present subs => list_sum (map runningLeaves subs)
  | _ => if truthy_time (endTime entry) then 0 else 1
  end.

Definition count_running (entries : list Entry) : nat :=
  list_sum (map runningLeaves entries).

(** The resting state of a tree: an entry that holds an array holds at
    least two sub-entries. *)
Fixpoint rests (entry : Entry) : bool :=
  match subEntries entry with
  | Present subs => (2 <=? length subs) && forallb rests subs
  | _ => true
  end.

Definition all_rest (entries : list Entry) : bool := forallb rests entries.

(** The entry a reference names. *)
Fixpoint resolve (entries : list Entry) (r : EntryRef) {struct r} : option Entry :=
  match r with
  | [] => None
  | i :: below =>
      match nth_error entries i with
      | None => None
      | Some entry =>
          match below with
          | [] => Some entry
          | _ :: _ =>
              match subEntries entry with
              | Present subs => resolve subs below
              | _ => None
              end
          end
      end
  end.

(** An entry put in the place a reference names. *)
Fixpoint put (entries : list Entry) (r : EntryRef) (new : Entry) : list Entry :=
  match r with
  | [] => entries
  | i :: below =>
      match below with
      | [] => update_nth i (fun _ => new) entries
      | _ :: _ =>
          update_nth i
            (fun entry =>
               match subEntries entry with
               | Present subs =>
                   mkEntry (name entry) (startTime entry) (endTime entry)
                           (Present (put subs below new)) (collapsed entry)
               | _ => entry
               end)
            entries
      end
  end.

(** The text [toISOString] produces: [YYYY-MM-DDTHH:mm:ss.sssZ], the year
    with a sign and six digits outside 0..9999. *)
Inductive CharClass : Type := Digit | Lit (c : ascii).

Fixpoint matches (pattern : list CharClass) (s : string) : bool :=
  match pattern, s with
  | [], EmptyString => true
  | Digit :: p, String c r => Str.is_digit c && matches p r
  | Lit a :: p, String c r => Ascii.eqb a c && matches p r
  | _, _ => false
  end.

Definition iso_pattern : list CharClass :=
  [Digit; Digit; Digit; Digit; Lit "-"; Digit; Digit; Lit "-"; Digit; Digit;
   Lit "T"; Digit; Digit; Lit ":"; Digit; Digit; Lit ":"; Digit; Digit;
   Lit "."; Digit; Digit; Digit; Lit "Z"]%char.

Definition iso_instant (s : string) : bool :=
  matches iso_pattern s
  || matches (Lit "+"%char :: Digit :: Digit :: iso_pattern) s
  || matches (Lit "-"%char :: Digit :: Digit :: iso_pattern) s.

(** Canonical form: every timestamp is [null] or ISO-8601 text, and
    [subEntries] is missing or a non-empty array. *)
Definition canonical_time (t : TimeValue) : bool :=
  match t with
  | TNull => true
  | TStr s => iso_instant s
  | TNum _ => false
  end.

Fixpoint canonical_entry (entry : Entry) : bool :=
  canonical_time (startTime entry) && canonical_time (endTime entry)
  && match subEntries entry with
     | Absent => true
     | Null => false
     | Present subs =>
         match subs with
         | [] => false
         | _ :: _ => forallb canonical_entry subs
         end
     end.

Definition canonical (tracker : Tracker) : bool :=
  forallb canonical_entry (entries tracker).

(** The result of a search as a flag. *)
Definition is_some {A} (o : option A) : bool :=
  match o with Some _ => true | None => false end.

(** The characters a numeric literal, with the white space around it, is
    written with. *)
Definition numchar (c : ascii) : bool :=
  Str.is_ws c || Num.is_hex c
  || existsb (Ascii.eqb c) ["+"; "-"; "."; "x"; "X"; "o"; "O"; "I"; "n"; "i"; "t"; "y"]%char.

(** The entry [removeEntry] makes of a parent left with one sub-entry. *)
Definition flattened (parent sibling : Entry) : Entry :=
  mkEntry (name parent) (startTime sibling) (endTime sibling) Absent (collapsed parent).

Definition sibling_of (k : nat) (a b : Entry) : Entry := if k =? 0 then b else a.

(** *** Measures of a JSON value, for the parser's fuel *)

Section JsonNotions.
Import JSON.

Fixpoint json_size (v : json) : nat :=
  match v with
  | JArr l => S (list_sum (map (fun x => S (json_size x)) l))
  | JObj m => S (list_sum (map (fun kv => S (json_size (snd kv))) m))
  | _ => 1
  end.

Fixpoint no_number (v : json) : bool :=
  match v with
  | JNum _ => false
  | JArr l => forallb no_number l
  | JObj m => forallb (fun kv => no_number (snd kv)) m
  | _ => true
  end.

(** Where a printed value starts: not with white space and not with a
    closing bracket. *)
Definition opens_value (s : string) : Prop :=
  exists c t, s = String c t /\ is_json_ws c = false
    /\ Ascii.eqb c "]" = false /\ Ascii.eqb c "}" = false.

Definition round_trips (v : json) : Prop :=
  no_number v = true ->
  forall fuel rest, json_size v <= fuel ->
    parse_value fuel (print v ++ rest) = Some (v, rest).

Definition member_text (kv : string * json) : string :=
  (quote (fst kv) ++ String ":" (print (snd kv)))%string.

End JsonNotions.

(** A match of the scanner whose payload parses to a running tracker, in
    the typed reading of the embedding; [readable] tells the payloads that
    the code reads alike. *)
Definition block_running (m : string * string) : bool :=
  match JSON.parse (snd m) with
  | Some v =>
      match Codec.json_to_tracker v with
      | Some t => isRunning t
      | None => false
      end
  | None => false
  end.

(** *** Sample data *)

Definition legacy_entries : list Entry :=
  [mkEntry "old" (TNum 1700000000) (TStr "1700000060") (Present []) None;
   mkEntry "split" TNull TNull
     (Present [mkEntry "Part 1" (TStr "1700000100") (TNum 1700000200) Null None;
               mkEntry "Part 2" (TStr "2023-11-14T22:20:00.000Z") TNull Absent None])
     (Some true)].

Definition sample_tracker : Tracker :=
  mkTracker
    [mkEntry "Work" TNull TNull
       (Present [mkEntry "Part 1" (TStr "2024-01-01T09:00:00.000Z")
                         (TStr "2024-01-01T10:00:00.000Z") Absent None;
                 mkEntry "Part 2" (TStr "2024-01-01T11:00:00.000Z") TNull Absent None])
       (Some true)]
    (Some "2h30m").

Definition day : list Entry :=
  [mkEntry "Mail" (TStr "2024-01-01T08:00:00.000Z") (TStr "2024-01-01T08:30:00.000Z")
           Absent None;
   mkEntry "Work" TNull TNull
     (Present [mkEntry "Part 1" (TStr "2024-01-01T09:00:00.000Z")
                       (TStr "2024-01-01T10:00:00.000Z") Absent None;
               mkEntry "Part 2" (TStr "2024-01-01T11:00:00.000Z")
                       (TStr "2024-01-01T12:00:00.000Z") Absent None])
     (Some false)].

Definition nested : list Entry :=
  [mkEntry "Work" TNull TNull
     (Present [mkEntry "Part 1" (TStr "2024-01-01T09:00:00.000Z")
                       (TStr "2024-01-01T10:00:00.000Z") Absent None;
               mkEntry "Part 2" TNull TNull
                 (Present [mkEntry "Part 1" (TStr "2024-01-01T11:00:00.000Z")
                                   (TStr "2024-01-01T12:00:00.000Z") Absent None;
                           mkEntry "Part 2" (TStr "2024-01-01T13:00:00.000Z")
                                   (TStr "2024-01-01T14:00:00.000Z") Absent None])
                 None])
     None].

Definition priced : Tracker :=
  mkTracker [mkEntry "Pay $$ bills" (TStr "2024-01-01T09:00:00.000Z") TNull Absent None]
            None.

Definition mixed_document : string :=
  Str.join ["```time-tracker-plus"; "{oops"; "```"; EmptyString;
            "```time-tracker-plus"; Codec.stringify priced; "```"].

Definition running_note : string :=
  Str.join ["# Monday"; "```time-tracker-plus";
            Codec.stringify
              (mkTracker [mkEntry "Work" (TStr "2024-01-01T09:00:00.000Z") TNull
                                  Absent None] None);
            "```"].

Definition rested : Tracker :=
  mkTracker [mkEntry "Work" (TStr "2024-01-01T09:00:00.000Z")
                     (TStr "2024-01-01T10:00:00.000Z") Absent None] None.

Definition rested_note : string :=
  Str.join ["```time-tracker-plus"; Codec.stringify rested; "```"].

(** ** Notions for the rest of the program *)

(** Search and stop agree on each entry: the leaf found is the leaf
    stopped. *)
Definition stops_found (now : string) (entry : Entry) : Prop :=
  match runningIn entry with
  | None => stopIn now entry = None
  | Some r =>
      truthy_sub (subEntries r) = false
      /\ truthy_time (endTime r) = false
      /\ ((entry = r /\ stopIn now entry = Some (set_endTime (TStr now) r))
          \/ exists subs p,
               subEntries entry = Present subs
               /\ resolve subs p = Some r
               /\ stopIn now entry
                  = Some (mkEntry (name entry) (startTime entry) (endTime entry)
                                  (Present (put subs p (set_endTime (TStr now) r)))
                                  (collapsed entry)))
  end.


(** ** The duration engine *)

Section Durations.

(** [moment(t).valueOf()], the instant of a timestamp in milliseconds,
    [None] for an invalid moment; the reading [moment()] of the clock and the
    start of its day, [moment().startOf("day")].  The code reads the clock at
    every leaf it visits; the readings of one walk are taken to be one
    instant.  A quantity that is NaN is [None]. *)
Variable instant : TimeValue -> option Z.
Variable nowMs : Z.
Variable today : Z.

(** [a.diff(b)]. *)
Definition diff (a b : option Z) : option Z :=
  match a, b with
  | Some x, Some y => Some (x - y)%Z
  | _, _ => None
  end.

(** [a.isBefore(b)], false for an invalid moment. *)
Definition isBefore (a : option Z) (b : Z) : bool :=
  match a with
  | Some x => (x <? b)%Z
  | None => false
  end.

(** [ret + d] on numbers that may be NaN. *)
Definition add_ms (ret d : option Z) : option Z :=
  match ret, d with
  | Some x, Some y => Some (x + y)%Z
  | _, _ => None
  end.

(** [let ret = 0; for (let entry of entries) ret += f(entry); return ret]. *)
Definition sum_loop (f : Entry -> option Z) (entries : list Entry) : option Z :=
  fold_left (fun ret entry => add_ms ret (f entry)) entries (Some 0%Z).

(** [entry.endTime ? moment(entry.endTime) : moment()]. *)
Definition end_moment (entry : Entry) : option Z :=
  if truthy_time (endTime entry) then instant (endTime entry) else Some nowMs.

Fixpoint getDuration (entry : Entry) : option Z :=
  match subEntries entry with
  | Present subs => sum_loop getDuration subs
  | _ => diff (end_moment entry) (instant (startTime entry))
  end.

Definition getTotalDuration (entries : list Entry) : option Z :=
  sum_loop getDuration entries.

Fixpoint getDurationToday (entry : Entry) : option Z :=
  match subEntries entry with
  | Present subs => sum_loop getDurationToday subs
  | _ =>
      let endTime := end_moment entry in
      let startTime := instant (startTime entry) in
      if isBefore endTime today then Some 0%Z
      else diff endTime (if isBefore startTime today then Some today else startTime)
  end.

Definition getTotalDurationToday (entries : list Entry) : option Z :=
  sum_loop getDurationToday entries.

(** A leaf whose two moments are valid and in order; the code trusts the
    write path for this and does not check it. *)
Fixpoint well_timed (entry : Entry) : bool :=
  match subEntries entry with
  | Present subs => forallb well_timed subs
  | _ =>
      match instant (startTime entry), end_moment entry with
      | Some s, Some e => (s <=? e)%Z
      | _, _ => false
      end
  end.

End Durations.

(** [orderedEntries(entries, settings)], [reverse] being
    [settings.reverseSegmentOrder]. *)
Definition orderedEntries (reverse : bool) (entries : list Entry) : list Entry :=
  if reverse then rev entries else entries.

(** The sum of quantities that may be NaN. *)
Fixpoint sum_ms (l : list (option Z)) : option Z :=
  match l with
  | [] => Some 0%Z
  | d :: r => add_ms d (sum_ms r)
  end.

(** An entry without an array of sub-entries. *)
Definition is_leaf (entry : Entry) : bool := negb (truthy_sub (subEntries entry)).

(** Every sub-entry of the entry is a leaf. *)
Definition two_level (entry : Entry) : bool :=
  match subEntries entry with
  | Present subs => forallb is_leaf subs
  | _ => true
  end.

(** Two durations that are numbers, the second between zero and the first. *)
Definition within_total (d t : option Z) : Prop :=
  exists x y, d = Some x /\ t = Some y /\ (0 <= y <= x)%Z.


(** A reading of [moment(t).valueOf()] for timestamps in the form
    [toISOString] writes them with a four-digit year,
    [YYYY-MM-DDTHH:mm:ss.sssZ]; any other value is an invalid moment. *)
Module Timeline.
Local Open Scope Z_scope.

Definition field (s : string) (i n : nat) : option Z :=
  let t := substring i n s in
  if Str.all_chars Str.is_digit t && (String.length t =? n)%nat
  then Some (fst (JSON.digits_value 0 t)) else None.

(** Days since 1970-01-01 of a date of the proleptic Gregorian calendar. *)
Definition days_from_civil (y m d : Z) : Z :=
  let y' := if m <=? 2 then y - 1 else y in
  let era := y' / 400 in
  let yoe := y' - era * 400 in
  let mp := if 2 <? m then m - 3 else m + 9 in
  let doy := (153 * mp + 2) / 5 + d - 1 in
  let doe := yoe * 365 + yoe / 4 - yoe / 100 + doy in
  era * 146097 + doe - 719468.

Definition instant (t : TimeValue) : option Z :=
  match t with
  | TStr s =>
      if (String.length s =? 24)%nat
         && matches iso_pattern s
      then
        match field s 0 4, field s 5 2, field s 8 2,
              field s 11 2, field s 14 2, field s 17 2, field s 20 3 with
        | Some y, Some mo, Some d, Some h, Some mi, Some sec, Some ms =>
            Some ((((days_from_civil y mo d * 24 + h) * 60 + mi) * 60 + sec) * 1000 + ms)
        | _, _, _, _, _, _, _ => None
        end
      else None
  | _ => None
  end.

End Timeline.

(** ** The target time *)

Fixpoint take_while (p : ascii -> bool) (s : string) : string :=
  match s with
  | String c r => if p c then String c (take_while p r) else EmptyString
  | EmptyString => EmptyString
  end.

(** One optional group [(?:(\d+)u)?] of the pattern at the start of [s]:
    the digits captured and the text after the unit letter when a non-empty
    run of digits is followed by [u]; no capture and no progress otherwise.
    (The run of digits is the whole run: a shorter one is followed by a
    digit, not by the letter.) *)
Definition unit_group (u : ascii) (s : string) : option string * string :=
  let digits := take_while Str.is_digit s in
  match Str.drop_while Str.is_digit s with
  | String c r =>
      if Str.truthy digits && Ascii.eqb c u then (Some digits, r) else (None, s)
  | EmptyString => (None, s)
  end.

(** [parseInt(group || "0")] on a captured run of digits. *)
Definition parseInt_group (group : option string) : Z :=
  match group with
  | Some digits => fst (JSON.digits_value 0 digits)
  | None => 0%Z
  end.

(** [parseTargetTime].  The pattern has no anchor and every group of it is
    optional, so [match] succeeds at index 0 with the groups that are
    found there in the order y, M, d, h, m, s, and the branch [!match] is
    never taken.  The numbers are those of the source as long as the result
    is below 2^53, beyond which [number] rounds. *)
Definition parseTargetTime (targetTime : option string) : Z :=
  match targetTime with
  | None => 0%Z
  | Some text =>
      if negb (Str.truthy text) then 0%Z
      else
        let '(g1, s1) := unit_group "y" text in
        let '(g2, s2) := unit_group "M" s1 in
        let '(g3, s3) := unit_group "d" s2 in
        let '(g4, s4) := unit_group "h" s3 in
        let '(g5, s5) := unit_group "m" s4 in
        let '(g6, _) := unit_group "s" s5 in
        let years := parseInt_group g1 in
        let months := parseInt_group g2 in
        let days := parseInt_group g3 in
        let hours := parseInt_group g4 in
        let minutes := parseInt_group g5 in
        let seconds := parseInt_group g6 in
        ((years * 365 * 24 * 60 * 60
          + months * 30 * 24 * 60 * 60
          + days * 24 * 60 * 60
          + hours * 60 * 60
          + minutes * 60
          + seconds) * 1000)%Z
  end.

(** A group of a target time as the user writes it: a count and its unit
    letter, or nothing. *)
Definition written (count : option nat) (u : ascii) (rest : string) : string :=
  match count with
  | Some n => (Str.of_nat n ++ String u rest)%string
  | None => rest
  end.

Definition count_of (count : option nat) : Z :=
  match count with Some n => Z.of_nat n | None => 0%Z end.

(** ** Lines *)

(** A string without a line break, as every piece of [split] is. *)
Definition no_nl (s : string) : bool :=
  Str.all_chars (fun c => negb (Ascii.eqb c Str.nl)) s.

(** ** The buttons of the rows *)

(** The rows [addEditableTableRow] renders, named by position: every
    top-level entry, and the sub-entries of a rendered entry that holds an
    array and is not collapsed.  The order in which they are shown
    ([orderedEntries]) does not change which object a row stands for. *)
Fixpoint rendered (entries : list Entry) (row : EntryRef) {struct row} : option Entry :=
  match row with
  | [] => None
  | i :: below =>
      match nth_error entries i with
      | None => None
      | Some entry =>
          match below with
          | [] => Some entry
          | _ :: _ =>
              match subEntries entry, collapsed entry with
              | Present _, Some true => None
              | Present subs, _ => rendered subs below
              | _, _ => None
              end
          end
      end
  end.

(** A click that changes the entry tree: the play button of an empty
    tracker, the continue and stop buttons of a top-level row, and the remove
    button of a row once the question is confirmed. *)
Inductive RowAction : Type :=
| StartClick (nameBox : string)
| ContinueClick (i : nat) (nameBox : string)
| StopClick (i : nat)
| RemoveClick (row : EntryRef).

(** The button is there and is not disabled: [setDisabled(trackerRunning)]
    for continue, [setDisabled(!entryRunning)] for stop and
    [setDisabled(entryRunning)] for remove. *)
Definition enabled (tracker : Tracker) (a : RowAction) : bool :=
  match a with
  | StartClick _ => offered tracker StartButton
  | ContinueClick i _ => offered tracker (ContinueButton i)
  | StopClick i =>
      match nth_error (entries tracker) i with
      | Some entry => hasRunningEntry entry
      | None => false
      end
  | RemoveClick row =>
      match rendered (entries tracker) row with
      | Some entry => negb (hasRunningEntry entry)
      | None => false
      end
  end.

(** What the handler does to the tracker of the view before it saves it;
    [now] is [moment().toISOString()]. *)
Definition perform (now : string) (a : RowAction) (tracker : Tracker) : Tracker :=
  match a with
  | StartClick nameBox => startNewEntry now tracker nameBox
  | ContinueClick i nameBox =>
      mkTracker (update_nth i (fun entry => startSubEntry now entry nameBox)
                            (entries tracker))
                (targetTime tracker)
  | StopClick i =>
      mkTracker (update_nth i (endRunningEntryInSegment now) (entries tracker))
                (targetTime tracker)
  | RemoveClick row =>
      mkTracker (fst (removeEntry (entries tracker) row)) (targetTime tracker)
  end.

(** A session at the view: clicks with the time of each, every one on a
    button that is enabled in the tracker it meets; [None] when one is not. *)
Fixpoint session (steps : list (string * RowAction)) (tracker : Tracker) : option Tracker :=
  match steps with
  | [] => Some tracker
  | (now, a) :: rest =>
      if enabled tracker a then session rest (perform now a tracker) else None
  end.

(** The shape the view keeps: at most two levels, every array of
    sub-entries with two entries or more, at most one running leaf. *)
Definition tidy (tracker : Tracker) : bool :=
  forallb two_level (entries tracker)
  && all_rest (entries tracker)
  && (count_running (entries tracker) <=? 1).

(** ** Text for [replace] *)

(** A replacement text that [replace] inserts as it is: without a dollar
    sign. *)
Definition plain (s : string) : bool :=
  Str.all_chars (fun c => negb (Ascii.eqb c "$")) s.

(** ** The command "Stop All Running Timers" *)

(** A file of the vault some block of which holds a running tracker, as
    the scanner reads it. *)
Definition running_file (files : list (string * string)) (path : string) : bool :=
  match assoc path files with
  | Some content => existsb block_running (exec_all content)
  | None => false
  end.

(** *** Payloads the embedding reads as the code does *)

(** Where a scan of a text stands: outside the string literals (and
    whether the character before was a digit), inside one, after a backslash
    in one, and after [\u] and after its first digit. *)
Inductive Lex : Type :=
| Outside (after_digit : bool)
| Inside
| Escaped
| Unicode1
| Unicode2.

(** The text holds nothing the embedding leaves out.  The parser of the
    embedding refuses, besides what [JSON.parse] refuses, a number with a
    fraction or an exponent and a [\u] escape of a code unit above 255.  In
    a text that passes this scan no digit outside the string literals is
    followed by [.], [e] or [E], and every [\u] escape starts with [00]; so
    a text that passes it and that the parser of the embedding refuses is
    refused by [JSON.parse]. *)
Fixpoint embeddable_from (st : Lex) (s : string) : bool :=
  match s with
  | EmptyString => true
  | String c r =>
      match st with
      | Outside d =>
          if Ascii.eqb c JSON.dq then embeddable_from Inside r
          else if d && (Ascii.eqb c "." || Ascii.eqb c "e" || Ascii.eqb c "E") then false
          else embeddable_from (Outside (Str.is_digit c)) r
      | Inside =>
          if Ascii.eqb c JSON.dq then embeddable_from (Outside false) r
          else if Ascii.eqb c JSON.bs then embeddable_from Escaped r
          else embeddable_from Inside r
      | Escaped =>
          if Ascii.eqb c "u" then embeddable_from Unicode1 r
          else embeddable_from Inside r
      | Unicode1 => if Ascii.eqb c "0" then embeddable_from Unicode2 r else false
      | Unicode2 => if Ascii.eqb c "0" then embeddable_from Inside r else false
      end
  end.

Definition embeddable (text : string) : bool := embeddable_from (Outside false) text.

(** A value that is not iterable: [for (... of value)] throws. *)
Definition not_a_list (v : JSON.json) : bool :=
  match v with
  | JSON.JNull | JSON.JBool _ | JSON.JNum _ | JSON.JObj _ => true
  | JSON.JStr _ | JSON.JArr _ => false
  end.

(** A parsed value whose [entries] cannot be walked: it is no object (for
    [null] the member access throws; a number, a boolean, a string or an
    array has no list under that name), or every member it has under the
    name [entries] is not iterable.  The first use of [.entries] then throws a
    TypeError in the code, as the typed reading fails in the embedding. *)
Definition no_entry_list (v : JSON.json) : bool :=
  match v with
  | JSON.JObj m =>
      forallb (fun kv => negb (fst kv =? "entries")%string || not_a_list (snd kv)) m
  | _ => true
  end.

(** A payload the code and the embedding read alike: a text that is no
    JSON for both, a value whose entries cannot be walked, or a value of the
    declared shape of a tracker. *)
Definition readable (payload : string) : bool :=
  match JSON.parse payload with
  | None => embeddable payload
  | Some v => no_entry_list v || is_some (Codec.json_to_tracker v)
  end.

(** A block that is read alike and holds no running tracker. *)
Definition settled_block (m : string * string) : bool :=
  readable (snd m) && negb (block_running m).

(** A file all of whose blocks are read alike by the code and the
    embedding (a path without a file has no blocks). *)
Definition readable_file (files : list (string * string)) (path : string) : bool :=
  match assoc path files with
  | Some content => forallb (fun m => readable (snd m)) (exec_all content)
  | None => true
  end.

(** A path at which the embedding's scanner finds nothing to stop. *)
Definition idle (files : list (string * string)) (path : string) : Prop :=
  ends_with ".md" path = true -> running_file files path = false.

(** A path the scan has nothing to stop at: it is no markdown file, or
    each of its blocks is read by the code as by the embedding and none holds
    a running tracker. *)
Definition quiet (files : list (string * string)) (path : string) : Prop :=
  ends_with ".md" path = true ->
  match assoc path files with
  | Some content => forallb settled_block (exec_all content) = true
  | None => True
  end.

(** *** Trackers without a dollar sign *)





Section Commands.
Variable clock : nat -> string.

(** The callback of the command in [main.ts]; the result is the text of
    the notice it shows. *)
Definition stopAllTimers : M string :=
  files <- getMarkdownFiles ;;
  stoppedCount <-
    foldM (fun (stoppedCount : nat) (path : string) =>
             try_catch
               (file <- read_file path ;;
                match file with
                | Some content =>
                    wasStopped <- stopAllRunnersInFile clock content path ;;
                    ret (if wasStopped : bool then stoppedCount + 1 else stoppedCount)
                | None => throw HostError
                end)
               (fun e =>
                  log LogError ("Error stopping timers in file: " ++ path)%string ;;;
                  ret stoppedCount))
          0 files ;;
  ret (if 0 <? stoppedCount
       then ("Stopped running timers in " ++ Str.of_nat stoppedCount ++ " file(s)")%string
       else "No running timers found").

End Commands.

(** ** The times of the automatic stop *)

(** [s.split(sep)] for a separator of one character. *)
Fixpoint split_on (sep : ascii) (s : string) : list string :=
  match s with
  | EmptyString => [EmptyString]
  | String c r =>
      if Ascii.eqb c sep then EmptyString :: split_on sep r
      else match split_on sep r with
           | h :: t => String c h :: t
           | [] => [String c EmptyString]
           end
  end.

(** [s.trim()]. *)
Definition trim (s : string) : string := Str.trimEnd (Str.trimStart s).

(** [shouldAutoStopNow(autoStopTimes)] of [main.ts]; [currentTime] is
    [moment().format("HH:mm")]. *)
Definition shouldAutoStopNow (autoStopTimes currentTime : string) : bool :=
  if negb (Str.truthy autoStopTimes) || (trim autoStopTimes =? EmptyString)%string
  then false
  else
    let times := filter Str.truthy (map trim (split_on ";" autoStopTimes)) in
    existsb (String.eqb currentTime) times.

(** ** Entries the migration turns into leaves *)

(** The entries that hold an empty array of sub-entries and no end time:
    no leaf for the search, a running leaf once the migration has taken the
    array away. *)
Fixpoint hollow (entry : Entry) : nat :=
  match subEntries entry with
  | Present [] => if truthy_time (endTime entry) then 0 else 1
  | Present subs => list_sum (map hollow subs)
  | _ => 0
  end.

Section Converts.
Variable unixISO : TimeValue -> option string.

(** Every end time of the tree that the migration converts is converted
    to a text (the date is valid for the library). *)
Fixpoint converts (entry : Entry) : bool :=
  (if truthy_time (endTime entry) && is_numeric (endTime entry)
   then truthy_time (of_option (unixISO (endTime entry))) else true)
  && match subEntries entry with
     | Present subs => forallb converts subs
     | _ => true
     end.

End Converts.

(** ** The command "Insert Time Tracker" *)

(** The tracker the command makes of the answer of the target time
    dialog; the answer is [null] when the dialog is cancelled or closed. *)
Definition insertedTracker (targetTime : option string) : Tracker :=
  mkTracker []
    (match targetTime with
     | Some t => if Str.truthy t && Str.truthy (trim t) then Some (trim t) else None
     | None => None
     end).

(** The text the command hands to [replaceSelection]. *)
Definition insertedText (targetTime : option string) : string :=
  (fence ++ String Str.nl (Codec.stringify (insertedTracker targetTime)
   ++ String Str.nl (fence_end ++ String Str.nl EmptyString)))%string.

(** [editor.replaceSelection(text)] on a document with the text [before]
    and [after] around the selection. *)
Definition replaceSelection (before selection after text : string) : string :=
  (before ++ text ++ after)%string.

(** Lines, each with its line break. *)
Fixpoint unlines (lines : list string) : string :=
  match lines with
  | [] => EmptyString
  | l :: r => (l ++ String Str.nl (unlines r))%string
  end.

(** ** The value of the locator *)

Section Located.
Variable unixISO : TimeValue -> option string.

(** The tracker [loadTracker] returns, whatever it logs. *)
Definition loaded (json : string) : Tracker :=
  match fst (loadTracker unixISO json (mkWorld [] [] 0)) with
  | Normal tracker => tracker
  | Throw _ => emptyTracker
  end.

(** The sections the loop of [loadAllTrackers] reports from line [i] on. *)
Fixpoint located (content : list string) (i : Z) (curr : option (Z * string))
  : list (SectionInfo * Tracker) :=
  match content with
  | [] => []
  | line :: rest =>
      if (Str.trimEnd line =? fence)%string then
        located rest (i + 1)%Z (Some ((i + 1)%Z, EmptyString))
      else
        match curr with
        | Some (start, text) =>
            if (Str.trimEnd line =? fence_end)%string then
              (mkSection start (i - 1)%Z, loaded text) :: located rest (i + 1)%Z None
            else
              located rest (i + 1)%Z
                      (Some (start, (text ++ line ++ String Str.nl EmptyString)%string))
        | None => located rest (i + 1)%Z None
        end
  end.

End Located.

(** A section moved down by [d] lines, with its tracker. *)
Definition shift_section (d : Z) (p : SectionInfo * Tracker) : SectionInfo * Tracker :=
  (mkSection (lineStart (fst p) + d) (lineEnd (fst p) + d), snd p).

(** A line of a payload: no fence. *)
Definition payload_line (line : string) : bool :=
  negb (Str.trimEnd line =? fence)%string && negb (Str.trimEnd line =? fence_end)%string.

(** Sections in the order of the document, the first not before line
    [lo], each with its last line at most one before its first (an empty
    payload), and two lines or more, the fences, between the last line of a
    section and the first line of the next. *)
Fixpoint apart_from (lo : Z) (l : list (SectionInfo * Tracker)) : Prop :=
  match l with
  | [] => True
  | p :: r =>
      (lo <= lineStart (fst p))%Z
      /\ (lineStart (fst p) <= lineEnd (fst p) + 1)%Z
      /\ apart_from (lineEnd (fst p) + 3) r
  end.

(** * Properties *)

(** ** Strings *)

Module StrFacts.
Import Str.

Lemma app_assoc_s (a b c : string) : ((a ++ b) ++ c = a ++ (b ++ c))%string.
Proof. induction a as [|x a IH]; simpl; [reflexivity | now rewrite IH]. Qed.

Lemma app_nil_s (a : string) : (a ++ EmptyString = a)%string.
Proof. induction a as [|x a IH]; simpl; [reflexivity | now rewrite IH]. Qed.

Lemma length_app_s (a b : string) :
  String.length (a ++ b) = String.length a + String.length b.
Proof. induction a as [|x a IH]; simpl; [reflexivity | now rewrite IH]. Qed.

Lemma all_chars_app (p : ascii -> bool) (a b : string) :
  all_chars p (a ++ b) = all_chars p a && all_chars p b.
Proof.
  induction a as [|x a IH]; simpl; [reflexivity|].
  now rewrite IH, andb_assoc.
Qed.

Lemma all_chars_weaken (p q : ascii -> bool) (s : string) :
  (forall c, p c = true -> q c = true) ->
  all_chars p s = true -> all_chars q s = true.
Proof.
  intros Hpq. induction s as [|c s IH]; simpl; [reflexivity|].
  intros H. apply andb_true_iff in H as [Hc Hs].
  now rewrite (Hpq c Hc), IH.
Qed.

Lemma all_chars_drop_while (p q : ascii -> bool) (s : string) :
  (forall c, p c = true -> q c = true) ->
  all_chars q (drop_while p s) = true -> all_chars q s = true.
Proof.
  intros Hpq. induction s as [|c s IH]; simpl; [reflexivity|].
  destruct (p c) eqn:Hc.
  - intros H. now rewrite (Hpq c Hc), IH.
  - simpl. trivial.
Qed.

Lemma drop_while_empty (p : ascii -> bool) (s : string) :
  drop_while p s = EmptyString -> all_chars p s = true.
Proof.
  induction s as [|c s IH]; simpl; [reflexivity|].
  destruct (p c); [assumption | discriminate].
Qed.

Lemma all_chars_trimEnd (q : ascii -> bool) (s : string) :
  (forall c, is_ws c = true -> q c = true) ->
  all_chars q (trimEnd s) = true -> all_chars q s = true.
Proof.
  intros Hq. induction s as [|c s IH]; simpl; [reflexivity|].
  destruct (trimEnd s) as [|c' r] eqn:E.
  - destruct (is_ws c) eqn:Hc.
    + intros _. rewrite (Hq c Hc). now apply IH.
    + simpl. intros H. apply andb_true_iff in H as [-> _]. now apply IH.
  - simpl. intros H. apply andb_true_iff in H as [-> H]. now apply IH.
Qed.

End StrFacts.

(** ** Running entries *)

Module Running.

(** The source's own shape of [getRunningEntry]. *)
Lemma getRunningEntry_cons (entry : Entry) (rest : list Entry) :
  getRunningEntry (entry :: rest) =
  match subEntries entry with
  | Present subs =>
      match getRunningEntry subs with
      | Some running => Some running
      | None => getRunningEntry rest
      end
  | _ => if negb (truthy_time (endTime entry)) then Some entry
         else getRunningEntry rest
  end.
Proof.
  unfold getRunningEntry. simpl.
  destruct entry as [n s e [| |subs] c]; simpl; try reflexivity;
    destruct (truthy_time e); reflexivity.
Qed.

Lemma first_some_count (l : list Entry) :
  Forall (fun x => is_some (runningIn x) = (0 <? runningLeaves x)) l ->
  is_some (first_some runningIn l) = (0 <? list_sum (map runningLeaves l)).
Proof.
  induction 1 as [|x r Hx _ IH]; simpl; [reflexivity|].
  destruct (runningIn x); simpl in Hx.
  - symmetry in Hx. apply Nat.ltb_lt in Hx. symmetry. apply Nat.ltb_lt. lia.
  - symmetry in Hx. apply Nat.ltb_ge in Hx.
    replace (runningLeaves x) with 0 by lia. exact IH.
Qed.

Lemma runningIn_count (entry : Entry) :
  is_some (runningIn entry) = (0 <? runningLeaves entry).
Proof.
  induction entry as [n s e c|n s e c|n s e l c IH] using Entry_tree_ind; simpl;
    try (destruct (truthy_time e); reflexivity).
  now apply first_some_count.
Qed.

Lemma isRunning_count (tracker : Tracker) :
  isRunning tracker = (0 <? count_running (entries tracker)).
Proof.
  unfold isRunning, count_running, getRunningEntry.
  rewrite <- first_some_count.
  - destruct (first_some runningIn (entries tracker)); reflexivity.
  - apply Forall_forall. intros x _. apply runningIn_count.
Qed.

Lemma count_running_app (a b : list Entry) :
  count_running (a ++ b) = count_running a + count_running b.
Proof. unfold count_running. now rewrite map_app, list_sum_app. Qed.

Lemma count_startNewEntry (now : string) (tracker : Tracker) (nm : string) :
  count_running (entries (startNewEntry now tracker nm))
  = count_running (entries tracker) + 1.
Proof. unfold startNewEntry. simpl. now rewrite count_running_app. Qed.

(** [stopRunning] ends the leaf [getRunningEntry] finds: it changes the
    array exactly when there is a running leaf, and then one leaf fewer is
    running. *)
Lemma stop_first_count (now : string) (l : list Entry) :
  Forall (fun e => match stopIn now e with
                   | Some e' => runningLeaves e' + 1 = runningLeaves e
                   | None => runningLeaves e = 0
                   end) l ->
  match stop_first (stopIn now) l with
  | Some l' => count_running l' + 1 = count_running l
  | None => count_running l = 0
  end.
Proof.
  unfold count_running.
  induction 1 as [|x r Hx _ IH]; simpl; [reflexivity|].
  destruct (stopIn now x) as [x'|]; simpl.
  - lia.
  - destruct (stop_first (stopIn now) r) as [r'|]; simpl; lia.
Qed.

Lemma stopIn_count (now : string) (entry : Entry) :
  Str.truthy now = true ->
  match stopIn now entry with
  | Some e' => runningLeaves e' + 1 = runningLeaves entry
  | None => runningLeaves entry = 0
  end.
Proof.
  intros Hnow.
  induction entry as [n s e c|n s e c|n s e l c IH] using Entry_tree_ind; simpl;
    try (destruct (truthy_time e); simpl; [reflexivity | now rewrite Hnow]).
  pose proof (stop_first_count now l IH) as H. unfold count_running in H.
  destruct (stop_first (stopIn now) l); simpl; exact H.
Qed.

Lemma stopRunning_count (now : string) (entries : list Entry) :
  Str.truthy now = true ->
  count_running (stopRunning now entries) = count_running entries - 1
  /\ (isRunning (mkTracker entries None) = false -> stopRunning now entries = entries).
Proof.
  intros Hnow.
  assert (H : match stop_first (stopIn now) entries with
              | Some l' => count_running l' + 1 = count_running entries
              | None => count_running entries = 0
              end).
  { apply stop_first_count. apply Forall_forall. intros x _. now apply stopIn_count. }
  unfold stopRunning. split.
  - destruct (stop_first (stopIn now) entries); lia.
  - rewrite isRunning_count. simpl.
    intros Hr. apply Nat.ltb_ge in Hr.
    destruct (stop_first (stopIn now) entries); [lia | reflexivity].
Qed.

End Running.

(** C3, as stated, fails: two entries started one after the other without a
    stop in between are both running, and [isRunning] answers [true] for
    more than one running leaf. *)
Lemma isRunning_two_running_leaves :
  let tracker := startNewEntry "t1" (startNewEntry "t0" (mkTracker [] None) EmptyString) EmptyString in
  isRunning tracker = true /\ count_running (entries tracker) = 2.
Proof. split; reflexivity. Qed.

(** C3 (amended): [isRunning] is true exactly when the depth-first walk
    finds at least one leaf without end time, which is exactly one leaf when
    the tracker has at most one; and [startNewEntry] on a tracker with no
    running leaf gives a tracker with exactly one. *)
Theorem isRunning_iff_running_leaf (tracker : Tracker) :
  (isRunning tracker = true <-> 1 <= count_running (entries tracker))
  /\ (count_running (entries tracker) <= 1 ->
      (isRunning tracker = true <-> count_running (entries tracker) = 1))
  /\ (forall now nm,
        count_running (entries tracker) = 0 ->
        count_running (entries (startNewEntry now tracker nm)) = 1
        /\ isRunning (startNewEntry now tracker nm) = true).
Proof.
  rewrite Running.isRunning_count.
  split; [|split].
  - rewrite Nat.ltb_lt. lia.
  - intros H. rewrite Nat.ltb_lt. lia.
  - intros now nm H. rewrite Running.isRunning_count, Running.count_startNewEntry, H.
    split; reflexivity.
Qed.

(** At a tracker whose one entry is stopped: a new entry makes it running,
    with one running leaf. *)
Lemma isRunning_iff_running_leaf_witness :
  let tracker := mkTracker [mkEntry "Work" (TStr "2024-01-01T09:00:00.000Z")
                                    (TStr "2024-01-01T10:00:00.000Z") Absent None] None in
  count_running (entries tracker) = 0
  /\ count_running (entries (startNewEntry "2024-01-01T11:00:00.000Z" tracker EmptyString)) = 1
  /\ isRunning (startNewEntry "2024-01-01T11:00:00.000Z" tracker EmptyString) = true.
Proof.
  split; [reflexivity|].
  apply (proj2 (proj2 (isRunning_iff_running_leaf
           (mkTracker [mkEntry "Work" (TStr "2024-01-01T09:00:00.000Z")
                               (TStr "2024-01-01T10:00:00.000Z") Absent None] None)))).
  reflexivity.
Defined.

(** C8: [startSubEntry] with an empty name on a leaf makes it a container with no
    times of its own, whose first child "Part 1" carries the leaf's times
    and whose second child "Part 2" is running; on a container of k
    children it appends a running "Part k+1"; twice on a fresh leaf "Work"
    gives the children "Part 1", "Part 2", "Part 3". *)
Theorem startSubEntry_parts :
  (forall now n s e c,
     startSubEntry now (mkEntry n s e Absent c) EmptyString
     = mkEntry n TNull TNull
         (Present [mkEntry "Part 1" s e Absent c;
                   mkEntry "Part 2" (TStr now) TNull Absent None]) c)
  /\ (forall now n s e l c,
        startSubEntry now (mkEntry n s e (Present l) c) EmptyString
        = mkEntry n s e
            (Present (l ++ [mkEntry ("Part " ++ Str.of_nat (length l + 1))
                                    (TStr now) TNull Absent None])) c)
  /\ (forall t0 t1 t2,
        option_map (map name)
          (match subEntries (startSubEntry t2 (startSubEntry t1 (newEntry t0 "Work") EmptyString) EmptyString) with
           | Present l => Some l
           | _ => None
           end)
        = Some ["Part 1"; "Part 2"; "Part 3"]).
Proof. repeat split. Qed.

(** ** Numeric strings and ISO-8601 text *)

Module NumFacts.
Import Str Num StrFacts.

Lemma digit_numchar c : is_digit c = true -> numchar c = true.
Proof. intros H. unfold numchar, is_hex. rewrite H. now rewrite orb_true_r. Qed.

Lemma ws_numchar c : is_ws c = true -> numchar c = true.
Proof. intros H. unfold numchar. now rewrite H. Qed.

Lemma hex_numchar c : is_hex c = true -> numchar c = true.
Proof. intros H. unfold numchar. rewrite H. now rewrite orb_true_r. Qed.

Lemma octal_hex c : is_octal c = true -> is_hex c = true.
Proof.
  unfold is_octal, is_hex, is_digit. intros H.
  apply andb_true_iff in H as [H1 H2]. apply Nat.leb_le in H1, H2.
  apply orb_true_iff; left. apply orb_true_iff; left.
  apply andb_true_iff; split; apply Nat.leb_le; lia.
Qed.

Lemma binary_hex c : is_binary c = true -> is_hex c = true.
Proof.
  unfold is_binary, is_hex, is_digit. intros H.
  apply andb_true_iff in H as [H1 H2]. apply Nat.leb_le in H1, H2.
  apply orb_true_iff; left. apply orb_true_iff; left.
  apply andb_true_iff; split; apply Nat.leb_le; lia.
Qed.

Lemma strip_sign_numchar (s : string) :
  all_chars numchar (strip_sign s) = true -> all_chars numchar s = true.
Proof.
  destruct s as [|c r]; [trivial|].
  destruct c as [[] [] [] [] [] [] [] []]; simpl; trivial.
Qed.

Lemma exponent_numchar (r : string) :
  exponent_part r = true -> all_chars numchar r = true.
Proof.
  destruct r as [|c r]; [reflexivity|]. unfold exponent_part.
  intros H. apply andb_true_iff in H as [H Hend].
  apply andb_true_iff in H as [Hc _].
  simpl. apply andb_true_iff; split.
  - apply hex_numchar. apply orb_true_iff in Hc as [Hc|Hc];
      apply Ascii.eqb_eq in Hc; subst c; reflexivity.
  - apply strip_sign_numchar.
    apply (all_chars_weaken is_digit); [exact digit_numchar|].
    apply drop_while_empty. now apply String.eqb_eq in Hend.
Qed.

Lemma unsigned_decimal_numchar (u : string) :
  unsigned_decimal u = true -> all_chars numchar u = true.
Proof.
  unfold unsigned_decimal.
  destruct (u =? "Infinity")%string eqn:E.
  - apply String.eqb_eq in E. subst u. reflexivity.
  - intros H. apply (all_chars_drop_while is_digit); [exact digit_numchar|].
    fold (skip_digits u).
    destruct (skip_digits u) as [|c r2] eqn:Eu.
    + reflexivity.
    + assert (Hdot : forall r,
                 exponent_part (skip_digits r) = true -> all_chars numchar r = true).
      { intros r Hr. apply (all_chars_drop_while is_digit); [exact digit_numchar|].
        now apply exponent_numchar. }
      destruct c as [[] [] [] [] [] [] [] []];
        try (apply andb_true_iff in H as [_ H]; now apply exponent_numchar).
      apply andb_true_iff in H as [_ H]. simpl. now apply Hdot.
Qed.

Lemma non_decimal_zero (k : ascii) (r : string) :
  non_decimal (String "0" (String k r)) =
  if Ascii.eqb k "x" || Ascii.eqb k "X" then truthy r && all_chars is_hex r
  else if Ascii.eqb k "o" || Ascii.eqb k "O" then truthy r && all_chars is_octal r
  else if Ascii.eqb k "b" || Ascii.eqb k "B" then truthy r && all_chars is_binary r
  else false.
Proof. reflexivity. Qed.

Lemma non_decimal_head (z : ascii) (t : string) :
  non_decimal (String z t) = true -> z = "0"%char.
Proof.
  destruct z as [[] [] [] [] [] [] [] []]; try discriminate. reflexivity.
Qed.

Lemma non_decimal_numchar (t : string) :
  non_decimal t = true -> all_chars numchar t = true.
Proof.
  destruct t as [|z [|k r]]; try discriminate.
  { intros H. pose proof (non_decimal_head _ _ H). subst z. discriminate. }
  intros H. pose proof (non_decimal_head _ _ H). subst z.
  rewrite non_decimal_zero in H.
  assert (Hk : numchar k = true /\ all_chars is_hex r = true).
  { destruct (Ascii.eqb k "x" || Ascii.eqb k "X") eqn:Ex.
    { apply andb_true_iff in H as [_ H]. split; [|exact H].
      apply orb_true_iff in Ex as [Ex|Ex]; apply Ascii.eqb_eq in Ex; subst k; reflexivity. }
    destruct (Ascii.eqb k "o" || Ascii.eqb k "O") eqn:Eo.
    { apply andb_true_iff in H as [_ H]. split.
      - apply orb_true_iff in Eo as [Eo|Eo]; apply Ascii.eqb_eq in Eo; subst k; reflexivity.
      - revert H. apply all_chars_weaken. exact octal_hex. }
    destruct (Ascii.eqb k "b" || Ascii.eqb k "B") eqn:Eb; [|discriminate].
    apply andb_true_iff in H as [_ H]. split.
    - apply orb_true_iff in Eb as [Eb|Eb]; apply Ascii.eqb_eq in Eb; subst k; reflexivity.
    - revert H. apply all_chars_weaken. exact binary_hex. }
  destruct Hk as [Hk Hr].
  change (numchar "0" && (numchar k && all_chars numchar r) = true).
  rewrite Hk. simpl.
  revert Hr. apply all_chars_weaken. exact hex_numchar.
Qed.

Lemma is_number_numchar (s : string) :
  is_number s = true -> all_chars numchar s = true.
Proof.
  unfold is_number. intros H.
  apply (all_chars_drop_while is_ws); [exact ws_numchar|]. fold (trimStart s).
  apply all_chars_trimEnd; [exact ws_numchar|].
  apply orb_true_iff in H as [H|H]; [apply orb_true_iff in H as [H|H]|].
  - apply String.eqb_eq in H. now rewrite H.
  - now apply non_decimal_numchar.
  - apply strip_sign_numchar. now apply unsigned_decimal_numchar.
Qed.

Lemma matches_numchar (p : list CharClass) (s : string) :
  matches p s = true -> all_chars numchar s = true ->
  forallb (fun k => match k with Lit c => numchar c | Digit => true end) p = true.
Proof.
  revert s. induction p as [|k p IH]; intros s Hm Hs; [reflexivity|].
  destruct s as [|c r]; [destruct k; discriminate|].
  simpl in Hs. apply andb_true_iff in Hs as [Hc Hr].
  destruct k as [|a]; simpl in Hm; apply andb_true_iff in Hm as [Ha Hm]; simpl.
  - now apply (IH r).
  - apply Ascii.eqb_eq in Ha. subst a. rewrite Hc. now apply (IH r).
Qed.

(** ISO-8601 text is not a number: [isNaN(+s)] holds. *)
Lemma iso_not_number (s : string) : iso_instant s = true -> is_number s = false.
Proof.
  intros H. destruct (is_number s) eqn:E; [|reflexivity].
  apply is_number_numchar in E.
  unfold iso_instant in H.
  apply orb_true_iff in H as [H|H]; [apply orb_true_iff in H as [H|H]|];
    apply (matches_numchar _ _ H) in E; discriminate.
Qed.

End NumFacts.

(** ** Legacy migration *)

Module Migration.

Section Idempotence.
Variable unixISO : TimeValue -> option string.
Hypothesis unixISO_text : forall t r, unixISO t = Some r -> Num.is_number r = false.

Lemma migrate_time_fixed (t : TimeValue) :
  truthy_time t && is_numeric t = false -> migrate_time unixISO t = t.
Proof. intros H. unfold migrate_time. now rewrite H. Qed.

Lemma migrate_time_idem (t : TimeValue) :
  migrate_time unixISO (migrate_time unixISO t) = migrate_time unixISO t.
Proof.
  destruct (truthy_time t && is_numeric t) eqn:E.
  - apply migrate_time_fixed. unfold migrate_time. rewrite E.
    destruct (unixISO t) as [r|] eqn:Er; simpl; [|reflexivity].
    rewrite (unixISO_text _ _ Er). apply andb_false_r.
  - rewrite (migrate_time_fixed t E). now apply migrate_time_fixed.
Qed.

Lemma updateLegacyEntry_idem (entry : Entry) :
  updateLegacyEntry unixISO (updateLegacyEntry unixISO entry)
  = updateLegacyEntry unixISO entry.
Proof.
  induction entry as [n s e c|n s e c|n s e l c IH] using Entry_tree_ind;
    simpl; rewrite !migrate_time_idem; try reflexivity.
  destruct l as [|x r]; [reflexivity|].
  simpl. f_equal. f_equal.
  inversion IH as [|? ? Hx Hr]; subst. f_equal; [exact Hx|].
  rewrite map_map. apply map_ext_in. intros y Hy.
  rewrite Forall_forall in Hr. now apply Hr.
Qed.

End Idempotence.

(** On canonical entries the pass changes nothing. *)
Lemma migrate_time_canonical unixISO (t : TimeValue) :
  canonical_time t = true -> migrate_time unixISO t = t.
Proof.
  destruct t as [|s|n]; simpl; intros H; try reflexivity; try discriminate.
  unfold migrate_time. simpl. rewrite (NumFacts.iso_not_number _ H).
  now rewrite andb_false_r.
Qed.

Lemma updateLegacyEntry_canonical unixISO (entry : Entry) :
  canonical_entry entry = true -> updateLegacyEntry unixISO entry = entry.
Proof.
  induction entry as [n s e c|n s e c|n s e l c IH] using Entry_tree_ind;
    simpl; intros H;
    apply andb_true_iff in H as [H Hsub]; apply andb_true_iff in H as [Hs He];
    rewrite (migrate_time_canonical _ _ Hs), (migrate_time_canonical _ _ He);
    try reflexivity; try discriminate.
  destruct l as [|x r]; [discriminate|].
  f_equal. f_equal. rewrite <- (map_id (x :: r)) at 2.
  apply map_ext_in. intros y Hy.
  rewrite Forall_forall in IH. apply IH; [exact Hy|].
  rewrite forallb_forall in Hsub. now apply Hsub.
Qed.

Lemma updateLegacyInfo_canonical unixISO (entries : list Entry) :
  forallb canonical_entry entries = true -> updateLegacyInfo unixISO entries = entries.
Proof.
  intros H. unfold updateLegacyInfo. rewrite <- (map_id entries) at 2.
  apply map_ext_in. intros y Hy. apply updateLegacyEntry_canonical.
  rewrite forallb_forall in H. now apply H.
Qed.

(** The calendar instance writes text that ends in [Z]. *)
Lemma calendar_text (t : TimeValue) (r : string) :
  Calendar.unixISO t = Some r -> Num.is_number r = false.
Proof.
  unfold Calendar.unixISO, Calendar.iso_of_seconds.
  destruct (Calendar.whole t) as [n|]; [|discriminate].
  destruct (Z.abs n <=? 8640000000000)%Z; [|discriminate].
  destruct (Calendar.civil (n / 86400)) as [[y m] d].
  intros H. injection H as <-.
  match goal with |- Num.is_number ?s = false =>
    destruct (Num.is_number s) eqn:E; [|reflexivity] end.
  apply NumFacts.is_number_numchar in E.
  repeat (rewrite StrFacts.all_chars_app in E; apply andb_true_iff in E as [_ E];
          try (cbn [Str.all_chars] in E; apply andb_true_iff in E as [_ E])).
  vm_compute in E. discriminate.
Qed.

End Migration.

(** C5: the migration pass is idempotent, for a library whose
    [toISOString] text is not read back as a number (ISO-8601 text is not). *)
Theorem updateLegacyInfo_idempotent
  (unixISO : TimeValue -> option string)
  (unixISO_text : forall t r, unixISO t = Some r -> Num.is_number r = false)
  (entries : list Entry) :
  updateLegacyInfo unixISO (updateLegacyInfo unixISO entries)
  = updateLegacyInfo unixISO entries.
Proof.
  unfold updateLegacyInfo. rewrite map_map. apply map_ext.
  intros entry. now apply Migration.updateLegacyEntry_idem.
Qed.

(** At [legacy_entries], with the calendar instance of the library: the
    migrated entries, and the second pass that changes nothing. *)
Lemma updateLegacyInfo_idempotent_witness :
  updateLegacyInfo Calendar.unixISO legacy_entries
  = [mkEntry "old" (TStr "2023-11-14T22:13:20.000Z") (TStr "2023-11-14T22:14:20.000Z")
             Absent None;
     mkEntry "split" TNull TNull
       (Present [mkEntry "Part 1" (TStr "2023-11-14T22:15:00.000Z")
                         (TStr "2023-11-14T22:16:40.000Z") Absent None;
                 mkEntry "Part 2" (TStr "2023-11-14T22:20:00.000Z") TNull Absent None])
       (Some true)]
  /\ updateLegacyInfo Calendar.unixISO (updateLegacyInfo Calendar.unixISO legacy_entries)
     = updateLegacyInfo Calendar.unixISO legacy_entries.
Proof.
  split; [vm_compute; reflexivity|].
  apply (updateLegacyInfo_idempotent Calendar.unixISO Migration.calendar_text legacy_entries).
Defined.
(** ** JSON text round trip *)

Module JSONFacts.
Import Str JSON StrFacts.

Lemma parse_escape_char (c : ascii) (t : string) :
  parse_chars (escape_char c ++ t) = push c (parse_chars t).
Proof.
  destruct c as [[] [] [] [] [] [] [] []]; reflexivity.
Qed.

Lemma parse_escape (s rest : string) :
  parse_chars (escape s ++ String dq rest) = Some (s, rest).
Proof.
  induction s as [|c s IH]; simpl.
  - reflexivity.
  - rewrite app_assoc_s, parse_escape_char, IH. reflexivity.
Qed.

Lemma print_opens (v : json) (rest : string) :
  no_number v = true -> opens_value (print v ++ rest).
Proof.
  destruct v as [|[]|n|s|l|m]; simpl; intros H; try discriminate;
    eexists; eexists; (split; [reflexivity | repeat split; reflexivity]).
Qed.

Lemma skip_ws_opens s : opens_value s -> skip_ws s = s.
Proof.
  intros (c & t & -> & Hc & _). unfold skip_ws; simpl. now rewrite Hc.
Qed.

Lemma commas_cons_opens (x : json) (r : list json) (rest : string) :
  no_number x = true ->
  opens_value (commas (map print (x :: r)) ++ rest).
Proof.
  intros H. simpl. destruct (map print r) as [|y ys].
  - now apply print_opens.
  - rewrite app_assoc_s. now apply print_opens.
Qed.

Lemma elements_round_trip (l : list json) :
  Forall round_trips l -> l <> [] -> forallb no_number l = true ->
  forall fuel rest, list_sum (map (fun x => S (json_size x)) l) <= fuel ->
    parse_elements fuel (commas (map print l) ++ String "]" rest) = Some (l, rest).
Proof.
  induction 1 as [|x r Hx Hr IH]; intros Hne Hnn fuel rest Hfuel; [congruence|].
  simpl in Hnn. apply andb_true_iff in Hnn as [Hnx Hnr].
  simpl in Hfuel. destruct fuel as [|fuel]; [lia|].
  cbn [parse_elements].
  destruct r as [|y r].
  - simpl. rewrite (Hx Hnx) by lia. reflexivity.
  - change (commas (map print (x :: y :: r)))
      with (print x ++ String "," (commas (map print (y :: r))))%string.
    rewrite app_assoc_s. rewrite (Hx Hnx) by (simpl in *; lia).
    cbn [append skip_ws drop_while is_json_ws]. simpl Ascii.eqb.
    cbv iota. simpl.
    rewrite IH; [reflexivity | congruence | assumption | simpl in *; lia].
Qed.


Lemma members_round_trip (m : list (string * json)) :
  Forall (fun kv => round_trips (snd kv)) m -> m <> [] ->
  forallb (fun kv => no_number (snd kv)) m = true ->
  forall fuel rest, list_sum (map (fun kv => S (json_size (snd kv))) m) <= fuel ->
    parse_members fuel (commas (map member_text m) ++ String "}" rest) = Some (m, rest).
Proof.
  induction 1 as [|[k v] r Hx Hr IH]; intros Hne Hnn fuel rest Hfuel; [congruence|].
  simpl in Hnn. apply andb_true_iff in Hnn as [Hnx Hnr].
  simpl in Hfuel, Hx, Hnx. destruct fuel as [|fuel]; [lia|].
  cbn [parse_members].
  destruct r as [|y r].
  - simpl. rewrite !app_assoc_s. simpl. rewrite parse_escape. simpl.
    rewrite (Hx Hnx) by lia. reflexivity.
  - change (commas (map member_text ((k, v) :: y :: r)))
      with (member_text (k, v) ++ String "," (commas (map member_text (y :: r))))%string.
    remember (commas (map member_text (y :: r))) as tail eqn:Etail.
    unfold member_text, quote. simpl.
    rewrite !app_assoc_s. simpl. rewrite parse_escape. simpl.
    rewrite (Hx Hnx) by (simpl in *; lia). simpl. subst tail.
    rewrite IH; [reflexivity | congruence | assumption | simpl in *; lia].
Qed.

Lemma parse_value_array (fuel : nat) (r : string) :
  parse_value (S fuel) (String "[" r) =
  if starts_with "]" (skip_ws r) then Some (JArr [], drop 1 (skip_ws r))
  else match parse_elements fuel r with
       | Some (vs, r') => Some (JArr vs, r')
       | None => None
       end.
Proof. reflexivity. Qed.

Lemma parse_value_object (fuel : nat) (r : string) :
  parse_value (S fuel) (String "{" r) =
  if starts_with "}" (skip_ws r) then Some (JObj [], drop 1 (skip_ws r))
  else match parse_members fuel r with
       | Some (kvs, r') => Some (JObj kvs, r')
       | None => None
       end.
Proof. reflexivity. Qed.

Lemma member_opens (kv : string * json) (r : list (string * json)) (rest : string) :
  opens_value (commas (map member_text (kv :: r)) ++ rest).
Proof.
  simpl. destruct (map member_text r); unfold member_text, quote; simpl;
    eexists; eexists; (split; [reflexivity | repeat split; reflexivity]).
Qed.

Lemma value_round_trip (v : json) : round_trips v.
Proof.
  induction v as [|b|n|s|l IH|m IH] using json_tree_ind; intros Hn fuel rest Hfuel;
    (destruct fuel as [|fuel]; [simpl in Hfuel; lia|]).
  - reflexivity.
  - destruct b; reflexivity.
  - discriminate.
  - simpl. rewrite app_assoc_s. simpl. now rewrite parse_escape.
  - simpl in Hn, Hfuel. cbn [print]. cbn [append].
    rewrite parse_value_array, app_assoc_s.
    destruct l as [|x r].
    + reflexivity.
    + assert (Ho : opens_value (commas (map print (x :: r)) ++ "]" ++ rest)).
      { apply commas_cons_opens. simpl in Hn. now apply andb_true_iff in Hn as [? _]. }
      rewrite (skip_ws_opens _ Ho). destruct Ho as (c & t & E & _ & Hc & _).
      rewrite E at 1. unfold starts_with. rewrite Hc.
      change ("]" ++ rest)%string with (String "]" rest).
      rewrite elements_round_trip; [reflexivity | assumption | congruence | assumption | lia].
  - simpl in Hn, Hfuel. cbn [print]. cbn [append].
    rewrite parse_value_object, app_assoc_s. fold member_text.
    destruct m as [|kv r].
    + reflexivity.
    + assert (Ho : opens_value (commas (map member_text (kv :: r)) ++ "}" ++ rest))
        by apply member_opens.
      rewrite (skip_ws_opens _ Ho). destruct Ho as (c & t & E & _ & _ & Hc).
      rewrite E at 1. unfold starts_with. rewrite Hc.
      change ("}" ++ rest)%string with (String "}" rest).
      rewrite members_round_trip; [reflexivity | assumption | congruence | assumption | lia].
Qed.

Lemma commas_size (l : list json) :
  Forall (fun v => no_number v = true -> json_size v <= String.length (print v)) l ->
  forallb no_number l = true ->
  list_sum (map (fun x => S (json_size x)) l) <= S (String.length (commas (map print l))).
Proof.
  induction 1 as [|x r Hx _ IH]; intros Hn; simpl; [lia|].
  simpl in Hn. apply andb_true_iff in Hn as [Hnx Hnr].
  specialize (IH Hnr). specialize (Hx Hnx).
  destruct r as [|y r]; simpl in *; [lia|].
  rewrite length_app_s. simpl. lia.
Qed.

Lemma members_size (m : list (string * json)) :
  Forall (fun kv => no_number (snd kv) = true ->
                    json_size (snd kv) <= String.length (print (snd kv))) m ->
  forallb (fun kv => no_number (snd kv)) m = true ->
  list_sum (map (fun kv => S (json_size (snd kv))) m)
  <= S (String.length (commas (map member_text m))).
Proof.
  induction 1 as [|[k v] r Hx _ IH]; intros Hn; simpl; [lia|].
  simpl in Hn, Hx. apply andb_true_iff in Hn as [Hnx Hnr].
  specialize (IH Hnr). specialize (Hx Hnx).
  assert (Hm : json_size v <= String.length (member_text (k, v))).
  { unfold member_text, quote. simpl. rewrite !length_app_s. simpl. lia. }
  destruct r as [|y r]; simpl in *; [lia|].
  rewrite length_app_s. simpl. lia.
Qed.

Lemma size_le_length (v : json) :
  no_number v = true -> json_size v <= String.length (print v).
Proof.
  induction v as [|b|n|s|l IH|m IH] using json_tree_ind; intros Hn.
  - simpl. lia.
  - destruct b; simpl; lia.
  - discriminate.
  - simpl. lia.
  - simpl in Hn. pose proof (commas_size l IH Hn).
    cbn [json_size print String.length]. rewrite length_app_s. simpl. lia.
  - simpl in Hn. pose proof (members_size m IH Hn).
    cbn [json_size print String.length]. fold member_text. rewrite length_app_s. simpl. lia.
Qed.

(** [JSON.parse(JSON.stringify(v))] gives [v] back, for a value without
    numbers. *)
Lemma parse_print (v : json) : no_number v = true -> parse (print v) = Some v.
Proof.
  intros Hn. unfold parse.
  rewrite <- (app_nil_s (print v)) at 2.
  rewrite value_round_trip; [reflexivity | assumption|].
  pose proof (size_le_length v Hn). lia.
Qed.

End JSONFacts.

(** ** The codec *)

Module CodecFacts.
Import JSON Codec.

Lemma json_to_time_round (t : TimeValue) :
  json_to_time (Some (time_to_json t)) = Some t.
Proof. destruct t; reflexivity. Qed.

Lemma all_some_round (l : list Entry) :
  Forall (fun x => json_to_entry (entry_to_json x) = Some x) l ->
  all_some (map json_to_entry (map entry_to_json l)) = Some l.
Proof.
  induction 1 as [|x r Hx _ IH]; simpl; [reflexivity|].
  now rewrite Hx, IH.
Qed.

Lemma entry_round (entry : Entry) :
  json_to_entry (entry_to_json entry) = Some entry.
Proof.
  induction entry as [n s e c|n s e c|n s e l c IH] using Entry_tree_ind.
  - destruct s, e, c; reflexivity.
  - destruct s, e, c; reflexivity.
  - apply all_some_round in IH.
    destruct s, e, c; simpl; rewrite IH; reflexivity.
Qed.

Lemma tracker_round (tracker : Tracker) :
  json_to_tracker (tracker_to_json tracker) = Some tracker.
Proof.
  destruct tracker as [es [t|]]; simpl;
    (rewrite all_some_round; [reflexivity|]);
    apply Forall_forall; intros x _; apply entry_round.
Qed.

Lemma canonical_time_no_number (t : TimeValue) :
  canonical_time t = true -> no_number (time_to_json t) = true.
Proof. destruct t; simpl; trivial. Qed.

Lemma forallb_map {A B} (f : A -> B) (p : B -> bool) (l : list A) :
  forallb p (map f l) = forallb (fun x => p (f x)) l.
Proof. induction l as [|x l IH]; simpl; [reflexivity | now rewrite IH]. Qed.

Lemma canonical_entry_no_number (entry : Entry) :
  canonical_entry entry = true -> no_number (entry_to_json entry) = true.
Proof.
  induction entry as [n s e c|n s e c|n s e l c IH] using Entry_tree_ind;
    simpl; intros H;
    apply andb_true_iff in H as [H Hsub]; apply andb_true_iff in H as [Hs He];
    rewrite (canonical_time_no_number _ Hs), (canonical_time_no_number _ He);
    try discriminate.
  - destruct c; reflexivity.
  - destruct l as [|x r]; [discriminate|].
    assert (Hl : forallb no_number (map entry_to_json (x :: r)) = true).
    { rewrite forallb_map. apply forallb_forall. intros y Hy.
      rewrite Forall_forall in IH. apply IH; [exact Hy|].
      rewrite forallb_forall in Hsub. now apply Hsub. }
    rewrite Hl. destruct c; reflexivity.
Qed.

Lemma canonical_no_number (tracker : Tracker) :
  canonical tracker = true -> no_number (tracker_to_json tracker) = true.
Proof.
  unfold canonical. intros H.
  assert (Hl : forallb no_number (map entry_to_json (entries tracker)) = true).
  { rewrite forallb_map. apply forallb_forall. intros y Hy.
    apply canonical_entry_no_number. rewrite forallb_forall in H. now apply H. }
  unfold tracker_to_json. cbn [app forallb snd no_number].
  rewrite Hl. destruct (targetTime tracker); reflexivity.
Qed.

Lemma stringify_truthy (tracker : Tracker) : Str.truthy (stringify tracker) = true.
Proof. reflexivity. Qed.

End CodecFacts.

(** C4: decoding the encoding of a canonical tracker gives the tracker
    back, nothing is logged, and the migration pass leaves it as it is. *)
Theorem loadTracker_stringify
  (unixISO : TimeValue -> option string) (tracker : Tracker) (w : World) :
  canonical tracker = true ->
  loadTracker unixISO (Codec.stringify tracker) w = (Normal tracker, w)
  /\ updateLegacyInfo unixISO (entries tracker) = entries tracker.
Proof.
  intros H.
  assert (Hm : updateLegacyInfo unixISO (entries tracker) = entries tracker)
    by now apply Migration.updateLegacyInfo_canonical.
  split; [|exact Hm].
  unfold loadTracker. rewrite CodecFacts.stringify_truthy.
  unfold try_catch, bind, JSON_parse, Codec.stringify.
  rewrite JSONFacts.parse_print by now apply CodecFacts.canonical_no_number.
  unfold ret, as_Tracker. rewrite CodecFacts.tracker_round.
  unfold ret. rewrite Hm. now destruct tracker.
Qed.

(** At [sample_tracker]. *)
Lemma loadTracker_stringify_witness :
  canonical sample_tracker = true
  /\ loadTracker Calendar.unixISO (Codec.stringify sample_tracker) (mkWorld [] [] 0)
     = (Normal sample_tracker, mkWorld [] [] 0).
Proof.
  split; [reflexivity|].
  apply (loadTracker_stringify Calendar.unixISO sample_tracker (mkWorld [] [] 0)).
  reflexivity.
Defined.



(** ** Removal and flattening *)

Module Removal.

Lemma update_nth_cons {A} (i : nat) (f : A -> A) (x : A) (l : list A) :
  update_nth (S i) f (x :: l) = x :: update_nth i f l.
Proof. unfold update_nth. simpl. now destruct (nth_error l i). Qed.

Lemma update_nth_length {A} (i : nat) (f : A -> A) (l : list A) :
  length (update_nth i f l) = length l.
Proof.
  revert l. induction i as [|i IH]; intros [|x l]; try reflexivity.
  rewrite update_nth_cons. simpl. now rewrite IH.
Qed.

Lemma update_nth_ext {A} (i : nat) (f g : A -> A) (l : list A) :
  (forall x, nth_error l i = Some x -> f x = g x) ->
  update_nth i f l = update_nth i g l.
Proof.
  intros H. unfold update_nth. destruct (nth_error l i) as [x|]; [|reflexivity].
  now rewrite (H x eq_refl).
Qed.

Lemma nth_error_update_nth {A} (i : nat) (f : A -> A) (l : list A) (x : A) :
  nth_error l i = Some x -> nth_error (update_nth i f l) i = Some (f x).
Proof.
  revert l. induction i as [|i IH]; intros [|y l] H; try discriminate.
  - injection H as ->. reflexivity.
  - rewrite update_nth_cons. simpl. now apply IH.
Qed.

Lemma forallb_update_nth {A} (p : A -> bool) (i : nat) (f : A -> A) (l : list A) :
  forallb p l = true ->
  (forall x, nth_error l i = Some x -> p (f x) = true) ->
  forallb p (update_nth i f l) = true.
Proof.
  revert l. induction i as [|i IH]; intros [|y l] H Hf; try reflexivity.
  - simpl in H. apply andb_true_iff in H as [_ H].
    unfold update_nth. simpl. now rewrite (Hf y eq_refl).
  - simpl in H. apply andb_true_iff in H as [Hy H].
    rewrite update_nth_cons. simpl. rewrite Hy. apply IH; [exact H|].
    intros x Hx. now apply Hf.
Qed.

(** A reference that names nothing under the array leaves it as it is. *)
Lemma loop_elsewhere (r : EntryRef) (l : list Entry) :
  (forall j, seen_from j r = []) ->
  Forall (fun e => removeIn e [] = (e, false)) l ->
  forall j, remove_loop removeIn r j l = (l, false).
Proof.
  intros Hr. induction 1 as [|x l Hx _ IH]; intros j; simpl; [reflexivity|].
  now rewrite Hr, Hx, IH.
Qed.

Lemma removeIn_nil (entry : Entry) : removeIn entry [] = (entry, false).
Proof.
  induction entry as [n s e c|n s e c|n s e l c IH] using Entry_tree_ind;
    try reflexivity.
  simpl. unfold removeEntry_with. simpl.
  now rewrite (loop_elsewhere [] l (fun _ => eq_refl) IH 0).
Qed.

Lemma loop_nowhere (r : EntryRef) (l : list Entry) (j : nat) :
  (forall j, seen_from j r = []) -> remove_loop removeIn r j l = (l, false).
Proof.
  intros Hr. apply loop_elsewhere; [exact Hr|].
  apply Forall_forall. intros x _. apply removeIn_nil.
Qed.

Lemma loop_passed (i j : nat) (below : EntryRef) (l : list Entry) :
  i < j -> remove_loop removeIn (i :: below) j l = (l, false).
Proof.
  revert j. induction l as [|x l IH]; intros j Hij; cbn [remove_loop]; [reflexivity|].
  assert (E : seen_from j (i :: below) = []).
  { destruct below; simpl; [reflexivity|].
    destruct (Nat.eqb_spec i j); [lia | reflexivity]. }
  rewrite E, removeIn_nil, IH by lia. reflexivity.
Qed.

(** The loop reaches the entry that holds the object and no other. *)
Lemma loop_at (b : nat) (bs : EntryRef) (l : list Entry) (j k : nat) :
  remove_loop removeIn ((j + k) :: b :: bs) j l =
  match nth_error l k with
  | Some e =>
      if snd (removeIn e (b :: bs))
      then (update_nth k (fun _ => fst (removeIn e (b :: bs))) l, true)
      else (l, false)
  | None => (l, false)
  end.
Proof.
  revert j k. induction l as [|x l IH]; intros j k.
  - destruct k; reflexivity.
  - destruct k as [|k].
    + cbn [remove_loop nth_error seen_from]. rewrite Nat.add_0_r, Nat.eqb_refl.
      destruct (removeIn x (b :: bs)) as [x' [|]]; cbn [fst snd].
      * reflexivity.
      * rewrite loop_passed by lia. reflexivity.
    + cbn [remove_loop nth_error seen_from].
      destruct (Nat.eqb_spec (j + S k) j) as [E|_]; [lia|].
      rewrite removeIn_nil.
      replace (j + S k) with (S j + k) by lia. rewrite IH.
      destruct (nth_error l k) as [e|]; [|reflexivity].
      destruct (snd (removeIn e (b :: bs))); [|reflexivity].
      now rewrite update_nth_cons.
Qed.

(** The source's own shape of [removeEntry] on an object held below. *)
Lemma removeEntry_below (entries : list Entry) (i b : nat) (bs : EntryRef) :
  removeEntry entries (i :: b :: bs) =
  match nth_error entries i with
  | Some e =>
      if snd (removeIn e (b :: bs))
      then (update_nth i (fun _ => fst (removeIn e (b :: bs))) entries, true)
      else (entries, false)
  | None => (entries, false)
  end.
Proof.
  unfold removeEntry, removeEntry_with. cbn [contains].
  exact (loop_at b bs entries 0 i).
Qed.

Lemma removeIn_node n s e l c (r : EntryRef) :
  removeIn (mkEntry n s e (Present l) c) r =
  let '(subs', found) := removeEntry l r in
  if found then
    (match subs' with
     | [single] => mkEntry n (startTime single) (endTime single) Absent c
     | _ => mkEntry n s e (Present subs') c
     end, true)
  else (mkEntry n s e (Present l) c, false).
Proof. reflexivity. Qed.

(** The body of the loop on a parent of two, one of which is removed. *)
Lemma removeIn_pair (P a b : Entry) (k : nat) :
  subEntries P = Present [a; b] -> k < 2 ->
  removeIn P [k] = (flattened P (sibling_of k a b), true).
Proof.
  destruct P as [n s e sub c]. simpl. intros -> Hk.
  destruct k as [|[|k]]; [reflexivity | reflexivity | lia].
Qed.

(** Removal below a top-level parent of two needs no assumption on the
    rest of the array. *)
Lemma removeEntry_top (entries : list Entry) (i : nat) (P a b : Entry) (k : nat) :
  nth_error entries i = Some P -> subEntries P = Present [a; b] -> k < 2 ->
  removeEntry entries [i; k]
  = (update_nth i (fun _ => flattened P (sibling_of k a b)) entries, true).
Proof.
  intros Ei HP Hk. rewrite removeEntry_below, Ei.
  rewrite (removeIn_pair P a b k HP Hk). reflexivity.
Qed.

Lemma put_length (q : EntryRef) (entries : list Entry) (new : Entry) :
  length (put entries q new) = length entries.
Proof.
  destruct q as [|i [|j q]]; simpl; [reflexivity| |]; apply update_nth_length.
Qed.

Lemma put_below (entries : list Entry) (i j : nat) (q : EntryRef) (new : Entry) :
  put entries (i :: j :: q) new =
  update_nth i
    (fun entry =>
       match subEntries entry with
       | Present subs =>
           mkEntry (name entry) (startTime entry) (endTime entry)
                   (Present (put subs (j :: q) new)) (collapsed entry)
       | _ => entry
       end)
    entries.
Proof. reflexivity. Qed.

Lemma resolve_below (entries : list Entry) (i j : nat) (q : EntryRef) :
  resolve entries (i :: j :: q) =
  match nth_error entries i with
  | Some entry =>
      match subEntries entry with
      | Present subs => resolve subs (j :: q)
      | _ => None
      end
  | None => None
  end.
Proof. reflexivity. Qed.

(** Removal of one of the two sub-entries of the entry at [q], in a tree at
    rest: the entry at [q] is flattened and nothing else changes. *)
Lemma removeEntry_at (q : EntryRef) :
  forall (entries : list Entry) (P a b : Entry) (k : nat),
    all_rest entries = true ->
    resolve entries q = Some P -> subEntries P = Present [a; b] -> k < 2 ->
    removeEntry entries (q ++ [k])
    = (put entries q (flattened P (sibling_of k a b)), true).
Proof.
  induction q as [|i q IH]; intros entries P a b k Hrest Hq HP Hk; [discriminate|].
  destruct q as [|j q].
  - simpl in Hq. cbn [app]. rewrite removeEntry_below.
    destruct (nth_error entries i) as [e|] eqn:Ei; [|discriminate].
    injection Hq as ->. rewrite (removeIn_pair P a b k HP Hk). reflexivity.
  - rewrite resolve_below in Hq.
    destruct (nth_error entries i) as [A|] eqn:Ei; [|discriminate].
    destruct A as [n s e [| |subs] c]; cbn [subEntries] in Hq; try discriminate.
    assert (HA : rests (mkEntry n s e (Present subs) c) = true).
    { unfold all_rest in Hrest. rewrite forallb_forall in Hrest.
      apply Hrest. eapply nth_error_In; eassumption. }
    cbn [rests subEntries] in HA. apply andb_true_iff in HA as [Hlen Hsubs]. apply Nat.leb_le in Hlen.
    specialize (IH subs P a b k Hsubs Hq HP Hk).
    change ((i :: j :: q) ++ [k]) with (i :: j :: (q ++ [k])).
    rewrite removeEntry_below, Ei.
    change (j :: q ++ [k]) with ((j :: q) ++ [k]).
    rewrite removeIn_node, IH. cbn [fst snd].
    pose proof (put_length (j :: q) subs (flattened P (sibling_of k a b))) as Hl.
    destruct (put subs (j :: q) (flattened P (sibling_of k a b))) as [|x [|y z]] eqn:Ep;
      simpl in Hl; try lia.
    rewrite put_below. f_equal. apply update_nth_ext.
    intros x' Hx'. rewrite Ei in Hx'. injection Hx' as <-. cbn [subEntries name startTime endTime collapsed].
    now rewrite Ep.
Qed.

Lemma resolve_put (q : EntryRef) :
  forall (entries : list Entry) (P new : Entry),
    resolve entries q = Some P -> resolve (put entries q new) q = Some new.
Proof.
  induction q as [|i q IH]; intros entries P new Hq; [discriminate|].
  destruct q as [|j q].
  - simpl in *. destruct (nth_error entries i) as [e|] eqn:Ei; [|discriminate].
    now rewrite (nth_error_update_nth i _ entries e Ei).
  - rewrite resolve_below in Hq.
    destruct (nth_error entries i) as [A|] eqn:Ei; [|discriminate].
    destruct A as [n s e [| |subs] c]; cbn [subEntries] in Hq; try discriminate.
    rewrite put_below, resolve_below, (nth_error_update_nth i _ entries _ Ei).
    cbn [subEntries]. now apply (IH subs P).
Qed.

Lemma rests_put (q : EntryRef) :
  forall (entries : list Entry) (new : Entry),
    all_rest entries = true -> rests new = true ->
    all_rest (put entries q new) = true.
Proof.
  induction q as [|i q IH]; intros entries new Hrest Hnew; [exact Hrest|].
  destruct q as [|j q]; [cbn [put] | rewrite put_below];
    apply forallb_update_nth; try exact Hrest.
  - intros _ _. exact Hnew.
  - intros A HA.
    assert (Hr : rests A = true).
    { unfold all_rest in Hrest. rewrite forallb_forall in Hrest.
      apply Hrest. eapply nth_error_In; eassumption. }
    destruct A as [n s e [| |subs] c]; cbn [subEntries]; try exact Hr.
    cbn [rests subEntries] in Hr. apply andb_true_iff in Hr as [Hlen Hsubs].
    cbn [rests subEntries]. rewrite put_length, Hlen. simpl.
    now apply IH.
Qed.

Lemma resolve_app (q : EntryRef) :
  forall (entries : list Entry) (j : nat) (p : EntryRef),
    resolve entries (q ++ j :: p) =
    match q with
    | [] => resolve entries (j :: p)
    | _ :: _ =>
        match resolve entries q with
        | Some e =>
            match subEntries e with
            | Present subs => resolve subs (j :: p)
            | _ => None
            end
        | None => None
        end
    end.
Proof.
  induction q as [|i q IH]; intros entries j p; [reflexivity|].
  destruct q as [|i' q].
  - simpl. destruct (nth_error entries i); reflexivity.
  - change ((i :: i' :: q) ++ j :: p) with (i :: i' :: (q ++ j :: p)).
    rewrite !resolve_below. destruct (nth_error entries i) as [A|]; [|reflexivity].
    destruct (subEntries A) as [| |subs]; try reflexivity.
    change (i' :: (q ++ j :: p)) with ((i' :: q) ++ j :: p).
    now rewrite IH.
Qed.

(** What [removeEntry] leaves is at rest when the tree was. *)
Lemma loop_rests (l : list Entry) :
  Forall (fun e => forall r, rests e = true -> rests (fst (removeIn e r)) = true) l ->
  forallb rests l = true ->
  forall r j,
    forallb rests (fst (remove_loop removeIn r j l)) = true
    /\ length (fst (remove_loop removeIn r j l)) = length l.
Proof.
  induction 1 as [|x l Hx _ IH]; intros Hl r j; simpl; [split; reflexivity|].
  simpl in Hl. apply andb_true_iff in Hl as [Hrx Hrl].
  specialize (Hx (seen_from j r) Hrx).
  destruct (removeIn x (seen_from j r)) as [x' [|]]; simpl in *.
  - now rewrite Hx, Hrl.
  - destruct (IH Hrl r (S j)) as [H1 H2].
    destruct (remove_loop removeIn r (S j) l) as [l' f]; simpl in *.
    now rewrite Hrx, H1, H2.
Qed.

Lemma forallb_remove (l : list Entry) (r : EntryRef) :
  forallb rests l = true -> forallb rests (remove l r) = true.
Proof.
  destruct r as [|i [|? ?]]; simpl; trivial.
  revert l. induction i as [|i IH]; intros [|x l] H; try reflexivity;
    simpl in H; apply andb_true_iff in H as [Hx H].
  - exact H.
  - simpl. rewrite Hx. now apply IH.
Qed.

Lemma remove_length (l : list Entry) (r : EntryRef) :
  contains l r = true -> S (length (remove l r)) = length l.
Proof.
  destruct r as [|i [|? ?]]; try discriminate.
  unfold contains, remove. intros H. apply Nat.ltb_lt in H.
  rewrite length_app, length_firstn, length_skipn. lia.
Qed.

Lemma removeIn_rests (entry : Entry) :
  forall r, rests entry = true -> rests (fst (removeIn entry r)) = true.
Proof.
  induction entry as [n s e c|n s e c|n s e l c IH] using Entry_tree_ind;
    intros r Hr; try reflexivity.
  rewrite removeIn_node. unfold removeEntry, removeEntry_with.
  cbn [rests subEntries] in Hr. apply andb_true_iff in Hr as [Hlen Hl]. apply Nat.leb_le in Hlen.
  destruct (contains l r) eqn:Hc.
  - pose proof (remove_length l r Hc) as Hn.
    pose proof (forallb_remove l r Hl) as Hf.
    destruct (remove l r) as [|x [|y z]]; simpl in Hn; try lia; [reflexivity|].
    cbn [fst rests subEntries]. rewrite Hf. reflexivity.
  - destruct (loop_rests l IH Hl r 0) as [Hf Hn].
    destruct (remove_loop removeIn r 0 l) as [l' [|]]; cbn [fst] in *.
    + destruct l' as [|x [|y z]]; simpl in Hn; try lia.
      cbn [rests subEntries]. rewrite Hf. reflexivity.
    + cbn [rests subEntries]. rewrite Hl.
      apply andb_true_iff; split; [now apply Nat.leb_le | reflexivity].
Qed.

Lemma removeEntry_rests (entries : list Entry) (r : EntryRef) :
  all_rest entries = true -> all_rest (fst (removeEntry entries r)) = true.
Proof.
  intros H. unfold removeEntry, removeEntry_with, all_rest.
  destruct (contains entries r).
  - now apply forallb_remove.
  - apply loop_rests; [|exact H].
    apply Forall_forall. intros x _. apply removeIn_rests.
Qed.

Lemma startSubEntry_rests (now : string) (entry : Entry) (nm : string) :
  rests entry = true -> rests (startSubEntry now entry nm) = true.
Proof.
  destruct entry as [n s e [| |l] c]; try reflexivity.
  unfold startSubEntry. cbn [rests subEntries truthy_sub].
  intros H. apply andb_true_iff in H as [Hlen Hl]. apply Nat.leb_le in Hlen.
  rewrite forallb_app, Hl, length_app. simpl forallb. simpl length.
  rewrite andb_true_r. apply Nat.leb_le. lia.
Qed.

End Removal.

(** C6: removing one of the two sub-entries of a parent leaves the parent
    without sub-entries and with the start and end time of the surviving
    sibling: so does the loop body on the parent itself, so does
    [removeEntry] for a top-level parent in any array, and so it does for a
    parent anywhere in a tree at rest (every entry that holds sub-entries
    holds at least two), which is then at rest again; every [removeEntry]
    and every [startSubEntry] leaves a tree at rest at rest: no entry ends
    up holding no or one sub-entry. *)
Theorem removeEntry_flatten_invariant (parent a b : Entry) (k : nat) :
  subEntries parent = Present [a; b] ->
  k < 2 ->
  let sibling := if k =? 0 then b else a in
  let leaf := mkEntry (name parent) (startTime sibling) (endTime sibling)
                      Absent (collapsed parent) in
  removeIn parent [k] = (leaf, true)
  /\ (forall entries i,
        nth_error entries i = Some parent ->
        removeEntry entries [i; k] = (update_nth i (fun _ => leaf) entries, true))
  /\ (forall entries q,
        all_rest entries = true ->
        resolve entries q = Some parent ->
        exists entries',
          removeEntry entries (q ++ [k]) = (entries', true)
          /\ resolve entries' q = Some leaf
          /\ all_rest entries' = true)
  /\ (forall entries,
        all_rest entries = true ->
        (forall toRemove, all_rest (fst (removeEntry entries toRemove)) = true)
        /\ (forall now i nm,
              all_rest (update_nth i (fun entry => startSubEntry now entry nm) entries)
              = true)).
Proof.
  intros Hp Hk sibling leaf.
  split; [now apply Removal.removeIn_pair|].
  split; [intros entries i Hi; now apply (Removal.removeEntry_top entries i parent a b)|].
  split.
  - intros entries q Hrest Hq.
    exists (put entries q (flattened parent (sibling_of k a b))).
    split; [now apply Removal.removeEntry_at|].
    split; [now apply (Removal.resolve_put q entries parent)|].
    now apply Removal.rests_put.
  - intros entries Hrest. split.
    + intros toRemove. now apply Removal.removeEntry_rests.
    + intros now i nm. apply Removal.forallb_update_nth; [exact Hrest|].
      intros x Hx. apply Removal.startSubEntry_rests.
      unfold all_rest in Hrest. rewrite forallb_forall in Hrest.
      apply Hrest. eapply nth_error_In; eassumption.
Qed.

(** At [day], whose second entry holds two parts: the first part removed,
    the entry is a leaf with the times of the second part. *)
Lemma removeEntry_flatten_invariant_witness :
  removeEntry day [1; 0]
  = ([mkEntry "Mail" (TStr "2024-01-01T08:00:00.000Z") (TStr "2024-01-01T08:30:00.000Z")
              Absent None;
      mkEntry "Work" (TStr "2024-01-01T11:00:00.000Z") (TStr "2024-01-01T12:00:00.000Z")
              Absent (Some false)], true)
  /\ exists entries',
       removeEntry day ([1] ++ [0]) = (entries', true)
       /\ resolve entries' [1]
          = Some (mkEntry "Work" (TStr "2024-01-01T11:00:00.000Z")
                          (TStr "2024-01-01T12:00:00.000Z") Absent (Some false))
       /\ all_rest entries' = true.
Proof.
  split; [reflexivity|].
  refine (proj1 (proj2 (proj2
            (removeEntry_flatten_invariant
               (mkEntry "Work" TNull TNull
                  (Present [mkEntry "Part 1" (TStr "2024-01-01T09:00:00.000Z")
                                    (TStr "2024-01-01T10:00:00.000Z") Absent None;
                            mkEntry "Part 2" (TStr "2024-01-01T11:00:00.000Z")
                                    (TStr "2024-01-01T12:00:00.000Z") Absent None])
                  (Some false))
               (mkEntry "Part 1" (TStr "2024-01-01T09:00:00.000Z")
                        (TStr "2024-01-01T10:00:00.000Z") Absent None)
               (mkEntry "Part 2" (TStr "2024-01-01T11:00:00.000Z")
                        (TStr "2024-01-01T12:00:00.000Z") Absent None)
               0 eq_refl _))) day [1] eq_refl eq_refl).
  lia.
Defined.

(** C7: when the surviving sibling itself holds sub-entries, the parent
    takes only its start and end time and loses its own [subEntries]: the
    sibling's sub-entries, reachable below the parent before the removal,
    are in the tree no more.  This holds for a top-level parent in any
    array, and for a parent anywhere in a tree at rest. *)
Theorem removeEntry_discards_grandchildren
  (parent a b : Entry) (k : nat) (grandchildren : list Entry) :
  subEntries parent = Present [a; b] ->
  k < 2 ->
  let sibling := if k =? 0 then b else a in
  let leaf := mkEntry (name parent) (startTime sibling) (endTime sibling)
                      Absent (collapsed parent) in
  subEntries sibling = Present grandchildren ->
  removeIn parent [k] = (leaf, true)
  /\ (forall entries i,
        nth_error entries i = Some parent ->
        (forall j, resolve entries [i; 1 - k; j] = nth_error grandchildren j)
        /\ removeEntry entries [i; k] = (update_nth i (fun _ => leaf) entries, true)
        /\ (forall j below,
              resolve (update_nth i (fun _ => leaf) entries) (i :: j :: below) = None))
  /\ (forall entries q,
        all_rest entries = true ->
        resolve entries q = Some parent ->
        (forall j, resolve entries (q ++ [1 - k; j]) = nth_error grandchildren j)
        /\ exists entries',
             removeEntry entries (q ++ [k]) = (entries', true)
             /\ resolve entries' q = Some leaf
             /\ (forall j below, resolve entries' (q ++ j :: below) = None)).
Proof.
  intros Hp Hk sibling leaf Hg.
  assert (Hdeep : forall entries q,
             resolve entries q = Some parent ->
             forall j, resolve entries (q ++ [1 - k; j]) = nth_error grandchildren j).
  { intros entries q Hq j. rewrite Removal.resolve_app.
    destruct q as [|i q]; [discriminate|]. rewrite Hq, Hp.
    subst sibling. destruct k as [|[|k]]; [| |lia]; simpl in *; rewrite Hg;
      destruct (nth_error grandchildren j); reflexivity. }
  assert (Hgone : forall entries' q,
             resolve entries' q = Some leaf ->
             forall j below, resolve entries' (q ++ j :: below) = None).
  { intros entries' q Hq j below. rewrite Removal.resolve_app.
    destruct q as [|i q]; [discriminate|]. now rewrite Hq. }
  split; [now apply Removal.removeIn_pair|].
  split.
  - intros entries i Hi.
    assert (Hq : resolve entries [i] = Some parent) by (simpl; now rewrite Hi).
    split; [exact (Hdeep entries [i] Hq)|].
    split; [now apply (Removal.removeEntry_top entries i parent a b)|].
    apply (Hgone _ [i]). simpl.
    now rewrite (Removal.nth_error_update_nth i _ entries parent Hi).
  - intros entries q Hrest Hq.
    split; [now apply Hdeep|].
    exists (put entries q (flattened parent (sibling_of k a b))).
    split; [now apply Removal.removeEntry_at|].
    assert (Hr : resolve (put entries q (flattened parent (sibling_of k a b))) q
                 = Some leaf)
      by now apply (Removal.resolve_put q entries parent).
    split; [exact Hr|]. now apply Hgone.
Qed.

(** At [nested], whose entry holds a part and a part split in two: the
    first part removed, the entry is a leaf and the two inner parts are gone. *)
Lemma removeEntry_discards_grandchildren_witness :
  removeEntry nested [0; 0] = ([mkEntry "Work" TNull TNull Absent None], true)
  /\ (forall j,
        resolve nested [0; 1 - 0; j]
        = nth_error [mkEntry "Part 1" (TStr "2024-01-01T11:00:00.000Z")
                             (TStr "2024-01-01T12:00:00.000Z") Absent None;
                     mkEntry "Part 2" (TStr "2024-01-01T13:00:00.000Z")
                             (TStr "2024-01-01T14:00:00.000Z") Absent None] j)
  /\ (forall j below,
        resolve [mkEntry "Work" TNull TNull Absent None] (0 :: j :: below) = None).
Proof.
  split; [reflexivity|].
  pose proof (proj1 (proj2
    (removeEntry_discards_grandchildren
       (mkEntry "Work" TNull TNull
          (Present [mkEntry "Part 1" (TStr "2024-01-01T09:00:00.000Z")
                            (TStr "2024-01-01T10:00:00.000Z") Absent None;
                    mkEntry "Part 2" TNull TNull
                      (Present [mkEntry "Part 1" (TStr "2024-01-01T11:00:00.000Z")
                                        (TStr "2024-01-01T12:00:00.000Z") Absent None;
                                mkEntry "Part 2" (TStr "2024-01-01T13:00:00.000Z")
                                        (TStr "2024-01-01T14:00:00.000Z") Absent None])
                      None])
          None)
       (mkEntry "Part 1" (TStr "2024-01-01T09:00:00.000Z")
                (TStr "2024-01-01T10:00:00.000Z") Absent None)
       (mkEntry "Part 2" TNull TNull
          (Present [mkEntry "Part 1" (TStr "2024-01-01T11:00:00.000Z")
                            (TStr "2024-01-01T12:00:00.000Z") Absent None;
                    mkEntry "Part 2" (TStr "2024-01-01T13:00:00.000Z")
                            (TStr "2024-01-01T14:00:00.000Z") Absent None])
          None)
       0
       [mkEntry "Part 1" (TStr "2024-01-01T11:00:00.000Z")
                (TStr "2024-01-01T12:00:00.000Z") Absent None;
        mkEntry "Part 2" (TStr "2024-01-01T13:00:00.000Z")
                (TStr "2024-01-01T14:00:00.000Z") Absent None]
       eq_refl (Nat.lt_0_succ 1) eq_refl)) nested 0 eq_refl) as (H1 & _ & H3).
  split; [exact H1 | exact H3].
Defined.

(** ** Locating and rewriting a section *)

Module Sections.
Import Str StrFacts.

Lemma split_nonempty (s : string) : split s <> [].
Proof.
  destruct s as [|c r]; simpl; [discriminate|].
  destruct (Ascii.eqb c nl); [discriminate|].
  destruct (split r); discriminate.
Qed.

Lemma join_cons (x : string) (l : list string) :
  l <> [] -> join (x :: l) = (x ++ String nl (join l))%string.
Proof. destruct l; [congruence | reflexivity]. Qed.

Lemma join_app (a b : list string) :
  a <> [] -> b <> [] -> join (a ++ b) = (join a ++ String nl (join b))%string.
Proof.
  intros Ha Hb. induction a as [|x a IH]; [congruence|].
  destruct a as [|y a].
  - simpl app. now rewrite join_cons.
  - change ((x :: y :: a) ++ b) with (x :: ((y :: a) ++ b)).
    rewrite join_cons by discriminate. rewrite IH by discriminate.
    rewrite (join_cons x (y :: a)) by discriminate.
    now rewrite app_assoc_s.
Qed.

Lemma filter_upto (s : Z) (l : list string) (i : Z) :
  filter_index (fun x => (x <=? s)%Z) i l = firstn (Z.to_nat (s - i + 1)) l.
Proof.
  revert i. induction l as [|x r IH]; intros i; simpl.
  - now rewrite firstn_nil.
  - rewrite IH. destruct (Z.leb_spec i s).
    + replace (Z.to_nat (s - i + 1)) with (S (Z.to_nat (s - (i + 1) + 1))) by lia.
      reflexivity.
    + replace (Z.to_nat (s - (i + 1) + 1)) with 0 by lia.
      replace (Z.to_nat (s - i + 1)) with 0 by lia. reflexivity.
Qed.

Lemma filter_from (e : Z) (l : list string) (i : Z) :
  filter_index (fun x => (x >=? e)%Z) i l = skipn (Z.to_nat (e - i)) l.
Proof.
  revert i. induction l as [|x r IH]; intros i; simpl.
  - now rewrite skipn_nil.
  - rewrite IH. rewrite Z.geb_leb. destruct (Z.leb_spec e i).
    + replace (Z.to_nat (e - (i + 1))) with 0 by lia.
      replace (Z.to_nat (e - i)) with 0 by lia. reflexivity.
    + replace (Z.to_nat (e - i)) with (S (Z.to_nat (e - (i + 1)))) by lia.
      reflexivity.
Qed.

Lemma firstn_nonempty {A} (n : nat) (l : list A) :
  0 < n -> l <> [] -> firstn n l <> [].
Proof.
  intros Hn Hl. destruct n; [lia|]. destruct l; [congruence|]. discriminate.
Qed.

Lemma skipn_nonempty {A} (n : nat) (l : list A) :
  n < length l -> skipn n l <> [].
Proof.
  intros H E. apply (f_equal (@length A)) in E. rewrite length_skipn in E.
  simpl in E. lia.
Qed.

(** The text [saveTracker] writes, as lines: the lines up to and with
    [lineStart], the serialization, the lines from [lineEnd] on. *)
Lemma splice_lines (content : string) (section : SectionInfo) (tracker : Tracker) :
  (0 <= lineStart section)%Z ->
  (lineEnd section < Z.of_nat (length (split content)))%Z ->
  splice content section tracker
  = join (firstn (Z.to_nat (lineStart section + 1)) (split content)
          ++ [Codec.stringify tracker]
          ++ skipn (Z.to_nat (lineEnd section)) (split content)).
Proof.
  intros Hs He. unfold splice. rewrite filter_upto, filter_from.
  rewrite !Z.sub_0_r.
  assert (H1 : firstn (Z.to_nat (lineStart section + 1)) (split content) <> []).
  { apply firstn_nonempty; [lia | apply split_nonempty]. }
  assert (H2 : skipn (Z.to_nat (lineEnd section)) (split content) <> []).
  { apply skipn_nonempty.
    pose proof (split_nonempty content) as Hne.
    destruct (split content); [congruence | simpl in *; lia]. }
  rewrite join_app by (try assumption; discriminate).
  change ([Codec.stringify tracker] ++ ?l) with (Codec.stringify tracker :: l).
  now rewrite join_cons.
Qed.

Section Locator.
Variable unixISO : TimeValue -> option string.

Lemma loadTracker_total (json : string) (w : World) :
  exists tracker w',
    loadTracker unixISO json w = (Normal tracker, w') /\ vault w' = vault w.
Proof.
  unfold loadTracker. destruct (truthy json).
  - unfold try_catch, bind, JSON_parse.
    destruct (JSON.parse json) as [v|]; [|eexists; eexists; split; reflexivity].
    unfold ret, as_Tracker.
    destruct (Codec.json_to_tracker v); eexists; eexists; split; reflexivity.
  - eexists; eexists; split; reflexivity.
Qed.

(** Every section the loop reports lies between an opening fence and a
    closing fence of the lines it has read. *)
Lemma locate_sections (content : list string) :
  forall i curr w res w',
    locate unixISO content i curr w = (Normal res, w') ->
    (0 <= i)%Z ->
    (forall start text, curr = Some (start, text) -> (1 <= start <= i)%Z) ->
    vault w' = vault w
    /\ forall section tracker, In (section, tracker) res ->
         (1 <= lineStart section)%Z
         /\ (lineStart section <= lineEnd section + 1)%Z
         /\ (lineEnd section + 1 < i + Z.of_nat (length content))%Z.
Proof.
  induction content as [|line rest IH]; intros i curr w res w' Hrun Hi Hcurr.
  - simpl in Hrun. injection Hrun as <- <-. split; [reflexivity|]. intros ? ? [].
  - cbn [locate] in Hrun.
    assert (Hlen : (i + Z.of_nat (length (line :: rest))
                    = (i + 1) + Z.of_nat (length rest))%Z) by (simpl length; lia).
    rewrite Hlen.
    destruct (trimEnd line =? fence)%string.
    { apply IH in Hrun; [exact Hrun | lia|].
      intros start text E. injection E as <- <-. lia. }
    destruct curr as [[start text]|].
    + specialize (Hcurr start text eq_refl).
      destruct (trimEnd line =? fence_end)%string.
      * unfold bind in Hrun.
        destruct (loadTracker_total text w) as (t & w1 & Et & Hv1). rewrite Et in Hrun.
        destruct (locate unixISO rest (i + 1) None w1) as [[more|err] w2] eqn:El;
          [|discriminate].
        unfold ret in Hrun. injection Hrun as <- <-.
        apply IH in El; [|lia | discriminate]. destruct El as [Hv2 Hmore].
        split; [congruence|].
        intros section tracker [E|Hin].
        -- injection E as <- <-. simpl. lia.
        -- apply Hmore in Hin. lia.
      * apply IH in Hrun; [exact Hrun | lia|].
        intros start' text' E. injection E as <- <-. lia.
    + apply IH in Hrun; [exact Hrun | lia | discriminate].
Qed.

End Locator.

Lemma assoc_update (k v : string) (m : list (string * string)) (old : string) :
  assoc k m = Some old -> assoc k (update k v m) = Some v.
Proof.
  induction m as [|[k' v'] m IH]; simpl; [discriminate|].
  destruct (k' =? k)%string eqn:E; simpl; rewrite E; [reflexivity | exact IH].
Qed.

End Sections.

(** C1, as stated, fails: with the section the locator reports for a block
    (first and last payload line), [saveTracker] keeps the lines up to and
    with the first payload line and from the last payload line on, so the
    old payload stays around the new one. *)
Lemma splice_located_section_counterexample :
  let content :=
    Str.join ["```time-tracker-plus"; Codec.stringify sample_tracker; "```"] in
  let w := mkWorld [("note.md", content)] [] 0 in
  let L := Str.split content in
  loadAllTrackers Calendar.unixISO "note.md" w
  = (Normal [(mkSection 1 1, sample_tracker)], w)
  /\ splice content (mkSection 1 1) emptyTracker
     = Str.join ["```time-tracker-plus"; Codec.stringify sample_tracker;
                 Codec.stringify emptyTracker;
                 Codec.stringify sample_tracker; "```"]
  /\ splice content (mkSection 1 1) emptyTracker
     <> Str.join (firstn 1 L ++ [Codec.stringify emptyTracker] ++ skipn (1 + 1) L).
Proof.
  split; [vm_compute; reflexivity|].
  split; [vm_compute; reflexivity|].
  vm_compute. discriminate.
Qed.

(** C1 (amended): for a section [{s,e}] the locator reports, [saveTracker]
    given the lines of the block's fences, [{s-1,e+1}] (the range the host
    reports for the block), writes exactly the lines before [s], the
    serialization of the new tracker and the lines after [e]; given [{s,e}]
    itself it writes the lines up to and with [s], the serialization and the
    lines from [e] on. *)
Theorem splice_located_section
  (unixISO : TimeValue -> option string) (fileName content : string)
  (w w' : World) (res : list (SectionInfo * Tracker))
  (section : SectionInfo) (tracker t2 : Tracker) :
  assoc fileName (vault w) = Some content ->
  loadAllTrackers unixISO fileName w = (Normal res, w') ->
  In (section, tracker) res ->
  let L := Str.split content in
  let s := Z.to_nat (lineStart section) in
  let e := Z.to_nat (lineEnd section) in
  let fences := mkSection (lineStart section - 1) (lineEnd section + 1) in
  splice content fences t2
  = Str.join (firstn s L ++ [Codec.stringify t2] ++ skipn (e + 1) L)
  /\ (exists w'',
        saveTracker t2 fileName fences w' = (Normal tt, w'')
        /\ assoc fileName (vault w'')
           = Some (Str.join (firstn s L ++ [Codec.stringify t2] ++ skipn (e + 1) L)))
  /\ splice content section t2
     = Str.join (firstn (s + 1) L ++ [Codec.stringify t2] ++ skipn e L).
Proof.
  intros Hfile Hload Hin L s e fences.
  unfold loadAllTrackers, bind, read_file in Hload. rewrite Hfile in Hload.
  apply Sections.locate_sections in Hload; [|lia | discriminate].
  destruct Hload as [Hvault Hsec]. apply Hsec in Hin. fold L in Hin.
  destruct Hin as (H1 & H2 & H3).
  assert (Hf : splice content fences t2
               = Str.join (firstn s L ++ [Codec.stringify t2] ++ skipn (e + 1) L)).
  { rewrite Sections.splice_lines; fold L; unfold fences; cbn [lineStart lineEnd]; try lia.
    subst s e. repeat f_equal; lia. }
  split; [exact Hf|]. split.
  - unfold saveTracker, bind, read_file. rewrite Hvault, Hfile.
    eexists. split; [reflexivity|]. cbn [vault modify fst snd]. rewrite Hvault.
    rewrite (Sections.assoc_update _ _ _ _ Hfile). now rewrite Hf.
  - rewrite Sections.splice_lines; fold L; try lia.
    subst s e. repeat f_equal; lia.
Qed.

(** At a note of five lines whose block the locator reports as [{2,2}]:
    written with the fence lines [{1,3}], only the payload line changes. *)
Lemma splice_located_section_witness :
  let content :=
    Str.join ["intro"; "```time-tracker-plus"; Codec.stringify sample_tracker; "```"; "tail"] in
  splice content (mkSection 1 3) emptyTracker
  = Str.join ["intro"; "```time-tracker-plus"; Codec.stringify emptyTracker; "```"; "tail"].
Proof.
  intros content.
  pose (w := mkWorld [("note.md", content)] [] 0).
  assert (Hload : loadAllTrackers Calendar.unixISO "note.md" w
                  = (Normal [(mkSection 2 2, sample_tracker)], w))
    by (vm_compute; reflexivity).
  destruct (splice_located_section Calendar.unixISO "note.md" content w w
              [(mkSection 2 2, sample_tracker)] (mkSection 2 2) sample_tracker
              emptyTracker eq_refl Hload (or_introl eq_refl)) as (H & _ & _).
  exact H.
Defined.

(** ** The auto-stop scanner and the start discipline *)

Module Scanner.

Section WithClock.
Variable clock : nat -> string.

(** A block whose payload does not parse is skipped: the text and the flag
    stay, a debug line is logged, nothing is thrown. *)
Lemma scan_block_malformed (st : string * bool) (m : string * string) (w : World) :
  JSON.parse (snd m) = None ->
  scan_block clock st m w
  = (Normal st,
     mkWorld (vault w) (console w ++ [(LogDebug, "Skipping invalid tracker block")])
             (ticks w)).
Proof.
  intros H. unfold scan_block, try_catch, bind, JSON_parse. now rewrite H.
Qed.

Lemma scan_block_total (st : string * bool) (m : string * string) (w : World) :
  exists st' w', scan_block clock st m w = (Normal st', w').
Proof.
  unfold scan_block, try_catch, bind, JSON_parse.
  destruct (JSON.parse (snd m)) as [v|]; [|eexists; eexists; reflexivity].
  unfold ret, as_Tracker.
  destruct (Codec.json_to_tracker v) as [t|]; [|eexists; eexists; reflexivity].
  unfold ret. destruct (isRunning t); [|eexists; eexists; reflexivity].
  destruct (getRunningEntry (entries t)); eexists; eexists; reflexivity.
Qed.

(** A turn of the loop leaves the vault alone and raises the flag exactly
    for a block that parses to a running tracker. *)
Lemma scan_block_flag (st : string * bool) (m : string * string) (w : World) :
  exists text w',
    scan_block clock st m w = (Normal (text, snd st || block_running m), w')
    /\ vault w' = vault w
    /\ (block_running m = false -> text = fst st).
Proof.
  unfold scan_block, block_running, try_catch, bind, JSON_parse.
  destruct (JSON.parse (snd m)) as [v|]; unfold ret, throw, as_Tracker.
  - destruct (Codec.json_to_tracker v) as [t|]; unfold ret, throw.
    + destruct (isRunning t) eqn:Hr.
      * unfold isRunning in Hr.
        destruct (getRunningEntry (entries t)); [|discriminate].
        eexists; eexists. rewrite orb_true_r.
        split; [reflexivity|]. split; [reflexivity | discriminate].
      * exists (fst st). eexists. rewrite orb_false_r.
        split; [now destruct st|]. split; reflexivity.
    + exists (fst st). eexists. rewrite orb_false_r.
      split; [now destruct st|]. split; reflexivity.
  - exists (fst st). eexists. rewrite orb_false_r.
    split; [now destruct st|]. split; reflexivity.
Qed.

Lemma scan_blocks_flag (ms : list (string * string)) :
  forall (st : string * bool) (w : World),
  exists text w',
    foldM (scan_block clock) st ms w
    = (Normal (text, snd st || existsb block_running ms), w')
    /\ vault w' = vault w
    /\ (existsb block_running ms = false -> text = fst st).
Proof.
  induction ms as [|m ms IH]; intros st w.
  - exists (fst st), w. simpl. rewrite orb_false_r.
    split; [now destruct st|]. split; reflexivity.
  - destruct (scan_block_flag st m w) as (t1 & w1 & E1 & V1 & F1).
    destruct (IH (t1, snd st || block_running m) w1) as (t2 & w2 & E2 & V2 & F2).
    exists t2, w2. cbn [foldM]. unfold bind at 1. rewrite E1, E2.
    cbn [snd existsb]. rewrite orb_assoc.
    split; [reflexivity|]. split; [congruence|].
    intros H. apply orb_false_iff in H as [Hm Hms].
    rewrite (F2 Hms). cbn [fst]. now apply F1.
Qed.

(** The scan of one document: it completes normally, answers whether some
    block held a running tracker, and writes the file once in that case and
    not at all otherwise. *)
Lemma stopAllRunnersInFile_flag (fileContent fileName : string) (w : World) :
  exists text w1,
    vault w1 = vault w
    /\ stopAllRunnersInFile clock fileContent fileName w
       = (Normal (existsb block_running (exec_all fileContent)),
          if existsb block_running (exec_all fileContent)
          then mkWorld (update fileName text (vault w)) (console w1) (ticks w1)
          else w1).
Proof.
  destruct (scan_blocks_flag (exec_all fileContent) (fileContent, false) w)
    as (text & w1 & E & V & _).
  exists text, w1. split; [exact V|].
  unfold stopAllRunnersInFile. unfold bind at 1. rewrite E. cbn [snd fst orb].
  destruct (existsb block_running (exec_all fileContent)).
  - unfold bind, read_file. rewrite V.
    destruct (assoc fileName (vault w)) as [old|] eqn:Ea.
    + unfold modify, ret. now rewrite V.
    + unfold ret. f_equal. destruct w1 as [v c k]. cbn in *. subst v.
      f_equal. clear -Ea. induction (vault w) as [|[k' v'] r IH]; [reflexivity|].
      simpl in *. destruct (k' =? fileName)%string; [discriminate|].
      now rewrite <- IH.
  - reflexivity.
Qed.



End WithClock.

Lemma runningLeaves_startSubEntry (now : string) (entry : Entry) (nm : string) :
  runningLeaves (startSubEntry now entry nm) = runningLeaves entry + 1.
Proof.
  destruct entry as [n s e [| |l] c]; unfold startSubEntry; simpl.
  - destruct (truthy_time e); reflexivity.
  - destruct (truthy_time e); reflexivity.
  - rewrite map_app, list_sum_app. reflexivity.
Qed.

Lemma count_running_update_nth (i : nat) (f : Entry -> Entry) (l : list Entry) (x : Entry) :
  nth_error l i = Some x ->
  count_running (update_nth i f l) + runningLeaves x
  = count_running l + runningLeaves (f x).
Proof.
  revert l. induction i as [|i IH]; intros [|y l] H; try discriminate.
  - injection H as ->. unfold update_nth, count_running. simpl. lia.
  - rewrite Removal.update_nth_cons. unfold count_running in *. simpl.
    specialize (IH l H). lia.
Qed.


End Scanner.

(** The spec's example: a document with one block that holds a running
    tracker is modified by the scan, the running leaf gets an end time, and a
    second scan modifies nothing. *)
Example scan_twice :
  let stopped_note :=
    Str.join ["# Monday"; "```time-tracker-plus";
              Codec.stringify
                (mkTracker [mkEntry "Work" (TStr "2024-01-01T09:00:00.000Z")
                                    (TStr "2024-01-01T12:00:00.000Z") Absent None] None);
              "```"] in
  let w := mkWorld [("monday.md", running_note)] [] 0 in
  let w' := mkWorld [("monday.md", stopped_note)] [] 1 in
  stopAllRunnersInFile Calendar.clock running_note "monday.md" w = (Normal true, w')
  /\ stopAllRunnersInFile Calendar.clock stopped_note "monday.md" w' = (Normal false, w').
Proof. split; vm_compute; reflexivity. Qed.

(** C10, at a document with a malformed block and a valid running one whose
    entry name holds two dollar signs: the malformed block is skipped and the
    file is written once, but what is written in the running block's place
    is not the serialization of the stopped tracker: the name has lost a
    dollar sign. *)
Theorem stopAllRunnersInFile_dollar_name :
  let w := mkWorld [("note.md", mixed_document)] [] 0 in
  let stopped :=
    mkTracker (stopRunning (Calendar.clock 0) (entries priced)) (targetTime priced) in
  let written :=
    Str.join ["```time-tracker-plus"; "{oops"; "```"; EmptyString;
              "```time-tracker-plus";
              Codec.stringify
                (mkTracker [mkEntry "Pay $ bills" (TStr "2024-01-01T09:00:00.000Z")
                                    (TStr (Calendar.clock 0)) Absent None] None);
              "```"] in
  stopAllRunnersInFile Calendar.clock mixed_document "note.md" w
  = (Normal true,
     mkWorld [("note.md", written)]
             [(LogDebug, "Skipping invalid tracker block")] 1)
  /\ written
     <> Str.join ["```time-tracker-plus"; "{oops"; "```"; EmptyString;
                  "```time-tracker-plus"; Codec.stringify stopped; "```"].
Proof.
  split; [vm_compute; reflexivity|].
  vm_compute. discriminate.
Qed.


(** * Further properties of the program *)

(** ** Removal, search and stop *)

Module TreeFacts.

Lemma resolve_cons (x : Entry) (l : list Entry) (i : nat) (q : EntryRef) :
  resolve (x :: l) (S i :: q) = resolve l (i :: q).
Proof. reflexivity. Qed.

Lemma put_cons (x : Entry) (l : list Entry) (i : nat) (q : EntryRef) (new : Entry) :
  put (x :: l) (S i :: q) new = x :: put l (i :: q) new.
Proof.
  destruct q as [|j q].
  - cbn [put]. apply Removal.update_nth_cons.
  - rewrite !Removal.put_below. apply Removal.update_nth_cons.
Qed.

Lemma removeEntry_single (entries : list Entry) (i : nat) :
  removeEntry entries [i] =
  if i <? length entries then (firstn i entries ++ skipn (S i) entries, true)
  else (entries, false).
Proof.
  unfold removeEntry, removeEntry_with. cbn [contains remove].
  destruct (i <? length entries); [reflexivity|].
  now apply Removal.loop_nowhere.
Qed.

Lemma In_firstn_aux {A} (n : nat) (l : list A) (x : A) : In x (firstn n l) -> In x l.
Proof.
  revert l. induction n as [|n IH]; intros [|y l] H; simpl in *; try contradiction.
  destruct H as [H|H]; [now left | right; now apply IH].
Qed.

Lemma In_skipn_aux {A} (n : nat) (l : list A) (x : A) : In x (skipn n l) -> In x l.
Proof.
  revert l. induction n as [|n IH]; intros [|y l] H; simpl in *; try contradiction;
    try assumption.
  right. now apply IH.
Qed.

Lemma count_remove (l : list Entry) (k : nat) (t : Entry) :
  nth_error l k = Some t ->
  count_running (firstn k l ++ skipn (S k) l) + runningLeaves t = count_running l.
Proof.
  revert l. induction k as [|k IH]; intros [|x l] H; try discriminate.
  - injection H as ->. unfold count_running. simpl. lia.
  - specialize (IH l H).
    change (firstn (S k) (x :: l)) with (x :: firstn k l).
    change (skipn (S (S k)) (x :: l)) with (skipn (S k) l).
    change ((x :: firstn k l) ++ skipn (S k) l)
      with ([x] ++ (firstn k l ++ skipn (S k) l)).
    change (x :: l) with ([x] ++ l).
    rewrite !Running.count_running_app in *. lia.
Qed.

Lemma stop_first_found (now : string) (l : list Entry) :
  Forall (stops_found now) l ->
  match first_some runningIn l with
  | None => stop_first (stopIn now) l = None
  | Some r =>
      truthy_sub (subEntries r) = false
      /\ truthy_time (endTime r) = false
      /\ exists p,
           resolve l p = Some r
           /\ stop_first (stopIn now) l = Some (put l p (set_endTime (TStr now) r))
  end.
Proof.
  induction 1 as [|x l Hx _ IH]; [reflexivity|].
  cbn [first_some stop_first]. unfold stops_found in Hx.
  destruct (runningIn x) as [r|].
  - destruct Hx as (Hl & Hr & [[-> Hs]|(subs & p & Hsub & Hp & Hs)]);
      split; [exact Hl | split; [exact Hr|] | exact Hl | split; [exact Hr|]].
    + exists [0]. rewrite Hs. split; reflexivity.
    + destruct p as [|j p]; [discriminate|].
      exists (0 :: j :: p). rewrite Hs, Removal.resolve_below, Removal.put_below.
      cbn [nth_error]. rewrite Hsub. split; [exact Hp|].
      unfold update_nth. cbn [nth_error firstn skipn app]. now rewrite Hsub.
  - rewrite Hx. destruct (first_some runningIn l) as [r|].
    + destruct IH as (Hl & Hr & p & Hp & Hs). split; [exact Hl|]. split; [exact Hr|].
      destruct p as [|j p]; [discriminate|].
      exists (S j :: p). rewrite Hs, resolve_cons, put_cons. split; [exact Hp | reflexivity].
    + now rewrite IH.
Qed.

Lemma stopIn_found (now : string) (entry : Entry) : stops_found now entry.
Proof.
  induction entry as [n s e c|n s e c|n s e l c IH] using Entry_tree_ind;
    unfold stops_found; cbn [runningIn stopIn subEntries endTime].
  - destruct (truthy_time e) eqn:He; cbn [negb]; [reflexivity|].
    split; [reflexivity|]. split; [exact He|]. left. split; reflexivity.
  - destruct (truthy_time e) eqn:He; cbn [negb]; [reflexivity|].
    split; [reflexivity|]. split; [exact He|]. left. split; reflexivity.
  - pose proof (stop_first_found now l IH) as H.
    destruct (first_some runningIn l) as [r|].
    + destruct H as (Hl & Hr & p & Hp & Hs). split; [exact Hl|]. split; [exact Hr|].
      right. exists l, p. rewrite Hs. repeat split. exact Hp.
    + now rewrite H.
Qed.

Lemma hasRunningEntry_count (entry : Entry) :
  hasRunningEntry entry = (0 <? runningLeaves entry).
Proof.
  destruct entry as [n s e [| |l] c]; cbn [hasRunningEntry runningLeaves subEntries endTime];
    try (destruct (truthy_time e); reflexivity).
  pose proof (Running.isRunning_count (mkTracker l None)) as H.
  unfold isRunning in H. cbn [entries] in H. exact H.
Qed.

Lemma endRunning_count (now : string) (entry : Entry) :
  Str.truthy now = true ->
  runningLeaves (endRunningEntryInSegment now entry) = runningLeaves entry - 1.
Proof.
  intros Hnow.
  destruct entry as [n s e [| |l] c];
    cbn [endRunningEntryInSegment runningLeaves subEntries endTime];
    try (destruct (truthy_time e) eqn:He; cbn [negb runningLeaves subEntries endTime set_endTime];
         [now rewrite He | cbn [truthy_time]; now rewrite Hnow]).
  apply (Running.stopRunning_count now l Hnow).
Qed.

Lemma endRunning_idle (now : string) (entry : Entry) :
  hasRunningEntry entry = false -> endRunningEntryInSegment now entry = entry.
Proof.
  destruct entry as [n s e [| |l] c];
    cbn [endRunningEntryInSegment hasRunningEntry subEntries endTime]; intros H;
    try (now rewrite H).
  assert (Hs : stopRunning now l = l).
  { pose proof (stop_first_found now l) as Hf. unfold getRunningEntry in H.
    destruct (first_some runningIn l); [discriminate|].
    unfold stopRunning. rewrite Hf; [reflexivity|].
    apply Forall_forall. intros x _. apply stopIn_found. }
  now rewrite Hs.
Qed.

(** What is left of a parent when a sub-entry goes. *)
Lemma removeEntry_sub (entries : list Entry) (i k : nat) n s et subs c :
  nth_error entries i = Some (mkEntry n s et (Present subs) c) ->
  k < length subs ->
  removeEntry entries [i; k]
  = (update_nth i
       (fun _ => match firstn k subs ++ skipn (S k) subs with
                 | [single] => mkEntry n (startTime single) (endTime single) Absent c
                 | _ => mkEntry n s et (Present (firstn k subs ++ skipn (S k) subs)) c
                 end) entries, true).
Proof.
  intros Hi Hk. rewrite Removal.removeEntry_below, Hi.
  rewrite Removal.removeIn_node, removeEntry_single.
  apply Nat.ltb_lt in Hk. rewrite Hk. reflexivity.
Qed.

Lemma remove_leaves (subs : list Entry) (k : nat) :
  forallb is_leaf subs = true ->
  forallb is_leaf (firstn k subs ++ skipn (S k) subs) = true.
Proof.
  intros Hleaves. rewrite forallb_forall in Hleaves. apply forallb_forall. intros x Hx.
  apply Hleaves. apply in_app_or in Hx as [Hx|Hx];
    [eapply In_firstn_aux | eapply In_skipn_aux]; eassumption.
Qed.

Lemma count_remove_top (entries : list Entry) (i : nat) (e : Entry) :
  nth_error entries i = Some e ->
  count_running (fst (removeEntry entries [i])) + runningLeaves e = count_running entries.
Proof.
  intros Hi. rewrite removeEntry_single.
  assert (Hlt : i < length entries) by (apply nth_error_Some; congruence).
  apply Nat.ltb_lt in Hlt. rewrite Hlt. cbn [fst]. now apply count_remove.
Qed.

Lemma count_remove_sub (entries : list Entry) (i k : nat) (e t : Entry) (subs : list Entry) :
  nth_error entries i = Some e ->
  subEntries e = Present subs ->
  forallb is_leaf subs = true ->
  nth_error subs k = Some t ->
  count_running (fst (removeEntry entries [i; k])) + runningLeaves t
  = count_running entries.
Proof.
  intros Hi Hsub Hleaves Hk.
  destruct e as [n s et sub c]. cbn [subEntries] in Hsub. subst sub.
  assert (Hlt : k < length subs) by (apply nth_error_Some; congruence).
  rewrite (removeEntry_sub entries i k n s et subs c Hi Hlt). cbn [fst].
  pose proof (count_remove subs k t Hk) as Hc.
  pose proof (remove_leaves subs k Hleaves) as Hrest.
  set (rest := firstn k subs ++ skipn (S k) subs) in *.
  pose proof (Scanner.count_running_update_nth i
                (fun _ => match rest with
                          | [single] => mkEntry n (startTime single) (endTime single) Absent c
                          | _ => mkEntry n s et (Present rest) c
                          end) entries _ Hi) as Hu.
  cbv beta in Hu.
  assert (Hnew : runningLeaves
                   (match rest with
                    | [single] => mkEntry n (startTime single) (endTime single) Absent c
                    | _ => mkEntry n s et (Present rest) c
                    end) = count_running rest).
  { destruct rest as [|x [|y z]]; try reflexivity.
    cbn [forallb] in Hrest. apply andb_true_iff in Hrest as [Hx _].
    unfold is_leaf in Hx. apply negb_true_iff in Hx. unfold count_running.
    destruct x as [xn xs xe [| |xl] xc]; try discriminate; simpl; lia. }
  rewrite Hnew in Hu. cbn [runningLeaves subEntries] in Hu.
  fold (count_running subs) in Hu. lia.
Qed.

End TreeFacts.

(** X1: [removeEntry] answers [true] exactly when the object is in the
    tree, and when it answers [false] the array is as it was. *)
Theorem removeEntry_reports_presence (entries : list Entry) (toRemove : EntryRef) :
  snd (removeEntry entries toRemove) = is_some (resolve entries toRemove)
  /\ (snd (removeEntry entries toRemove) = false ->
      fst (removeEntry entries toRemove) = entries).
Proof.
  revert entries. induction toRemove as [|i r IH]; intros entries.
  - unfold removeEntry, removeEntry_with. cbn [contains].
    rewrite Removal.loop_nowhere by reflexivity. split; reflexivity.
  - destruct r as [|b bs].
    + rewrite TreeFacts.removeEntry_single. cbn [resolve].
      destruct (Nat.ltb_spec i (length entries)) as [Hi|Hi].
      * destruct (nth_error entries i) eqn:E; [split; [reflexivity | discriminate]|].
        apply nth_error_None in E. lia.
      * apply nth_error_None in Hi. rewrite Hi. split; reflexivity.
    + rewrite Removal.removeEntry_below, Removal.resolve_below.
      destruct (nth_error entries i) as [e|]; [|split; reflexivity].
      destruct e as [n s t [| |l] c]; try (split; reflexivity).
      rewrite Removal.removeIn_node. cbn [subEntries].
      destruct (IH l) as [Hf Hu].
      destruct (removeEntry l (b :: bs)) as [subs' found]. cbn [fst snd] in *.
      rewrite <- Hf. destruct found; cbn [fst snd]; split; try reflexivity; discriminate.
Qed.

(** X2: removing a top-level entry, or a sub-entry of a top-level entry
    whose sub-entries are all leaves, takes away exactly the running leaves
    of what is removed: an entry that is not running (the remove button is
    disabled otherwise) goes without changing the number of running leaves. *)
Theorem removeEntry_running_leaves (entries : list Entry) (i : nat) (e : Entry) :
  nth_error entries i = Some e ->
  count_running (fst (removeEntry entries [i])) + runningLeaves e
  = count_running entries
  /\ (forall subs k t,
        subEntries e = Present subs ->
        forallb is_leaf subs = true ->
        nth_error subs k = Some t ->
        count_running (fst (removeEntry entries [i; k])) + runningLeaves t
        = count_running entries).
Proof.
  intros Hi. split; [now apply TreeFacts.count_remove_top|].
  intros subs k t Hsub Hleaves Hk.
  now apply (TreeFacts.count_remove_sub entries i k e t subs).
Qed.

(** A tracker whose first entry was split in two and whose second part is
    running. *)
Lemma removeEntry_running_leaves_witness :
  let part1 := mkEntry "Part 1" (TStr "2024-01-01T09:00:00.000Z")
                       (TStr "2024-01-01T10:00:00.000Z") Absent None in
  let part2 := mkEntry "Part 2" (TStr "2024-01-01T11:00:00.000Z") TNull Absent None in
  let work := mkEntry "Work" TNull TNull (Present [part1; part2]) None in
  count_running (fst (removeEntry [work] [0; 0])) + runningLeaves part1
  = count_running [work].
Proof.
  intros part1 part2 work.
  apply (proj2 (removeEntry_running_leaves [work] 0 work eq_refl) [part1; part2] 0 part1);
    reflexivity.
Defined.

(** X3: [stopRunning] ends the very leaf [getRunningEntry] returns, a leaf
    of the tree without end time, and touches nothing else; with no running
    leaf it leaves the array as it is. *)
Theorem stopRunning_ends_found_leaf (now : string) (entries : list Entry) :
  match getRunningEntry entries with
  | None => stopRunning now entries = entries
  | Some running =>
      truthy_sub (subEntries running) = false
      /\ truthy_time (endTime running) = false
      /\ exists p,
           resolve entries p = Some running
           /\ stopRunning now entries
              = put entries p (set_endTime (TStr now) running)
  end.
Proof.
  pose proof (TreeFacts.stop_first_found now entries) as H.
  unfold getRunningEntry, stopRunning.
  destruct (first_some runningIn entries) as [r|].
  - destruct H as (Hl & Hr & p & Hp & Hs);
      [apply Forall_forall; intros x _; apply TreeFacts.stopIn_found|].
    split; [exact Hl|]. split; [exact Hr|]. exists p. now rewrite Hs.
  - rewrite H; [reflexivity|].
    apply Forall_forall; intros x _; apply TreeFacts.stopIn_found.
Qed.

(** X4: the stop button of a row is enabled exactly when the row holds a
    running leaf; its handler ends one running leaf of the row and is
    without effect on a row that has none; in a tracker with one running
    leaf, stopping the row that holds it leaves the tracker not running. *)
Theorem stop_button_ends_one_leaf (now : string) (entry : Entry) :
  Str.truthy now = true ->
  hasRunningEntry entry = (0 <? runningLeaves entry)
  /\ runningLeaves (endRunningEntryInSegment now entry) = runningLeaves entry - 1
  /\ (hasRunningEntry entry = false -> endRunningEntryInSegment now entry = entry)
  /\ (forall entries i target,
        nth_error entries i = Some entry ->
        hasRunningEntry entry = true ->
        count_running entries = 1 ->
        isRunning (mkTracker (update_nth i (endRunningEntryInSegment now) entries) target)
        = false).
Proof.
  intros Hnow. split; [apply TreeFacts.hasRunningEntry_count|].
  split; [now apply TreeFacts.endRunning_count|].
  split; [apply TreeFacts.endRunning_idle|].
  intros entries i target Hi Hrun Hone.
  rewrite Running.isRunning_count. simpl.
  pose proof (Scanner.count_running_update_nth i (endRunningEntryInSegment now)
                entries entry Hi) as Hu.
  rewrite (TreeFacts.endRunning_count now entry Hnow) in Hu.
  rewrite TreeFacts.hasRunningEntry_count in Hrun. apply Nat.ltb_lt in Hrun.
  apply Nat.ltb_ge. lia.
Qed.

Lemma stop_button_ends_one_leaf_witness :
  let part1 := mkEntry "Part 1" (TStr "2024-01-01T09:00:00.000Z")
                       (TStr "2024-01-01T10:00:00.000Z") Absent None in
  let part2 := mkEntry "Part 2" (TStr "2024-01-01T11:00:00.000Z") TNull Absent None in
  let work := mkEntry "Work" TNull TNull (Present [part1; part2]) None in
  endRunningEntryInSegment "2024-01-01T12:00:00.000Z" work
  = mkEntry "Work" TNull TNull
      (Present [part1; mkEntry "Part 2" (TStr "2024-01-01T11:00:00.000Z")
                               (TStr "2024-01-01T12:00:00.000Z") Absent None]) None
  /\ isRunning (mkTracker (update_nth 0 (endRunningEntryInSegment "2024-01-01T12:00:00.000Z")
                                      [work]) None) = false.
Proof.
  intros part1 part2 work. split; [reflexivity|].
  apply (proj2 (proj2 (proj2
           (stop_button_ends_one_leaf "2024-01-01T12:00:00.000Z" work eq_refl)))
           [work] 0 None); reflexivity.
Defined.

(** ** Durations *)

Module DurationFacts.

Lemma add_ms_assoc (a b c : option Z) : add_ms (add_ms a b) c = add_ms a (add_ms b c).
Proof. destruct a, b, c; simpl; try reflexivity. f_equal. lia. Qed.

Lemma add_ms_comm (a b : option Z) : add_ms a b = add_ms b a.
Proof. destruct a, b; simpl; try reflexivity. f_equal. lia. Qed.

Lemma add_ms_zero (a : option Z) : add_ms (Some 0%Z) a = a.
Proof. destruct a; reflexivity. Qed.

Lemma fold_sum (f : Entry -> option Z) (l : list Entry) (acc : option Z) :
  fold_left (fun ret entry => add_ms ret (f entry)) l acc
  = add_ms acc (sum_ms (map f l)).
Proof.
  revert acc. induction l as [|x l IH]; intros acc; simpl.
  - destruct acc; simpl; [f_equal; lia | reflexivity].
  - now rewrite IH, add_ms_assoc.
Qed.

Lemma sum_loop_sum (f : Entry -> option Z) (l : list Entry) :
  sum_loop f l = sum_ms (map f l).
Proof. unfold sum_loop. now rewrite fold_sum, add_ms_zero. Qed.

Lemma sum_ms_app (a b : list (option Z)) :
  sum_ms (a ++ b) = add_ms (sum_ms a) (sum_ms b).
Proof.
  induction a as [|x a IH]; cbn [app sum_ms]; [now rewrite add_ms_zero|].
  now rewrite IH, add_ms_assoc.
Qed.

Lemma sum_ms_rev (l : list (option Z)) : sum_ms (rev l) = sum_ms l.
Proof.
  induction l as [|x l IH]; simpl; [reflexivity|].
  rewrite sum_ms_app, IH. cbn [sum_ms].
  rewrite add_ms_comm. f_equal. destruct x; simpl; [f_equal; lia | reflexivity].
Qed.

Lemma sum_remove (f : Entry -> option Z) (l : list Entry) (k : nat) (t : Entry) :
  nth_error l k = Some t ->
  add_ms (sum_loop f (firstn k l ++ skipn (S k) l)) (f t) = sum_loop f l.
Proof.
  rewrite !sum_loop_sum.
  revert l. induction k as [|k IH]; intros [|x l] H; try discriminate.
  - injection H as ->. cbn [firstn skipn app map sum_ms]. apply add_ms_comm.
  - specialize (IH l H).
    change (firstn (S k) (x :: l)) with (x :: firstn k l).
    change (skipn (S (S k)) (x :: l)) with (skipn (S k) l).
    cbn [app map sum_ms]. now rewrite add_ms_assoc, IH.
Qed.

Lemma sum_update (f : Entry -> option Z) (l : list Entry) (i : nat) (g : Entry -> Entry)
    (x : Entry) (d : option Z) :
  nth_error l i = Some x ->
  add_ms (f (g x)) d = f x ->
  add_ms (sum_loop f (update_nth i g l)) d = sum_loop f l.
Proof.
  rewrite !sum_loop_sum.
  revert l. induction i as [|i IH]; intros [|y l] H Hd; try discriminate.
  - injection H as ->. unfold update_nth. cbn [nth_error firstn skipn app map sum_ms].
    rewrite <- Hd. rewrite !add_ms_assoc. f_equal. apply add_ms_comm.
  - rewrite Removal.update_nth_cons. cbn [map sum_ms]. rewrite add_ms_assoc.
    now rewrite (IH l H Hd).
Qed.

Section Engine.
Variable instant : TimeValue -> option Z.

Lemma leaf_duration (nowMs : Z) (entry : Entry) :
  truthy_sub (subEntries entry) = false ->
  getDuration instant nowMs entry
  = diff (end_moment instant nowMs entry) (instant (startTime entry)).
Proof. destruct entry as [n s e [| |l] c]; try discriminate; reflexivity. Qed.

(** Without a running leaf the clock does not matter. *)
Lemma getDuration_stopped (t0 t1 : Z) (entry : Entry) :
  runningLeaves entry = 0 ->
  getDuration instant t1 entry = getDuration instant t0 entry.
Proof.
  induction entry as [n s e c|n s e c|n s e l c IH] using Entry_tree_ind;
    cbn [runningLeaves getDuration subEntries endTime]; unfold end_moment; cbn [endTime];
    try (destruct (truthy_time e); [reflexivity | discriminate]).
  rewrite !sum_loop_sum. intros H. f_equal. revert H.
  induction IH as [|x r Hx _ IHr]; intros H; [reflexivity|].
  simpl in H. cbn [map]. rewrite Hx by lia. rewrite IHr by lia. reflexivity.
Qed.

Lemma stop_first_duration (t0 t1 : Z) (now : string) (l : list Entry) :
  Forall (fun e =>
            runningLeaves e <= 1 ->
            match stopIn now e with
            | Some e' => getDuration instant t1 e' = getDuration instant t0 e
            | None => True
            end) l ->
  count_running l <= 1 ->
  match stop_first (stopIn now) l with
  | Some l' =>
      sum_ms (map (getDuration instant t1) l') = sum_ms (map (getDuration instant t0) l)
  | None => True
  end.
Proof.
  unfold count_running.
  induction 1 as [|x r Hx _ IH]; intros Hc; [exact I|].
  simpl in Hc. cbn [stop_first].
  pose proof (Running.stopIn_count now x) as Hcount.
  destruct (stopIn now x) as [x'|] eqn:Ex.
  - cbn [map sum_ms]. rewrite Hx by lia. do 2 f_equal.
    apply map_ext_in. intros y Hy. apply getDuration_stopped.
    assert (Hy' : runningLeaves y <= list_sum (map runningLeaves r)).
    { clear -Hy. induction r as [|z r IHr]; [contradiction|].
      simpl. destruct Hy as [->|Hy]; [lia|]. specialize (IHr Hy). lia. }
    destruct (Str.truthy now) eqn:Hn.
    + specialize (Hcount eq_refl). lia.
    + (* an empty end time: the leaf was found, so it counted *)
      assert (Hpos : 0 < runningLeaves x).
      { pose proof (TreeFacts.stopIn_found now x) as Hf. unfold stops_found in Hf.
        pose proof (Running.runningIn_count x) as Hr.
        destruct (runningIn x); [|congruence].
        simpl in Hr. symmetry in Hr. now apply Nat.ltb_lt in Hr. }
      lia.
  - destruct (stop_first (stopIn now) r) as [r'|]; [|exact I].
    cbn [map sum_ms]. rewrite IH by lia. f_equal.
    apply getDuration_stopped.
    pose proof (TreeFacts.stopIn_found now x) as Hf. unfold stops_found in Hf.
    pose proof (Running.runningIn_count x) as Hr.
    destruct (runningIn x) as [rr|].
    + destruct Hf as (_ & _ & [[_ Hs]|(? & ? & _ & _ & Hs)]); congruence.
    + simpl in Hr. symmetry in Hr. apply Nat.ltb_ge in Hr. lia.
Qed.

Lemma stopIn_duration (t0 t1 : Z) (now : string) (entry : Entry) :
  instant (TStr now) = Some t0 ->
  Str.truthy now = true ->
  runningLeaves entry <= 1 ->
  match stopIn now entry with
  | Some e' => getDuration instant t1 e' = getDuration instant t0 entry
  | None => True
  end.
Proof.
  intros Hi Hn.
  induction entry as [n s e c|n s e c|n s e l c IH] using Entry_tree_ind;
    cbn [stopIn subEntries endTime]; intros Hc;
    try (destruct (truthy_time e) eqn:He; cbn [negb]; [exact I|];
         cbn [getDuration subEntries set_endTime startTime]; unfold end_moment;
         cbn [endTime truthy_time]; now rewrite Hn, He, Hi).
  pose proof (stop_first_duration t0 t1 now l IH) as H.
  cbn [runningLeaves subEntries] in Hc. specialize (H Hc).
  destruct (stop_first (stopIn now) l) as [l'|]; [|exact I].
  cbn [getDuration subEntries]. now rewrite !sum_loop_sum.
Qed.

End Engine.

Section Bounds.
Variable instant : TimeValue -> option Z.
Variable nowMs today : Z.

Lemma sum_bounded (l : list Entry) :
  Forall (fun e => within_total (getDuration instant nowMs e)
                                (getDurationToday instant nowMs today e)) l ->
  within_total (sum_ms (map (getDuration instant nowMs) l))
               (sum_ms (map (getDurationToday instant nowMs today) l)).
Proof.
  induction 1 as [|e l (x & y & Hx & Hy & Hxy) _ (x' & y' & Hx' & Hy' & Hxy')].
  - exists 0%Z, 0%Z. repeat split; lia.
  - exists (x + x')%Z, (y + y')%Z. cbn [map sum_ms].
    rewrite Hx, Hy, Hx', Hy'. repeat split; lia.
Qed.

Lemma entry_bounded (entry : Entry) :
  well_timed instant nowMs entry = true ->
  within_total (getDuration instant nowMs entry)
               (getDurationToday instant nowMs today entry).
Proof.
  induction entry as [n s e c|n s e c|n s e l c IH] using Entry_tree_ind;
    cbn [well_timed getDuration getDurationToday subEntries startTime]; intros H.
  3:{ rewrite !sum_loop_sum. apply sum_bounded.
      rewrite Forall_forall in *. intros x Hx. apply IH; [exact Hx|].
      rewrite forallb_forall in H. now apply H. }
  all: destruct (instant s) as [a|]; [|discriminate];
    destruct (end_moment instant nowMs (mkEntry n s e _ c)) as [b|]; [|discriminate];
    apply Z.leb_le in H; cbn [isBefore diff];
    destruct (Z.ltb_spec b today); [exists (b - a)%Z, 0%Z; repeat split; lia|];
    destruct (Z.ltb_spec a today); cbn [diff];
    [exists (b - a)%Z, (b - today)%Z | exists (b - a)%Z, (b - a)%Z]; repeat split; lia.
Qed.

End Bounds.

End DurationFacts.

(** X5 (durations): for a list of entries whose leaves have valid moments
    with the start not after the end (a running leaf ending at the reading of
    the clock), [getTotalDuration] and [getTotalDurationToday] are numbers
    (not NaN), and the time of today lies between zero and the total,
    wherever the day starts. *)
Theorem getTotalDurationToday_within_total
    (instant : TimeValue -> option Z) (nowMs today : Z) (entries : list Entry) :
  forallb (well_timed instant nowMs) entries = true ->
  within_total (getTotalDuration instant nowMs entries)
               (getTotalDurationToday instant nowMs today entries).
Proof.
  intros H. unfold getTotalDuration, getTotalDurationToday.
  rewrite !DurationFacts.sum_loop_sum. apply DurationFacts.sum_bounded.
  rewrite Forall_forall. intros e He. apply DurationFacts.entry_bounded.
  rewrite forallb_forall in H. now apply H.
Qed.

Lemma getTotalDurationToday_within_total_witness :
  within_total
    (getTotalDuration Timeline.instant 1704110400000 (entries sample_tracker))
    (getTotalDurationToday Timeline.instant 1704110400000 1704103200000
                           (entries sample_tracker)).
Proof.
  apply (getTotalDurationToday_within_total Timeline.instant 1704110400000
           1704103200000 (entries sample_tracker)).
  vm_compute. reflexivity.
Defined.

(** X6 (stopping freezes the total): when at most one leaf is running and
    the running entry is stopped at an instant [now] that [moment] reads as
    [t0], the total duration of the stopped entries, computed at any later
    reading [t1] of the clock, is the total the running entries had at
    [t0]. *)
Theorem stopRunning_freezes_duration
    (instant : TimeValue -> option Z) (t0 t1 : Z) (now : string)
    (entries : list Entry) :
  instant (TStr now) = Some t0 ->
  Str.truthy now = true ->
  count_running entries <= 1 ->
  getTotalDuration instant t1 (stopRunning now entries)
  = getTotalDuration instant t0 entries.
Proof.
  intros Hi Hn Hc. unfold getTotalDuration, stopRunning.
  rewrite !DurationFacts.sum_loop_sum.
  pose proof (DurationFacts.stop_first_duration instant t0 t1 now entries) as H.
  assert (HF : Forall (fun e => runningLeaves e <= 1 ->
                        match stopIn now e with
                        | Some e' => getDuration instant t1 e' = getDuration instant t0 e
                        | None => True
                        end) entries).
  { rewrite Forall_forall. intros e _. now apply DurationFacts.stopIn_duration. }
  specialize (H HF Hc).
  pose proof (Running.stop_first_count now entries) as Hcount.
  destruct (stop_first (stopIn now) entries) as [l'|]; [exact H|].
  f_equal. apply map_ext_in. intros e He.
  apply DurationFacts.getDuration_stopped.
  assert (H0 : count_running entries = 0).
  { apply Hcount. rewrite Forall_forall. intros x _. now apply Running.stopIn_count. }
  clear -He H0. unfold count_running in H0.
  induction entries as [|z r IHr]; [contradiction|].
  simpl in H0. destruct He as [->|He]; [lia|]. apply IHr; [exact He | lia].
Qed.

Lemma stopRunning_freezes_duration_witness :
  getTotalDuration Timeline.instant 1704114000000
    (stopRunning "2024-01-01T12:00:00.000Z" (entries sample_tracker))
  = getTotalDuration Timeline.instant 1704110400000 (entries sample_tracker).
Proof.
  apply (stopRunning_freezes_duration Timeline.instant 1704110400000 1704114000000
           "2024-01-01T12:00:00.000Z" (entries sample_tracker)).
  - vm_compute. reflexivity.
  - reflexivity.
  - vm_compute. lia.
Defined.

(** X7 (continuing keeps the recorded time): the entry [startSubEntry]
    builds has the duration of the entry it was built from plus the time the
    new sub-entry has run since [now]; wrapping a leaf into "Part 1" loses
    no time. *)
Theorem startSubEntry_duration
    (instant : TimeValue -> option Z) (t : Z) (now : string) (entry : Entry)
    (nm : string) :
  getDuration instant t (startSubEntry now entry nm)
  = add_ms (getDuration instant t entry) (diff (Some t) (instant (TStr now))).
Proof.
  unfold startSubEntry.
  destruct entry as [n s e [| |l] c];
    cbn [subEntries startTime endTime collapsed name truthy_sub getDuration];
    rewrite !DurationFacts.sum_loop_sum.
  3:{ rewrite map_app, DurationFacts.sum_ms_app. f_equal.
      cbn [map sum_ms newEntry getDuration subEntries]. unfold end_moment.
      cbn [endTime truthy_time startTime].
      destruct (diff (Some t) (instant (TStr now))); simpl; [f_equal; lia | reflexivity]. }
  all: cbn [app map sum_ms newEntry getDuration subEntries]; unfold end_moment;
    cbn [endTime truthy_time startTime];
    destruct (diff _ (instant s)); destruct (diff (Some t) (instant (TStr now)));
    simpl; try reflexivity; f_equal; lia.
Qed.

(** X8 (removal subtracts the removed time): removing a top-level entry
    lowers the total duration by the duration of that entry; removing a
    sub-entry of a top-level entry whose sub-entries are leaves lowers it by
    the duration of that sub-entry, also when the parent is flattened to the
    one sub-entry that is left. *)
Theorem removeEntry_duration
    (instant : TimeValue -> option Z) (t : Z) (entries : list Entry) (i : nat)
    (entry : Entry) :
  nth_error entries i = Some entry ->
  add_ms (getTotalDuration instant t (fst (removeEntry entries [i])))
         (getDuration instant t entry)
  = getTotalDuration instant t entries
  /\ (forall subs k sub,
        subEntries entry = Present subs ->
        two_level entry = true ->
        nth_error subs k = Some sub ->
        add_ms (getTotalDuration instant t (fst (removeEntry entries [i; k])))
               (getDuration instant t sub)
        = getTotalDuration instant t entries).
Proof.
  intros Hi. split.
  - rewrite TreeFacts.removeEntry_single.
    assert (Hlt : i < length entries) by (apply nth_error_Some; congruence).
    apply Nat.ltb_lt in Hlt. rewrite Hlt. cbn [fst].
    unfold getTotalDuration. now apply DurationFacts.sum_remove.
  - intros subs k sub Hs Hl Hk.
    rewrite Removal.removeEntry_below, Hi.
    destruct entry as [n s e se c]. cbn [subEntries] in Hs. subst se.
    rewrite Removal.removeIn_node, TreeFacts.removeEntry_single.
    assert (Hlt : k < length subs) by (apply nth_error_Some; congruence).
    apply Nat.ltb_lt in Hlt. rewrite Hlt. cbn [fst snd].
    unfold getTotalDuration.
    apply (DurationFacts.sum_update _ entries i _ _ _ Hi).
    pose proof (DurationFacts.sum_remove (getDuration instant t) subs k sub Hk) as Hr.
    destruct (firstn k subs ++ skipn (S k) subs) as [|x [|y r]] eqn:El;
      cbn [getDuration subEntries]; try exact Hr.
    rewrite <- Hr. f_equal. rewrite DurationFacts.sum_loop_sum. cbn [map sum_ms].
    assert (Hx : truthy_sub (subEntries x) = false).
    { cbn [two_level subEntries] in Hl. rewrite forallb_forall in Hl.
      assert (In x subs).
      { assert (Hin : In x (firstn k subs ++ skipn (S k) subs)) by (rewrite El; now left).
        apply in_app_or in Hin. destruct Hin as [Hin|Hin].
        - eapply TreeFacts.In_firstn_aux; exact Hin.
        - eapply TreeFacts.In_skipn_aux; exact Hin. }
      specialize (Hl x H). unfold is_leaf in Hl. now apply negb_true_iff in Hl. }
    rewrite (DurationFacts.leaf_duration instant t x Hx).
    unfold end_moment. cbn [endTime startTime].
    destruct (diff _ _); simpl; [f_equal; lia | reflexivity].
Qed.

(** The running second part of "Work" is removed: "Work" is flattened to
    the first part and the total falls by the hour the second part had
    run. *)
Lemma removeEntry_duration_witness :
  add_ms (getTotalDuration Timeline.instant 1704110400000
            (fst (removeEntry (entries sample_tracker) [0; 1])))
         (Some 3600000%Z)
  = getTotalDuration Timeline.instant 1704110400000 (entries sample_tracker).
Proof.
  exact (proj2 (removeEntry_duration Timeline.instant 1704110400000
                  (entries sample_tracker) 0 _ eq_refl)
               _ 1 _ eq_refl eq_refl eq_refl).
Defined.

(** X9 (display order): [orderedEntries] only changes the order in which
    the rows are shown: reversed or not, the entries have the same total
    duration, the same duration today and the same number of running leaves,
    so the same answer of [isRunning]; and reversing twice gives the list
    back. *)
Theorem orderedEntries_same_totals
    (instant : TimeValue -> option Z) (nowMs today : Z) (reverse : bool)
    (entries : list Entry) (target : option string) :
  getTotalDuration instant nowMs (orderedEntries reverse entries)
  = getTotalDuration instant nowMs entries
  /\ getTotalDurationToday instant nowMs today (orderedEntries reverse entries)
     = getTotalDurationToday instant nowMs today entries
  /\ count_running (orderedEntries reverse entries) = count_running entries
  /\ isRunning (mkTracker (orderedEntries reverse entries) target)
     = isRunning (mkTracker entries target)
  /\ orderedEntries reverse (orderedEntries reverse entries) = entries.
Proof.
  assert (Hc : count_running (rev entries) = count_running entries).
  { induction entries as [|x l IH]; [reflexivity|].
    cbn [rev]. rewrite Running.count_running_app, IH.
    unfold count_running. simpl. lia. }
  destruct reverse; cbn [orderedEntries]; [|repeat split; reflexivity].
  unfold getTotalDuration, getTotalDurationToday.
  rewrite !DurationFacts.sum_loop_sum, !map_rev, !DurationFacts.sum_ms_rev.
  repeat split; try reflexivity; try exact Hc.
  - rewrite !Running.isRunning_count. simpl. now rewrite Hc.
  - apply rev_involutive.
Qed.

(** ** The target time *)

Module TargetFacts.

Lemma digits_uint (d : Decimal.uint) (a : nat) (r : string) :
  Num.starts_digit r = false ->
  JSON.digits_value (Z.of_nat a) (NilEmpty.string_of_uint d ++ r)
  = (Z.of_nat (Nat.of_uint_acc d a), r).
Proof.
  intros Hr. revert a.
  induction d as [|d IH|d IH|d IH|d IH|d IH|d IH|d IH|d IH|d IH|d IH]; intros a;
    cbn [NilEmpty.string_of_uint append JSON.digits_value Nat.of_uint_acc].
  1:{ destruct r as [|c r]; [reflexivity|]. cbn [Num.starts_digit] in Hr.
      cbn [JSON.digits_value]. now rewrite Hr. }
  all: match goal with
       | |- context [Str.is_digit ?c] =>
           change (Str.is_digit c) with true;
           let k := eval vm_compute in (nat_of_ascii c - 48) in
           change (nat_of_ascii c - 48) with k
       end;
    cbv iota; rewrite <- IH; f_equal; rewrite Nat.tail_mul_spec; lia.
Qed.

Lemma cut_uint (d : Decimal.uint) (r : string) :
  Num.starts_digit r = false ->
  take_while Str.is_digit (NilEmpty.string_of_uint d ++ r) = NilEmpty.string_of_uint d
  /\ Str.drop_while Str.is_digit (NilEmpty.string_of_uint d ++ r) = r.
Proof.
  intros Hr.
  induction d as [|d IH|d IH|d IH|d IH|d IH|d IH|d IH|d IH|d IH|d IH];
    cbn [NilEmpty.string_of_uint append take_while Str.drop_while].
  1:{ destruct r as [|c r]; [split; reflexivity|]. cbn [Num.starts_digit] in Hr.
      cbn [take_while Str.drop_while]. rewrite Hr. split; reflexivity. }
  all: match goal with
       | |- context [Str.is_digit ?c] => change (Str.is_digit c) with true
       end;
    cbv iota; destruct IH as [-> ->]; split; reflexivity.
Qed.

Lemma of_nat_truthy (n : nat) : Str.truthy (Str.of_nat n) = true.
Proof.
  unfold Str.of_nat. destruct n as [|n]; [reflexivity|].
  pose proof (Unsigned.of_to (S n)) as H.
  destruct (Nat.to_uint (S n)); try reflexivity. discriminate.
Qed.

Lemma digits_of_nat (n : nat) :
  fst (JSON.digits_value 0 (Str.of_nat n)) = Z.of_nat n.
Proof.
  unfold Str.of_nat.
  pose proof (digits_uint (Nat.to_uint n) 0 EmptyString eq_refl) as H.
  rewrite StrFacts.app_nil_s in H. change (Z.of_nat 0) with 0%Z in H. rewrite H.
  cbn [fst]. f_equal. exact (Unsigned.of_to n).
Qed.

Lemma unit_group_hit (u : ascii) (n : nat) (r : string) :
  Str.is_digit u = false ->
  unit_group u (Str.of_nat n ++ String u r) = (Some (Str.of_nat n), r).
Proof.
  intros Hu. unfold unit_group.
  destruct (cut_uint (Nat.to_uint n) (String u r) Hu) as [Ht Hd].
  fold (Str.of_nat n) in Ht, Hd. rewrite Ht, Hd, of_nat_truthy, Ascii.eqb_refl.
  reflexivity.
Qed.

Lemma unit_group_other (u v : ascii) (n : nat) (r : string) :
  Str.is_digit v = false -> Ascii.eqb v u = false ->
  unit_group u (Str.of_nat n ++ String v r) = (None, (Str.of_nat n ++ String v r)%string).
Proof.
  intros Hv Hu. unfold unit_group.
  destruct (cut_uint (Nat.to_uint n) (String v r) Hv) as [Ht Hd].
  fold (Str.of_nat n) in Ht, Hd. rewrite Ht, Hd, Hu, andb_false_r. reflexivity.
Qed.

Lemma unit_group_none (u : ascii) (r : string) :
  Num.starts_digit r = false -> unit_group u r = (None, r).
Proof.
  intros Hr. unfold unit_group.
  destruct r as [|c r]; [reflexivity|]. cbn [Num.starts_digit] in Hr.
  cbn [take_while Str.drop_while]. rewrite Hr. reflexivity.
Qed.

Lemma parseTargetTime_body (text : string) :
  parseTargetTime (Some text)
  = (let '(g1, s1) := unit_group "y" text in
     let '(g2, s2) := unit_group "M" s1 in
     let '(g3, s3) := unit_group "d" s2 in
     let '(g4, s4) := unit_group "h" s3 in
     let '(g5, s5) := unit_group "m" s4 in
     let '(g6, _) := unit_group "s" s5 in
     ((parseInt_group g1 * 365 * 24 * 60 * 60
       + parseInt_group g2 * 30 * 24 * 60 * 60
       + parseInt_group g3 * 24 * 60 * 60
       + parseInt_group g4 * 60 * 60
       + parseInt_group g5 * 60
       + parseInt_group g6) * 1000)%Z).
Proof. destruct text; reflexivity. Qed.

Lemma parseInt_written (n : nat) : parseInt_group (Some (Str.of_nat n)) = Z.of_nat n.
Proof. apply digits_of_nat. Qed.

End TargetFacts.

(** X10 (target time): a target written as counts with their unit letters
    in the order y, M, d, h, m, s, each group optional, is read as
    ((365 y + 30 M + d) days + h hours + m minutes + s seconds) in
    milliseconds, whatever follows the last group; text that does not start
    with such a group is read as 0.  The text after the groups must not start
    with a digit unless the seconds are written (it could be taken for a
    group otherwise), and the result is below 2^53, where the numbers of the
    source are exact. *)
Theorem parseTargetTime_written
    (y M d h m s : option nat) (rest : string) :
  let text := written y "y" (written M "M" (written d "d" (written h "h"
                (written m "m" (written s "s" rest))))) in
  let total := (((count_of y * 365 + count_of M * 30 + count_of d) * 86400
                 + count_of h * 3600 + count_of m * 60 + count_of s) * 1000)%Z in
  (s = None -> Num.starts_digit rest = false) ->
  (total <= 2 ^ 53)%Z ->
  parseTargetTime (Some text) = total.
Proof.
  intros text total Hrest _. subst text total.
  rewrite TargetFacts.parseTargetTime_body.
  destruct y, M, d, h, m, s; cbn [written count_of];
    try (specialize (Hrest eq_refl));
    repeat (first [ rewrite TargetFacts.unit_group_hit by reflexivity
                  | rewrite TargetFacts.unit_group_other by reflexivity
                  | rewrite TargetFacts.unit_group_none by exact Hrest ];
            cbv beta iota);
    rewrite ?TargetFacts.parseInt_written; cbn [parseInt_group]; lia.
Qed.

Lemma parseTargetTime_written_witness :
  parseTargetTime (Some "2h30m") = 9000000%Z.
Proof.
  apply (parseTargetTime_written None None None (Some 2) (Some 30) None EmptyString).
  - reflexivity.
  - vm_compute. discriminate.
Defined.

(** ** The document protocol: lines, fences and the saved block *)

Module Protocol.
Import Str.

Lemma split_no_nl (s : string) : Forall (fun l => no_nl l = true) (split s).
Proof.
  induction s as [|c s IH]; cbn [split]; [repeat constructor|].
  destruct (Ascii.eqb c nl) eqn:Ec; [constructor; [reflexivity | exact IH]|].
  destruct (split s) as [|h t]; [repeat constructor; unfold no_nl; simpl; now rewrite Ec|].
  inversion IH as [|? ? Hh Ht]; subst. constructor; [|exact Ht].
  unfold no_nl in *. cbn [all_chars]. now rewrite Ec, Hh.
Qed.

Lemma split_app_nl (a b : string) :
  no_nl a = true -> split (a ++ String nl b) = a :: split b.
Proof.
  unfold no_nl. induction a as [|c a IH]; cbn [append split all_chars]; intros H.
  - now rewrite Ascii.eqb_refl.
  - apply andb_true_iff in H as [Hc Ha]. apply negb_true_iff in Hc.
    rewrite Hc, (IH Ha). reflexivity.
Qed.

Lemma split_line (a : string) : no_nl a = true -> split a = [a].
Proof.
  unfold no_nl. induction a as [|c a IH]; cbn [split all_chars]; intros H; [reflexivity|].
  apply andb_true_iff in H as [Hc Ha]. apply negb_true_iff in Hc.
  rewrite Hc, (IH Ha). reflexivity.
Qed.

Lemma split_join (l : list string) :
  l <> [] -> Forall (fun x => no_nl x = true) l -> split (join l) = l.
Proof.
  induction l as [|x l IH]; intros Hne H; [congruence|].
  inversion H as [|? ? Hx Hl]; subst.
  destruct l as [|y l]; [now apply split_line|].
  rewrite Sections.join_cons by discriminate.
  rewrite (split_app_nl _ _ Hx), IH; [reflexivity | discriminate | exact Hl].
Qed.

Lemma trimEnd_last (a : string) (c : ascii) :
  is_ws c = false ->
  trimEnd (a ++ String c EmptyString) = (a ++ String c EmptyString)%string.
Proof.
  intros Hc. induction a as [|x a IH]; cbn [append trimEnd]; [now rewrite Hc|].
  rewrite IH. destruct a; reflexivity.
Qed.

(** *** The printer writes one line *)

Lemma no_nl_app (a b : string) : no_nl (a ++ b) = no_nl a && no_nl b.
Proof. apply StrFacts.all_chars_app. Qed.

Lemma escape_char_no_nl (c : ascii) : no_nl (JSON.escape_char c) = true.
Proof. destruct c as [[] [] [] [] [] [] [] []]; reflexivity. Qed.

Lemma escape_no_nl (s : string) : no_nl (JSON.escape s) = true.
Proof.
  induction s as [|c s IH]; [reflexivity|].
  cbn [JSON.escape]. now rewrite no_nl_app, escape_char_no_nl, IH.
Qed.

Lemma quote_no_nl (s : string) : no_nl (JSON.quote s) = true.
Proof.
  unfold JSON.quote. change (String JSON.dq ?x) with (String JSON.dq EmptyString ++ x)%string.
  now rewrite !no_nl_app, escape_no_nl.
Qed.

Lemma uint_no_nl (d : Decimal.uint) : no_nl (NilEmpty.string_of_uint d) = true.
Proof. induction d; cbn [NilEmpty.string_of_uint]; try reflexivity; exact IHd. Qed.

Lemma print_Z_no_nl (n : Z) : no_nl (JSON.print_Z n) = true.
Proof.
  unfold JSON.print_Z. destruct (Z.to_int n) as [d|d]; cbn [NilEmpty.string_of_int].
  - apply uint_no_nl.
  - exact (uint_no_nl d).
Qed.

Lemma commas_no_nl (l : list string) :
  Forall (fun x => no_nl x = true) l -> no_nl (JSON.commas l) = true.
Proof.
  induction 1 as [|x l Hx Hl IH]; [reflexivity|].
  cbn [JSON.commas]. destruct l as [|y l]; [exact Hx|].
  change (String "," ?t) with (String "," EmptyString ++ t)%string.
  now rewrite !no_nl_app, Hx, IH.
Qed.

Lemma print_no_nl (v : JSON.json) : no_nl (JSON.print v) = true.
Proof.
  induction v as [|b|n|s|l IH|m IH] using JSON.json_tree_ind; cbn [JSON.print].
  - reflexivity.
  - destruct b; reflexivity.
  - apply print_Z_no_nl.
  - apply quote_no_nl.
  - change (String "[" ?t) with (String "[" EmptyString ++ t)%string.
    rewrite !no_nl_app, commas_no_nl; [reflexivity|].
    rewrite Forall_map. exact IH.
  - change (String "{" ?t) with (String "{" EmptyString ++ t)%string.
    rewrite !no_nl_app, commas_no_nl; [reflexivity|].
    rewrite Forall_map. rewrite Forall_forall in *. intros kv Hkv.
    change (String ":" ?t) with (String ":" EmptyString ++ t)%string.
    now rewrite !no_nl_app, quote_no_nl, (IH kv Hkv).
Qed.

Lemma stringify_shape (tracker : Tracker) :
  exists body, Codec.stringify tracker = String "{" (body ++ "}")%string.
Proof. unfold Codec.stringify, Codec.tracker_to_json. cbn [JSON.print]. eexists. reflexivity. Qed.

Lemma stringify_line (tracker : Tracker) :
  no_nl (Codec.stringify tracker) = true
  /\ trimEnd (Codec.stringify tracker) = Codec.stringify tracker
  /\ (Codec.stringify tracker =? fence)%string = false
  /\ (Codec.stringify tracker =? fence_end)%string = false.
Proof.
  split; [apply print_no_nl|].
  destruct (stringify_shape tracker) as [body ->].
  repeat split; try reflexivity.
  change (String "{" (body ++ "}"))%string with ((String "{" body) ++ String "}" EmptyString)%string.
  now apply trimEnd_last.
Qed.

Section Locator.
Variable unixISO : TimeValue -> option string.

(** The payload of a block as the locator collects it, the line and its
    line break, is read back as the tracker. *)
Lemma loadTracker_line (tracker : Tracker) (w : World) :
  canonical tracker = true ->
  loadTracker unixISO (Codec.stringify tracker ++ String nl EmptyString) w
  = (Normal tracker, w).
Proof.
  intros H.
  assert (Hm : updateLegacyInfo unixISO (entries tracker) = entries tracker)
    by now apply Migration.updateLegacyInfo_canonical.
  pose proof (CodecFacts.canonical_no_number tracker H) as Hn.
  unfold loadTracker.
  destruct (stringify_shape tracker) as [body Hb].
  replace (truthy (Codec.stringify tracker ++ String nl EmptyString)) with true
    by now rewrite Hb.
  unfold try_catch, bind, JSON_parse, JSON.parse, Codec.stringify.
  rewrite (JSONFacts.value_round_trip (Codec.tracker_to_json tracker) Hn).
  2:{ pose proof (JSONFacts.size_le_length _ Hn) as Hs.
      rewrite StrFacts.length_app_s. lia. }
  cbn [JSON.skip_ws drop_while]. change (JSON.is_json_ws nl) with true. cbv iota.
  unfold ret, as_Tracker. rewrite CodecFacts.tracker_round.
  unfold ret. rewrite Hm. now destruct tracker.
Qed.

Lemma locate_total (content : list string) :
  forall i curr w, exists res w',
    locate unixISO content i curr w = (Normal res, w') /\ vault w' = vault w.
Proof.
  induction content as [|line rest IH]; intros i curr w; cbn [locate].
  - exists [], w. split; reflexivity.
  - destruct (trimEnd line =? fence)%string; [apply IH|].
    destruct curr as [[start text]|]; [|apply IH].
    destruct (trimEnd line =? fence_end)%string; [|apply IH].
    destruct (Sections.loadTracker_total unixISO text w) as (tr & w1 & E1 & V1).
    destruct (IH (i + 1)%Z None w1) as (more & w2 & E2 & V2).
    exists ((mkSection start (i - 1)%Z, tr) :: more), w2.
    unfold bind. rewrite E1, E2. split; [reflexivity | congruence].
Qed.

(** The loop over two runs of lines: the sections of the first run, then
    those of the second run, which is read from the state the first one
    leaves. *)
Lemma locate_app (A B : list string) :
  forall i curr w, exists rA st w',
    vault w' = vault w
    /\ forall rB w'',
         locate unixISO B (i + Z.of_nat (length A))%Z st w' = (Normal rB, w'') ->
         locate unixISO (A ++ B) i curr w = (Normal (rA ++ rB), w'').
Proof.
  induction A as [|line rest IH]; intros i curr w.
  - exists [], curr, w. split; [reflexivity|]. intros rB w'' H.
    cbn [length app] in *. now rewrite Z.add_0_r in H.
  - assert (Hlen : forall j, (j + 1 + Z.of_nat (length rest)
                             = j + Z.of_nat (length (line :: rest)))%Z)
      by (intros j; cbn [length]; lia).
    cbn [app locate].
    destruct (trimEnd line =? fence)%string.
    { destruct (IH (i + 1)%Z (Some ((i + 1)%Z, EmptyString)) w) as (rA & st & w' & V & H).
      exists rA, st, w'. split; [exact V|]. intros rB w'' HB. apply H.
      now rewrite Hlen. }
    destruct curr as [[start text]|].
    2:{ destruct (IH (i + 1)%Z None w) as (rA & st & w' & V & H).
        exists rA, st, w'. split; [exact V|]. intros rB w'' HB. apply H.
        now rewrite Hlen. }
    destruct (trimEnd line =? fence_end)%string.
    2:{ destruct (IH (i + 1)%Z (Some (start, (text ++ line ++ String nl EmptyString)%string)) w)
          as (rA & st & w' & V & H).
        exists rA, st, w'. split; [exact V|]. intros rB w'' HB. apply H.
        now rewrite Hlen. }
    destruct (Sections.loadTracker_total unixISO text w) as (tr & w1 & E1 & V1).
    destruct (IH (i + 1)%Z None w1) as (rA & st & w' & V & H).
    exists ((mkSection start (i - 1)%Z, tr) :: rA), st, w'.
    split; [congruence|]. intros rB w'' HB.
    unfold bind. rewrite E1. rewrite (H rB w''); [reflexivity|].
    now rewrite Hlen.
Qed.

(** A block of one payload line between its fences. *)
Lemma locate_block (open close : string) (tracker : Tracker) (after : list string) :
  forall i curr w,
    trimEnd open = fence -> trimEnd close = fence_end ->
    canonical tracker = true ->
    exists ra w',
      locate unixISO (open :: Codec.stringify tracker :: close :: after) i curr w
      = (Normal ((mkSection (i + 1) (i + 1), tracker) :: ra), w').
Proof.
  intros i curr w Ho Hc Ht.
  destruct (stringify_line tracker) as (_ & Htrim & Hf & Hfe).
  cbn [locate]. rewrite Ho, Htrim, Hc, Hf, Hfe.
  change (fence =? fence)%string with true.
  change (fence_end =? fence)%string with false.
  change (fence_end =? fence_end)%string with true. cbv iota.
  change (EmptyString ++ ?x)%string with x.
  unfold bind. rewrite (loadTracker_line tracker w Ht).
  destruct (locate_total after (i + 1 + 1 + 1)%Z None w) as (ra & w' & E & _).
  rewrite E. exists ra, w'.
  replace (i + 1 + 1 - 1)%Z with (i + 1)%Z by lia. reflexivity.
Qed.

End Locator.

Lemma firstn_block {A} (before : list A) (x : A) (rest : list A) :
  firstn (length before + 1) (before ++ x :: rest) = before ++ [x].
Proof.
  induction before as [|b before IH]; [reflexivity|].
  cbn [length Nat.add app firstn]. now rewrite IH.
Qed.

Lemma skipn_block {A} (before : list A) (x : A) (payload : list A) (rest : list A) :
  skipn (length before + length payload + 1) (before ++ x :: payload ++ rest) = rest.
Proof.
  induction before as [|b before IH]; cbn [length Nat.add app].
  - replace (length payload + 1) with (S (length payload)) by lia. cbn [skipn].
    induction payload as [|p payload IHp]; [reflexivity | exact IHp].
  - exact IH.
Qed.

End Protocol.

(** X11 (a saved block is found again): in a document whose lines are
    [before], an opening fence, the old payload, a closing fence and [after],
    [saveTracker] called with the section of the two fence lines (as the host
    reports it) writes the lines [before], the fence, the serialization on one
    line, the closing fence and [after]; and [loadAllTrackers] on the file it
    wrote finds, after the sections of [before], the tracker that was saved,
    in the section of the one line after the opening fence.  The tracker is
    canonical, as in the round trip of the codec. *)
Theorem saveTracker_then_loadAllTrackers
    (unixISO : TimeValue -> option string) (tracker : Tracker) (fileName content : string)
    (before payload after : list string) (open close : string) (w : World) :
  assoc fileName (vault w) = Some content ->
  Str.split content = before ++ open :: payload ++ close :: after ->
  Str.trimEnd open = fence ->
  Str.trimEnd close = fence_end ->
  canonical tracker = true ->
  let k := Z.of_nat (length before) in
  let section := mkSection k (k + Z.of_nat (length payload) + 1) in
  let written :=
    Str.join (before ++ open :: Codec.stringify tracker :: close :: after) in
  exists w1,
    saveTracker tracker fileName section w = (Normal tt, w1)
    /\ assoc fileName (vault w1) = Some written
    /\ exists rb ra w2,
         loadAllTrackers unixISO fileName w1
         = (Normal (rb ++ (mkSection (k + 1) (k + 1), tracker) :: ra), w2).
Proof.
  intros Hfile Hlines Ho Hc Ht k section written.
  assert (Hw : splice content section tracker = written).
  { rewrite Sections.splice_lines.
    - subst written section k. cbn [lineStart lineEnd]. rewrite Hlines. f_equal.
      replace (Z.to_nat (Z.of_nat (length before) + 1)) with (length before + 1) by lia.
      replace (Z.to_nat (Z.of_nat (length before) + Z.of_nat (length payload) + 1))
        with (length before + length payload + 1) by lia.
      rewrite Protocol.firstn_block, Protocol.skipn_block.
      rewrite <- app_assoc. reflexivity.
    - subst section k. cbn [lineStart]. lia.
    - subst section k. cbn [lineEnd]. rewrite Hlines.
      rewrite length_app. cbn [length]. rewrite length_app. cbn [length]. lia. }
  eexists. split; [|split].
  - unfold saveTracker, bind, read_file. rewrite Hfile. unfold modify. rewrite Hw.
    reflexivity.
  - cbn [vault]. now apply (Sections.assoc_update _ _ _ content).
  - unfold loadAllTrackers, bind, read_file. cbn [vault].
    rewrite (Sections.assoc_update _ _ _ content Hfile).
    assert (Hsplit : Str.split written
                     = before ++ open :: Codec.stringify tracker :: close :: after).
    { apply Protocol.split_join; [now destruct before|].
      pose proof (Protocol.split_no_nl content) as Hall. rewrite Hlines in Hall.
      apply Forall_app in Hall as [Hb Hrest].
      inversion Hrest as [|? ? Hopen Hrest']; subst.
      apply Forall_app in Hrest' as [_ Hrest''].
      inversion Hrest'' as [|? ? Hclose Hafter]; subst.
      apply Forall_app; split; [exact Hb|].
      repeat constructor; try assumption.
      apply (Protocol.stringify_line tracker). }
    rewrite Hsplit.
    match goal with |- context [mkWorld ?v ?c ?t] => set (w1 := mkWorld v c t) end.
    destruct (Protocol.locate_app unixISO before
                (open :: Codec.stringify tracker :: close :: after) 0%Z None w1)
      as (rb & st & w' & _ & H).
    destruct (Protocol.locate_block unixISO open close tracker after
                (0 + Z.of_nat (length before))%Z st w' Ho Hc Ht) as (ra & w2 & E).
    exists rb, ra, w2. rewrite (H _ _ E). subst k. do 4 f_equal; lia.
Qed.

(** The note of Monday, whose running tracker is replaced by one at rest. *)
Lemma saveTracker_then_loadAllTrackers_witness :
  let w := mkWorld [("monday.md", running_note)] [] 0 in
  exists w1,
    saveTracker rested "monday.md" (mkSection 1 3) w = (Normal tt, w1)
    /\ assoc "monday.md" (vault w1)
       = Some (Str.join ["# Monday"; "```time-tracker-plus"; Codec.stringify rested; "```"])
    /\ exists rb ra w2,
         loadAllTrackers Calendar.unixISO "monday.md" w1
         = (Normal (rb ++ (mkSection 2 2, rested) :: ra), w2).
Proof.
  intros w.
  apply (saveTracker_then_loadAllTrackers Calendar.unixISO rested "monday.md" running_note
           ["# Monday"]
           [Codec.stringify
              (mkTracker [mkEntry "Work" (TStr "2024-01-01T09:00:00.000Z") TNull
                                  Absent None] None)]
           [] "```time-tracker-plus" "```" w).
  - reflexivity.
  - vm_compute. reflexivity.
  - reflexivity.
  - reflexivity.
  - reflexivity.
Defined.

(** ** The buttons of the rows *)

Module ViewFacts.

Lemma leaves_rest (l : list Entry) : forallb is_leaf l = true -> forallb rests l = true.
Proof.
  intros H. rewrite forallb_forall in *. intros x Hx. specialize (H x Hx).
  unfold is_leaf in H. apply negb_true_iff in H.
  destruct x as [n s e [| |subs] c]; try reflexivity. discriminate.
Qed.

Lemma leaf_two_level (x : Entry) : is_leaf x = true -> two_level x = true.
Proof.
  unfold is_leaf. intros H. apply negb_true_iff in H.
  destruct x as [n s e [| |subs] c]; try reflexivity. discriminate.
Qed.

Lemma stopIn_leaf (now : string) (x x' : Entry) :
  is_leaf x = true -> stopIn now x = Some x' -> is_leaf x' = true.
Proof.
  destruct x as [n s e [| |subs] c]; try discriminate;
    cbn [stopIn subEntries endTime]; intros _ H;
    destruct (negb (truthy_time e)); try discriminate; now injection H as <-.
Qed.

Lemma stop_first_leaves (now : string) (l l' : list Entry) :
  forallb is_leaf l = true ->
  stop_first (stopIn now) l = Some l' ->
  forallb is_leaf l' = true /\ length l' = length l.
Proof.
  revert l'. induction l as [|x l IH]; intros l' H Hs; [discriminate|].
  cbn [forallb] in H. apply andb_true_iff in H as [Hx Hl].
  cbn [stop_first] in Hs.
  destruct (stopIn now x) as [x'|] eqn:Ex.
  - injection Hs as <-. cbn [forallb length].
    now rewrite (stopIn_leaf now x x' Hx Ex), Hl.
  - destruct (stop_first (stopIn now) l) as [r|]; [|discriminate].
    injection Hs as <-. destruct (IH r Hl eq_refl) as [Hr Hn].
    cbn [forallb length]. now rewrite Hx, Hr, Hn.
Qed.

Lemma stopRunning_leaves (now : string) (l : list Entry) :
  forallb is_leaf l = true ->
  forallb is_leaf (stopRunning now l) = true
  /\ length (stopRunning now l) = length l.
Proof.
  intros H. unfold stopRunning.
  destruct (stop_first (stopIn now) l) as [l'|] eqn:E; [|now split].
  now apply (stop_first_leaves now l l').
Qed.

(** The stop button keeps the shape of a row of two levels. *)
Lemma endRunning_shape (now : string) (x : Entry) :
  two_level x = true -> rests x = true ->
  two_level (endRunningEntryInSegment now x) = true
  /\ rests (endRunningEntryInSegment now x) = true.
Proof.
  destruct x as [n s e [| |subs] c];
    cbn [endRunningEntryInSegment two_level rests subEntries endTime]; intros H2 Hr;
    try (destruct (negb (truthy_time e)); split; reflexivity).
  destruct (stopRunning_leaves now subs H2) as [Hl Hn].
  cbn [two_level rests subEntries]. rewrite Hn.
  apply andb_true_iff in Hr as [Hlen _]. rewrite Hlen, Hl.
  split; [reflexivity|]. now rewrite leaves_rest.
Qed.

(** The continue button keeps a row of two levels at two levels. *)
Lemma startSubEntry_two_level (now : string) (x : Entry) (nm : string) :
  two_level x = true -> two_level (startSubEntry now x nm) = true.
Proof.
  unfold startSubEntry.
  destruct x as [n s e [| |subs] c]; cbn [two_level subEntries]; intros H; try reflexivity.
  rewrite forallb_app, H. reflexivity.
Qed.

Lemma rendered_resolve (r : EntryRef) :
  forall entries e, rendered entries r = Some e -> resolve entries r = Some e.
Proof.
  induction r as [|i r IH]; intros entries e H; [discriminate|].
  cbn [rendered resolve] in *.
  destruct (nth_error entries i) as [x|]; [|discriminate].
  destruct r as [|j r]; [exact H|].
  destruct (subEntries x) as [| |subs]; try discriminate.
  destruct (collapsed x) as [[|]|]; try discriminate; now apply IH.
Qed.

Lemma forallb_cut {A} (p : A -> bool) (l : list A) (k : nat) :
  forallb p l = true -> forallb p (firstn k l ++ skipn (S k) l) = true.
Proof.
  intros H. rewrite forallb_forall in *. intros x Hx. apply H.
  apply in_app_or in Hx as [Hx|Hx];
    [eapply TreeFacts.In_firstn_aux | eapply TreeFacts.In_skipn_aux]; eassumption.
Qed.

Lemma forallb_nth {A} (p : A -> bool) (l : list A) (i : nat) (x : A) :
  forallb p l = true -> nth_error l i = Some x -> p x = true.
Proof.
  intros H Hi. rewrite forallb_forall in H. apply H. eapply nth_error_In; eassumption.
Qed.

(** The remove button on a rendered row of a tracker of two levels. *)
Lemma remove_keeps_tidy (tracker : Tracker) (row : EntryRef) (e : Entry) :
  tidy tracker = true ->
  rendered (entries tracker) row = Some e ->
  hasRunningEntry e = false ->
  tidy (mkTracker (fst (removeEntry (entries tracker) row)) (targetTime tracker)) = true.
Proof.
  unfold tidy. cbn [entries]. destruct tracker as [es target]. cbn [entries targetTime].
  intros H Hrow Hrun.
  apply andb_true_iff in H as [H Hc]. apply andb_true_iff in H as [H2 Hr].
  apply Nat.leb_le in Hc.
  rewrite (Removal.removeEntry_rests es row Hr), andb_true_r.
  rewrite TreeFacts.hasRunningEntry_count in Hrun. apply Nat.ltb_ge in Hrun.
  destruct row as [|i [|k [|j row]]]; [discriminate| | |].
  - (* a top-level row *)
    cbn [rendered] in Hrow.
    destruct (nth_error es i) as [x|] eqn:Hi; [|discriminate]. injection Hrow as ->.
    pose proof (TreeFacts.count_remove_top es i e Hi) as Hcount.
    rewrite TreeFacts.removeEntry_single in *.
    assert (Hlt : i < length es) by (apply nth_error_Some; congruence).
    apply Nat.ltb_lt in Hlt. rewrite Hlt in *. cbn [fst] in *.
    rewrite (forallb_cut two_level es i H2). apply Nat.leb_le. lia.
  - (* a sub-entry of a top-level row *)
    cbn [rendered] in Hrow.
    destruct (nth_error es i) as [P|] eqn:Hi; [|discriminate].
    destruct P as [n s et [| |subs] c]; cbn [subEntries collapsed] in Hrow; try discriminate.
    assert (Hk : nth_error subs k = Some e).
    { destruct c as [[|]|]; try discriminate;
        destruct (nth_error subs k); congruence. }
    pose proof (forallb_nth two_level es i _ H2 Hi) as HP. cbn [two_level subEntries] in HP.
    pose proof (TreeFacts.count_remove_sub es i k _ e subs Hi eq_refl HP Hk) as Hcount.
    assert (Hlt : k < length subs) by (apply nth_error_Some; congruence).
    rewrite (TreeFacts.removeEntry_sub es i k n s et subs c Hi Hlt) in *. cbn [fst] in *.
    apply andb_true_iff. split; [|apply Nat.leb_le; lia].
    apply Removal.forallb_update_nth; [exact H2|]. intros _ _.
    pose proof (forallb_cut is_leaf subs k HP) as Hrest.
    destruct (firstn k subs ++ skipn (S k) subs) as [|a [|b r]]; try reflexivity; exact Hrest.
  - (* deeper rows are not there *)
    exfalso. cbn [rendered] in Hrow.
    destruct (nth_error es i) as [P|] eqn:Hi; [|discriminate].
    pose proof (forallb_nth two_level es i _ H2 Hi) as HP.
    destruct P as [n s et [| |subs] c]; cbn [subEntries collapsed] in Hrow; try discriminate.
    cbn [two_level subEntries] in HP.
    assert (Hsub : match nth_error subs k with
                   | Some t => match subEntries t with Present _ => True | _ => False end
                   | None => False
                   end).
    { destruct c as [[|]|]; try discriminate;
        destruct (nth_error subs k) as [t|]; try discriminate;
        destruct (subEntries t); try discriminate;
        try (destruct (collapsed t) as [[|]|]; discriminate); exact I. }
    destruct (nth_error subs k) as [t|] eqn:Hk; [|contradiction].
    pose proof (forallb_nth is_leaf subs k t HP Hk) as Ht. unfold is_leaf in Ht.
    destruct (subEntries t); try contradiction. discriminate.
Qed.

Lemma perform_keeps_tidy (now : string) (a : RowAction) (tracker : Tracker) :
  Str.truthy now = true ->
  tidy tracker = true ->
  enabled tracker a = true ->
  tidy (perform now a tracker) = true
  /\ targetTime (perform now a tracker) = targetTime tracker.
Proof.
  intros Hnow Ht Hen. split; [|destruct a; reflexivity].
  destruct a as [nm|i nm|i|row]; cbn [enabled perform] in *.
  - (* start *)
    destruct tracker as [[|x es] target]; [reflexivity | discriminate].
  - (* continue *)
    cbn [offered] in Hen. apply andb_true_iff in Hen as [Hi Hrun].
    apply Nat.ltb_lt in Hi. apply negb_true_iff in Hrun.
    rewrite Running.isRunning_count in Hrun. apply Nat.ltb_ge in Hrun.
    destruct tracker as [es target]. unfold tidy in *. cbn [entries targetTime] in *.
    apply andb_true_iff in Ht as [Ht _]. apply andb_true_iff in Ht as [H2 Hr].
    destruct (nth_error es i) as [x|] eqn:Ex;
      [|apply nth_error_None in Ex; lia].
    pose proof (Scanner.count_running_update_nth i
                  (fun entry => startSubEntry now entry nm) es x Ex) as Hu.
    cbv beta in Hu. rewrite Scanner.runningLeaves_startSubEntry in Hu.
    rewrite !andb_true_iff. repeat split.
    + apply Removal.forallb_update_nth; [exact H2|]. intros y Hy.
      apply startSubEntry_two_level. now apply (forallb_nth two_level es i).
    + apply Removal.forallb_update_nth; [exact Hr|]. intros y Hy.
      apply Removal.startSubEntry_rests. now apply (forallb_nth rests es i).
    + apply Nat.leb_le. lia.
  - (* stop *)
    destruct tracker as [es target]. unfold tidy in *. cbn [entries targetTime] in *.
    apply andb_true_iff in Ht as [Ht Hc]. apply andb_true_iff in Ht as [H2 Hr].
    apply Nat.leb_le in Hc.
    destruct (nth_error es i) as [x|] eqn:Ex; [|discriminate].
    pose proof (Scanner.count_running_update_nth i (endRunningEntryInSegment now)
                  es x Ex) as Hu.
    rewrite (TreeFacts.endRunning_count now x Hnow) in Hu.
    rewrite !andb_true_iff. repeat split.
    + apply Removal.forallb_update_nth; [exact H2|]. intros y Hy.
      apply endRunning_shape;
        [now apply (forallb_nth two_level es i) | now apply (forallb_nth rests es i)].
    + apply Removal.forallb_update_nth; [exact Hr|]. intros y Hy.
      apply endRunning_shape;
        [now apply (forallb_nth two_level es i) | now apply (forallb_nth rests es i)].
    + apply Nat.leb_le. lia.
  - (* remove *)
    destruct (rendered (entries tracker) row) as [e|] eqn:Hrow; [|discriminate].
    apply negb_true_iff in Hen. now apply (remove_keeps_tidy tracker row e).
Qed.

End ViewFacts.

(** X12 (the shape the view keeps): whatever enabled buttons are clicked
    at the view, one after the other (start on an empty tracker, continue and
    stop on top-level rows, remove on rendered rows), a tracker of at most two
    levels, with two entries or more in every array of sub-entries and at
    most one running leaf, stays such a tracker, with its target time; the
    empty tracker is one.  So by these buttons no entry is nested below a
    sub-entry, and two entries never run in one tracker.  (The edit form,
    which sets the times of an entry to what is typed, is not among them.) *)
Theorem session_keeps_tidy
    (steps : list (string * RowAction)) (tracker final : Tracker) :
  Forall (fun step => Str.truthy (fst step) = true) steps ->
  tidy tracker = true ->
  session steps tracker = Some final ->
  tidy final = true /\ targetTime final = targetTime tracker.
Proof.
  intros Hnow. revert tracker.
  induction Hnow as [|[now a] steps Hn _ IH]; intros tracker Ht Hs; cbn [session] in Hs.
  - injection Hs as <-. now split.
  - destruct (enabled tracker a) eqn:Hen; [|discriminate].
    destruct (ViewFacts.perform_keeps_tidy now a tracker Hn Ht Hen) as [Ht' Htarget].
    destruct (IH _ Ht' Hs) as [Hf Htf]. split; [exact Hf | congruence].
Qed.

(** A morning at the view: start, stop, continue, stop, and the first part
    removed, which flattens the entry. *)
Lemma session_keeps_tidy_witness :
  exists final,
    session [("2024-01-01T09:00:00.000Z", StartClick "Work");
             ("2024-01-01T10:00:00.000Z", StopClick 0);
             ("2024-01-01T11:00:00.000Z", ContinueClick 0 EmptyString);
             ("2024-01-01T12:00:00.000Z", StopClick 0);
             ("2024-01-01T12:30:00.000Z", RemoveClick [0; 0])]
            (mkTracker [] (Some "2h30m")) = Some final
    /\ entries final
       = [mkEntry "Work" (TStr "2024-01-01T11:00:00.000Z")
                  (TStr "2024-01-01T12:00:00.000Z") Absent None]
    /\ tidy final = true /\ targetTime final = Some "2h30m".
Proof.
  eexists. split; [reflexivity|]. split; [reflexivity|].
  apply (session_keeps_tidy
           [("2024-01-01T09:00:00.000Z", StartClick "Work");
            ("2024-01-01T10:00:00.000Z", StopClick 0);
            ("2024-01-01T11:00:00.000Z", ContinueClick 0 EmptyString);
            ("2024-01-01T12:00:00.000Z", StopClick 0);
            ("2024-01-01T12:30:00.000Z", RemoveClick [0; 0])]
           (mkTracker [] (Some "2h30m"))).
  - repeat constructor.
  - reflexivity.
  - reflexivity.
Defined.

(** ** The scanner on a running block *)

Module ScanFacts.
Import Str.

Lemma starts_sound (pat s : string) :
  starts pat s = true -> s = (pat ++ drop (String.length pat) s)%string.
Proof.
  revert s. induction pat as [|a p IH]; intros s H; [reflexivity|].
  destruct s as [|b r]; [discriminate|]. cbn [starts] in H.
  apply andb_true_iff in H as [Hab Hp]. apply Ascii.eqb_eq in Hab. subst b.
  cbn [String.length drop append]. f_equal. now apply IH.
Qed.

Lemma starts_app (p q s : string) :
  starts (p ++ q) s = starts p s && starts q (drop (String.length p) s).
Proof.
  revert s. induction p as [|a p IH]; intros s; [reflexivity|].
  destruct s as [|b r]; [reflexivity|].
  cbn [append starts String.length drop]. rewrite IH. apply andb_assoc.
Qed.

Lemma starts_self (q s : string) : starts q (q ++ s) = true.
Proof.
  induction q as [|a q IH]; [reflexivity|].
  cbn [append starts]. now rewrite Ascii.eqb_refl, IH.
Qed.

Lemma drop_self (q s : string) : drop (String.length q) (q ++ s) = s.
Proof. induction q as [|a q IH]; [reflexivity | exact IH]. Qed.

Lemma drop_drop (n m : nat) (s : string) : drop n (drop m s) = drop (m + n) s.
Proof.
  revert s. induction m as [|m IH]; intros s; [reflexivity|].
  destruct s as [|c r]; [now destruct n | apply IH].
Qed.

Lemma cut_step (pat : string) (c : ascii) (r : string) :
  cut pat (String c r)
  = if starts pat (String c r) then Some (EmptyString, drop (String.length pat) (String c r))
    else match cut pat r with
         | Some (b, a) => Some (String c b, a)
         | None => None
         end.
Proof. reflexivity. Qed.

Lemma cut_sound (pat s a b : string) :
  cut pat s = Some (a, b) -> s = (a ++ pat ++ b)%string.
Proof.
  revert a. induction s as [|c r IH]; intros a H.
  - cbn [cut] in H. destruct (starts pat EmptyString) eqn:E; [|discriminate].
    injection H as <- <-. now apply starts_sound.
  - rewrite cut_step in H. destruct (starts pat (String c r)) eqn:E.
    + injection H as <- <-. now apply starts_sound.
    + destruct (cut pat r) as [[b' a']|]; [|discriminate].
      injection H as <- <-. cbn [append]. f_equal. now apply IH.
Qed.

(** The first occurrence of a text that starts with [p] is where the first
    occurrence of [p] is, when the rest of it follows there. *)
Lemma cut_extend (p q s a r : string) :
  cut p s = Some (a, r) -> starts q r = true ->
  cut (p ++ q) s = Some (a, drop (String.length q) r).
Proof.
  revert a. induction s as [|c s IH]; intros a H Hq.
  - cbn [cut] in *. rewrite starts_app.
    destruct (starts p EmptyString) eqn:E; [|discriminate].
    injection H as <- <-. rewrite Hq. cbn [andb].
    now rewrite StrFacts.length_app_s, drop_drop.
  - rewrite cut_step in *. rewrite starts_app.
    destruct (starts p (String c s)) eqn:E.
    + injection H as <- <-. rewrite Hq. cbn [andb].
      now rewrite StrFacts.length_app_s, drop_drop.
    + cbn [andb]. destruct (cut p s) as [[b' a']|]; [|discriminate].
      injection H as <- <-. now rewrite (IH b' eq_refl Hq).
Qed.

(** The closing fence of a payload of one line is the one after it. *)
Lemma cut_close (payload suffix : string) :
  no_nl payload = true ->
  cut block_close (payload ++ block_close ++ suffix) = Some (payload, suffix).
Proof.
  unfold no_nl. induction payload as [|c r IH]; intros H.
  - destruct suffix; reflexivity.
  - cbn [all_chars] in H. apply andb_true_iff in H as [Hc Hr].
    apply negb_true_iff in Hc. cbn [append]. rewrite cut_step.
    replace (starts block_close (String c (r ++ block_close ++ suffix))) with false.
    + now rewrite (IH Hr).
    + unfold block_close. cbn [starts]. rewrite Ascii.eqb_sym.
      fold nl. now rewrite Hc.
Qed.

Lemma substitution_plain (r matched before after : string) :
  plain r = true -> substitution r matched before after = r.
Proof.
  unfold plain. induction r as [|d r IH]; intros H; [reflexivity|].
  cbn [all_chars] in H. apply andb_true_iff in H as [Hd Hr].
  apply negb_true_iff in Hd. cbn [substitution]. rewrite Hd. f_equal. now apply IH.
Qed.

Lemma plain_app (a b : string) : plain (a ++ b) = plain a && plain b.
Proof. apply StrFacts.all_chars_app. Qed.

(** The one match of the pattern in a text with one opening fence, whose
    payload is one line. *)
Lemma exec_all_one (content prefix payload suffix : string) :
  cut block_open content = Some (prefix, (payload ++ block_close ++ suffix)%string) ->
  no_nl payload = true ->
  cut block_open suffix = None ->
  exec_all content = [((block_open ++ payload ++ block_close)%string, payload)].
Proof.
  intros Hopen Hline Hnone. unfold exec_all.
  destruct (String.length content) as [|n] eqn:El.
  - apply cut_sound in Hopen. rewrite Hopen in El.
    rewrite StrFacts.length_app_s in El. cbn in El. lia.
  - cbn [blocks]. rewrite Hopen, (cut_close payload suffix Hline). f_equal.
    destruct n as [|n]; [reflexivity|]. cbn [blocks]. now rewrite Hnone.
Qed.

Lemma replace_block (content prefix payload suffix new : string) :
  cut block_open content = Some (prefix, (payload ++ block_close ++ suffix)%string) ->
  plain new = true ->
  replace content (block_open ++ payload ++ block_close) new
  = (prefix ++ new ++ suffix)%string.
Proof.
  intros Hopen Hnew. unfold replace.
  pose proof (StrFacts.app_assoc_s payload block_close suffix) as Ha.
  rewrite (cut_extend block_open (payload ++ block_close) content prefix _ Hopen).
  - rewrite <- Ha, drop_self. now rewrite substitution_plain.
  - rewrite <- Ha. apply starts_self.
Qed.

Lemma starts_local (p x r r' : string) :
  String.length p <= String.length x -> starts p (x ++ r) = starts p (x ++ r').
Proof.
  revert x. induction p as [|a p IH]; intros x H; [reflexivity|].
  destruct x as [|b x]; [cbn in H; lia|].
  cbn [append starts]. cbn [String.length] in H. rewrite (IH x); [reflexivity | lia].
Qed.

(** Where a text first occurs does not depend on what follows the
    occurrence. *)
Lemma cut_rest (p a r r' : string) :
  cut p (a ++ p ++ r) = Some (a, r) -> cut p (a ++ p ++ r') = Some (a, r').
Proof.
  induction a as [|c a IH]; intros H.
  - cbn [append] in *. clear H. destruct (p ++ r')%string as [|c s] eqn:E.
    + destruct p; [|discriminate]. cbn [append] in E. subst r'. reflexivity.
    + rewrite <- E. destruct p as [|d p]; [cbn [append] in *; now rewrite E|].
      cbn [append]. rewrite cut_step.
      change (String d (p ++ r'))%string with (String d p ++ r')%string.
      now rewrite starts_self, drop_self.
  - cbn [append] in *. rewrite cut_step in *.
    assert (Hs : starts p (String c (a ++ p ++ r'))
                 = starts p (String c (a ++ p ++ r))).
    { change (String c (a ++ p ++ ?t))%string with (String c a ++ (p ++ t))%string.
      rewrite <- !StrFacts.app_assoc_s. apply starts_local.
      rewrite StrFacts.length_app_s. lia. }
    rewrite Hs. destruct (starts p (String c (a ++ p ++ r))).
    + injection H as H _. discriminate.
    + destruct (cut p (a ++ p ++ r)) as [[b' a']|] eqn:E; [|discriminate].
      injection H as -> ->. now rewrite (IH eq_refl).
Qed.

Lemma stop_first_canonical (now : string) (l : list Entry) :
  Forall (fun e => canonical_entry e = true ->
                   forall e', stopIn now e = Some e' -> canonical_entry e' = true) l ->
  forallb canonical_entry l = true ->
  forall l', stop_first (stopIn now) l = Some l' ->
             forallb canonical_entry l' = true /\ l' <> [].
Proof.
  induction 1 as [|x r Hx _ IH]; intros Hl l' Hs; [discriminate|].
  cbn [forallb] in Hl. apply andb_true_iff in Hl as [Hcx Hcr].
  cbn [stop_first] in Hs. destruct (stopIn now x) as [x'|] eqn:Ex.
  - injection Hs as <-. cbn [forallb]. rewrite (Hx Hcx x' eq_refl), Hcr.
    split; [reflexivity | discriminate].
  - destruct (stop_first (stopIn now) r) as [r'|]; [|discriminate].
    injection Hs as <-. destruct (IH Hcr r' eq_refl) as [Hr' _].
    cbn [forallb]. rewrite Hcx, Hr'. split; [reflexivity | discriminate].
Qed.

Lemma stopIn_canonical (now : string) (entry : Entry) :
  iso_instant now = true ->
  canonical_entry entry = true ->
  forall e', stopIn now entry = Some e' -> canonical_entry e' = true.
Proof.
  intros Hnow.
  induction entry as [n s e c|n s e c|n s e l c IH] using Entry_tree_ind;
    cbn [canonical_entry stopIn subEntries startTime endTime]; intros H e' Hs.
  - destruct (negb (truthy_time e)); [|discriminate]. injection Hs as <-.
    apply andb_true_iff in H as [H _]. apply andb_true_iff in H as [Hst _].
    cbn [canonical_entry set_endTime startTime endTime subEntries canonical_time].
    now rewrite Hst, Hnow.
  - apply andb_true_iff in H as [_ H]. discriminate.
  - apply andb_true_iff in H as [Ht Hl].
    destruct (stop_first (stopIn now) l) as [l'|] eqn:E; [|discriminate].
    injection Hs as <-.
    assert (Hc : forallb canonical_entry l = true) by (destruct l; [discriminate | exact Hl]).
    destruct (stop_first_canonical now l IH Hc l' E) as [Hl' Hne].
    cbn [canonical_entry startTime endTime subEntries]. rewrite Ht.
    destruct l' as [|y r]; [congruence | exact Hl'].
Qed.

Lemma stopRunning_canonical (now : string) (tracker : Tracker) :
  iso_instant now = true ->
  canonical tracker = true ->
  canonical (mkTracker (stopRunning now (entries tracker)) (targetTime tracker)) = true.
Proof.
  intros Hnow H. unfold canonical in *. cbn [entries]. unfold stopRunning.
  destruct (stop_first (stopIn now) (entries tracker)) as [l'|] eqn:E; [|exact H].
  apply (stop_first_canonical now (entries tracker)); [|exact H | exact E].
  apply Forall_forall. intros x _. now apply stopIn_canonical.
Qed.

Lemma iso_truthy (now : string) : iso_instant now = true -> truthy now = true.
Proof. destruct now; [discriminate | reflexivity]. Qed.

(** *** Serializations without a dollar sign *)














(** *** The scan of a file with one running block *)

Lemma scan_stops (clock : nat -> string) (fileName content prefix suffix : string)
    (tracker : Tracker) (w : World) :
  cut block_open content
  = Some (prefix, (Codec.stringify tracker ++ block_close ++ suffix)%string) ->
  cut block_open suffix = None ->
  canonical tracker = true ->
  isRunning tracker = true ->
  plain (Codec.stringify
           (mkTracker (stopRunning (clock (ticks w)) (entries tracker))
                      (targetTime tracker))) = true ->
  is_some (assoc fileName (vault w)) = true ->
  stopAllRunnersInFile clock content fileName w
  = (Normal true,
     mkWorld (update fileName
                (prefix ++ block_open
                 ++ Codec.stringify
                      (mkTracker (stopRunning (clock (ticks w)) (entries tracker))
                                 (targetTime tracker))
                 ++ block_close ++ suffix)
                (vault w))
             (console w) (S (ticks w))).
Proof.
  intros Hopen Hnone Hcan Hrun Hplain Hfile.
  unfold stopAllRunnersInFile.
  rewrite (exec_all_one content prefix (Codec.stringify tracker) suffix Hopen
             (Protocol.print_no_nl _) Hnone).
  cbn [foldM]. unfold bind at 1. unfold bind at 1.
  unfold scan_block, try_catch, bind, JSON_parse. cbn [fst snd].
  unfold Codec.stringify at 1.
  rewrite JSONFacts.parse_print by now apply CodecFacts.canonical_no_number.
  unfold ret at 1. unfold as_Tracker. rewrite CodecFacts.tracker_round.
  unfold ret at 1. rewrite Hrun.
  unfold isRunning in Hrun.
  destruct (getRunningEntry (entries tracker)) as [running|]; [|discriminate].
  unfold moment_now, ret. cbn [ticks vault console fst snd].
  rewrite (replace_block content prefix (Codec.stringify tracker) suffix _ Hopen).
  2:{ rewrite !plain_app, Hplain. reflexivity. }
  unfold read_file. cbn [vault].
  destruct (assoc fileName (vault w)); [|discriminate].
  unfold modify. cbn [vault console ticks].
  rewrite !StrFacts.app_assoc_s. reflexivity.
Qed.

End ScanFacts.

(** X13 (the scanner stops a running block): for a file whose text has
    one opening fence, followed by the serialization of a canonical running
    tracker on one line and the closing fence, [stopAllRunnersInFile] answers
    [true], reads the clock once and writes the file with the block's payload
    replaced by the serialization of the tracker whose running entry is ended
    at that reading; the text before and after the block, the console and
    the other files are as they were.  The new serialization holds no dollar
    sign, which [replace] would read as a pattern. *)
Theorem stopAllRunnersInFile_stops_block
    (clock : nat -> string) (fileName content prefix suffix : string)
    (tracker : Tracker) (w : World) :
  let stopped :=
    mkTracker (stopRunning (clock (ticks w)) (entries tracker)) (targetTime tracker) in
  Str.cut block_open content
  = Some (prefix, (Codec.stringify tracker ++ block_close ++ suffix)%string) ->
  Str.cut block_open suffix = None ->
  canonical tracker = true ->
  isRunning tracker = true ->
  plain (Codec.stringify stopped) = true ->
  is_some (assoc fileName (vault w)) = true ->
  stopAllRunnersInFile clock content fileName w
  = (Normal true,
     mkWorld (update fileName
                (prefix ++ block_open ++ Codec.stringify stopped ++ block_close ++ suffix)
                (vault w))
             (console w) (S (ticks w))).
Proof.
  intros stopped Hopen Hnone Hcan Hrun Hplain Hfile. subst stopped.
  now apply ScanFacts.scan_stops.
Qed.

(** The note of Monday at noon. *)
Lemma stopAllRunnersInFile_stops_block_witness :
  let w := mkWorld [("monday.md", running_note)] [] 0 in
  let stopped :=
    mkTracker [mkEntry "Work" (TStr "2024-01-01T09:00:00.000Z")
                       (TStr "2024-01-01T12:00:00.000Z") Absent None] None in
  stopAllRunnersInFile Calendar.clock running_note "monday.md" w
  = (Normal true,
     mkWorld [("monday.md",
               ("# Monday" ++ String Str.nl EmptyString ++ block_open
                ++ Codec.stringify stopped ++ block_close ++ EmptyString)%string)]
             [] 1).
Proof.
  intros w stopped.
  apply (stopAllRunnersInFile_stops_block Calendar.clock "monday.md" running_note
           ("# Monday" ++ String Str.nl EmptyString) EmptyString
           (mkTracker [mkEntry "Work" (TStr "2024-01-01T09:00:00.000Z") TNull
                               Absent None] None) w).
  - vm_compute. reflexivity.
  - reflexivity.
  - reflexivity.
  - reflexivity.
  - vm_compute. reflexivity.
  - reflexivity.
Defined.

(** X14 (a stopped block stays stopped): when the scanner has stopped
    the block of a file as in X13 (one opening fence, a canonical running
    tracker, a new serialization without a dollar sign), the tracker having
    one running leaf and the clock giving an ISO timestamp, the text it wrote
    to the file holds no running block: the scanner run again, on the text of
    the file, answers [false] and writes nothing. *)
Theorem stopAllRunnersInFile_settles
    (clock : nat -> string) (fileName content prefix suffix : string)
    (tracker : Tracker) (w : World) :
  let stopped :=
    mkTracker (stopRunning (clock (ticks w)) (entries tracker)) (targetTime tracker) in
  Str.cut block_open content
  = Some (prefix, (Codec.stringify tracker ++ block_close ++ suffix)%string) ->
  Str.cut block_open suffix = None ->
  canonical tracker = true ->
  isRunning tracker = true ->
  count_running (entries tracker) <= 1 ->
  iso_instant (clock (ticks w)) = true ->
  plain (Codec.stringify stopped) = true ->
  is_some (assoc fileName (vault w)) = true ->
  exists w1 written,
    stopAllRunnersInFile clock content fileName w = (Normal true, w1)
    /\ assoc fileName (vault w1) = Some written
    /\ exists w2,
         stopAllRunnersInFile clock written fileName w1 = (Normal false, w2)
         /\ vault w2 = vault w1.
Proof.
  intros stopped Hopen Hnone Hcan Hrun Hone Hnow Hplain Hfile.
  set (written :=
         (prefix ++ block_open ++ Codec.stringify stopped ++ block_close ++ suffix)%string).
  pose proof (ScanFacts.scan_stops clock fileName content prefix suffix tracker w
                Hopen Hnone Hcan Hrun Hplain Hfile) as Hscan.
  fold stopped in Hscan. fold written in Hscan.
  set (w1 := mkWorld (update fileName written (vault w)) (console w) (S (ticks w))) in *.
  assert (Hcut : Str.cut block_open written
                 = Some (prefix, (Codec.stringify stopped ++ block_close ++ suffix)%string)).
  { apply (ScanFacts.cut_rest block_open prefix
             (Codec.stringify tracker ++ block_close ++ suffix)).
    rewrite <- (ScanFacts.cut_sound _ _ _ _ Hopen). exact Hopen. }
  pose proof (ScanFacts.stopRunning_canonical (clock (ticks w)) tracker Hnow Hcan) as Hsc.
  fold stopped in Hsc.
  assert (Hquiet : existsb block_running (exec_all written) = false).
  { rewrite (ScanFacts.exec_all_one written prefix (Codec.stringify stopped) suffix Hcut
               (Protocol.print_no_nl _) Hnone).
    cbn [existsb]. rewrite orb_false_r. unfold block_running. cbn [snd].
    unfold Codec.stringify.
    rewrite JSONFacts.parse_print by now apply CodecFacts.canonical_no_number.
    rewrite CodecFacts.tracker_round, Running.isRunning_count.
    subst stopped. cbn [entries].
    destruct (Running.stopRunning_count (clock (ticks w)) (entries tracker)
                (ScanFacts.iso_truthy _ Hnow)) as [Hc _].
    apply Nat.ltb_ge. lia. }
  exists w1, written. split; [exact Hscan|]. split.
  - subst w1. cbn [vault]. destruct (assoc fileName (vault w)) as [old|] eqn:E;
      [|discriminate]. now apply (Sections.assoc_update _ _ _ old).
  - destruct (Scanner.stopAllRunnersInFile_flag clock written fileName w1)
      as (text & w2 & V & E).
    rewrite Hquiet in E. exists w2. split; [exact E | exact V].
Qed.

(** The note of Monday, scanned at noon and scanned again. *)
Lemma stopAllRunnersInFile_settles_witness :
  let w := mkWorld [("monday.md", running_note)] [] 0 in
  exists w1 written,
    stopAllRunnersInFile Calendar.clock running_note "monday.md" w = (Normal true, w1)
    /\ assoc "monday.md" (vault w1) = Some written
    /\ exists w2,
         stopAllRunnersInFile Calendar.clock written "monday.md" w1 = (Normal false, w2)
         /\ vault w2 = vault w1.
Proof.
  intros w.
  apply (stopAllRunnersInFile_settles Calendar.clock "monday.md" running_note
           ("# Monday" ++ String Str.nl EmptyString) EmptyString
           (mkTracker [mkEntry "Work" (TStr "2024-01-01T09:00:00.000Z") TNull
                               Absent None] None) w).
  - vm_compute. reflexivity.
  - reflexivity.
  - reflexivity.
  - reflexivity.
  - vm_compute. lia.
  - vm_compute. reflexivity.
  - vm_compute. reflexivity.
  - reflexivity.
Defined.

(** ** The scan of the vault *)

Module VaultFacts.

Lemma assoc_update_other (p q v : string) (m : list (string * string)) :
  p <> q -> assoc p (update q v m) = assoc p m.
Proof.
  intros Hpq. induction m as [|[k x] m IH]; [reflexivity|].
  cbn [update]. destruct (k =? q)%string eqn:Ekq; cbn [assoc].
  - apply String.eqb_eq in Ekq. subst k.
    destruct (q =? p)%string eqn:Eqp; [|reflexivity].
    apply String.eqb_eq in Eqp. congruence.
  - now rewrite IH.
Qed.

Lemma paths_update (q v : string) (m : list (string * string)) :
  map fst (update q v m) = map fst m.
Proof.
  induction m as [|[k x] m IH]; [reflexivity|].
  cbn [update]. destruct (k =? q)%string; cbn [map fst]; [reflexivity | now rewrite IH].
Qed.

Section WithClock.
Variable clock : nat -> string.

(** One file of the scan: it is written when one of its blocks is running,
    and only then. *)
Lemma scan_file (path content : string) (w : World) :
  exists text w',
    stopAllRunnersInFile clock content path w
    = (Normal (existsb block_running (exec_all content)), w')
    /\ vault w' = (if existsb block_running (exec_all content)
                   then update path text (vault w) else vault w).
Proof.
  destruct (Scanner.stopAllRunnersInFile_flag clock content path w) as (text & w1 & V & E).
  exists text. eexists. split; [exact E|].
  destruct (existsb block_running (exec_all content)); [reflexivity | exact V].
Qed.

Lemma idle_same (m m' : list (string * string)) (p : string) :
  assoc p m' = assoc p m -> idle m p -> idle m' p.
Proof. unfold idle, running_file. now intros ->. Qed.

(** The loop of [stopAllOtherRunningTimers]. *)
Lemma others_frame (files : list string) :
  Forall (fun q => ends_with ".md" q = true) files ->
  forall w, exists w',
    foldM (fun (_ : unit) (path : string) =>
             try_catch
               (file <- read_file path ;;
                match file with
                | Some content => stopAllRunnersInFile clock content path ;;; ret tt
                | None => throw HostError
                end)
               (fun e => log LogError ("Error stopping timers in file: " ++ path)%string))
          tt files w
    = (Normal tt, w')
    /\ map fst (vault w') = map fst (vault w)
    /\ forall p, idle (vault w) p -> assoc p (vault w') = assoc p (vault w).
Proof.
  induction 1 as [|q files Hq _ IH]; intros w.
  - exists w. repeat split; reflexivity.
  - cbn [foldM]. unfold bind at 1. unfold try_catch, bind at 1, read_file.
    destruct (assoc q (vault w)) as [content|] eqn:Eq.
    + destruct (scan_file q content w) as (text & w1 & E & V).
      unfold bind at 1. rewrite E. unfold ret at 1.
      destruct (IH w1) as (w' & E' & P' & F').
      exists w'. split; [exact E'|].
      assert (Hstep : map fst (vault w1) = map fst (vault w)
                      /\ forall p, idle (vault w) p -> assoc p (vault w1) = assoc p (vault w)).
      { rewrite V. destruct (existsb block_running (exec_all content)) eqn:Er;
          [|split; reflexivity].
        split; [apply paths_update|]. intros p Hp.
        apply assoc_update_other. intros ->.
        specialize (Hp Hq). unfold running_file in Hp. rewrite Eq in Hp. congruence. }
      destruct Hstep as [P1 F1]. split; [congruence|].
      intros p Hp. rewrite F'; [now apply F1|].
      apply (idle_same (vault w)); [now apply F1 | exact Hp].
    + unfold throw, log, bind. cbn.
      match goal with |- context [foldM _ tt files ?w0] => destruct (IH w0) as (w' & E' & P' & F') end.
      exists w'. split; [exact E'|]. split; [exact P'|]. exact F'.
Qed.

(** The loop of the command: it counts the files it stopped something
    in. *)
Lemma command_fold (files : list string) :
  NoDup files ->
  Forall (fun q => ends_with ".md" q = true) files ->
  forall n w, exists w',
    foldM (fun (stoppedCount : nat) (path : string) =>
             try_catch
               (file <- read_file path ;;
                match file with
                | Some content =>
                    wasStopped <- stopAllRunnersInFile clock content path ;;
                    ret (if wasStopped : bool then stoppedCount + 1 else stoppedCount)
                | None => throw HostError
                end)
               (fun e =>
                  log LogError ("Error stopping timers in file: " ++ path)%string ;;;
                  ret stoppedCount))
          n files w
    = (Normal (n + length (filter (running_file (vault w)) files)), w')
    /\ map fst (vault w') = map fst (vault w)
    /\ forall p, idle (vault w) p -> assoc p (vault w') = assoc p (vault w).
Proof.
  intros Hnd. induction Hnd as [|q files Hnotin _ IH]; intros Hmd n w.
  - exists w. cbn [foldM filter length]. rewrite Nat.add_0_r. repeat split; reflexivity.
  - inversion Hmd as [|? ? Hq Hmd']; subst. specialize (IH Hmd').
    cbn [foldM]. unfold bind at 1. unfold try_catch, bind at 1, read_file.
    cbn [filter]. unfold running_file at 1.
    destruct (assoc q (vault w)) as [content|] eqn:Eq.
    + destruct (scan_file q content w) as (text & w1 & E & V).
      unfold bind at 1. rewrite E. unfold ret at 1.
      assert (Hstep : map fst (vault w1) = map fst (vault w)
                      /\ (forall p, p <> q -> assoc p (vault w1) = assoc p (vault w))
                      /\ forall p, idle (vault w) p -> assoc p (vault w1) = assoc p (vault w)).
      { rewrite V. destruct (existsb block_running (exec_all content)) eqn:Er;
          [|repeat split; reflexivity].
        split; [apply paths_update|]. split.
        - intros p Hp. now apply assoc_update_other.
        - intros p Hp. apply assoc_update_other. intros ->.
          specialize (Hp Hq). unfold running_file in Hp. rewrite Eq in Hp. congruence. }
      destruct Hstep as (P1 & O1 & F1).
      destruct (IH (if existsb block_running (exec_all content) then n + 1 else n) w1)
        as (w' & E' & P' & F').
      exists w'. split; [|split; [congruence|]].
      * refine (eq_trans E' _). do 2 f_equal.
        assert (Hf : filter (running_file (vault w1)) files
                     = filter (running_file (vault w)) files).
        { apply filter_ext_in. intros p Hp. unfold running_file.
          rewrite O1; [reflexivity|]. intros ->. contradiction. }
        rewrite Hf. destruct (existsb block_running (exec_all content)); cbn [length]; lia.
      * intros p Hp. rewrite F'; [now apply F1|].
        apply (idle_same (vault w)); [now apply F1 | exact Hp].
    + unfold throw, log, bind, ret. cbn [vault console ticks].
      match goal with |- context [foldM _ n files ?w0] => destruct (IH n w0) as (w' & E' & P' & F') end.
      cbn [vault] in *. exists w'. split; [exact E'|]. split; [exact P'|]. exact F'.
Qed.

(** What the code and the embedding read alike and find at rest, the
    embedding's scanner leaves alone. *)
Lemma quiet_idle (m : list (string * string)) (p : string) : quiet m p -> idle m p.
Proof.
  unfold quiet, idle, running_file. intros H Hmd. specialize (H Hmd).
  destruct (assoc p m) as [content|]; [|reflexivity].
  induction (exec_all content) as [|b l IH]; [reflexivity|].
  cbn [forallb existsb] in *. apply andb_true_iff in H as [Hb Hl].
  unfold settled_block in Hb. apply andb_true_iff in Hb as [_ Hb].
  apply negb_true_iff in Hb. now rewrite Hb, (IH Hl).
Qed.





Lemma markdown_files (w : World) :
  Forall (fun q => ends_with ".md" q = true) (filter (ends_with ".md") (map fst (vault w))).
Proof. apply Forall_forall. intros q Hq. now apply filter_In in Hq. Qed.

End WithClock.
End VaultFacts.

(** X15 (what the scan leaves alone): [stopAllOtherRunningTimers]
    completes, keeps the paths of the vault, and leaves every file as it is
    that is no markdown file, or whose blocks are all read by the code as by
    the embedding (a text that is no JSON, a value without a list of entries,
    a value of the declared shape) and hold no running tracker: starting an
    entry rewrites only files in which a timer was running. *)
Theorem stopAllOtherRunningTimers_frame
    (clock : nat -> string) (currentFileName : string) (w : World) :
  exists w',
    stopAllOtherRunningTimers clock currentFileName w = (Normal tt, w')
    /\ map fst (vault w') = map fst (vault w)
    /\ forall path, quiet (vault w) path -> assoc path (vault w') = assoc path (vault w).
Proof.
  unfold stopAllOtherRunningTimers, bind at 1, getMarkdownFiles.
  destruct (VaultFacts.others_frame clock _ (VaultFacts.markdown_files w) w)
    as (w' & E & P & F).
  exists w'. split; [exact E|]. split; [exact P|].
  intros path Hq. apply F. now apply VaultFacts.quiet_idle.
Qed.

(** Two notes, one with a running tracker, one at rest with a block that
    is no JSON, and a text file: the note at rest and the text file are as
    they were. *)
Lemma stopAllOtherRunningTimers_frame_witness :
  let tuesday :=
    (rested_note
     ++ String Str.nl (Str.join ["```time-tracker-plus"; "{oops"; "```"]))%string in
  let w := mkWorld [("monday.md", running_note); ("tuesday.md", tuesday);
                    ("notes.txt", running_note)] [] 0 in
  exists w',
    stopAllOtherRunningTimers Calendar.clock "monday.md" w = (Normal tt, w')
    /\ assoc "tuesday.md" (vault w') = Some tuesday
    /\ assoc "notes.txt" (vault w') = Some running_note.
Proof.
  intros tuesday w.
  destruct (stopAllOtherRunningTimers_frame Calendar.clock "monday.md" w)
    as (w' & E & _ & F).
  exists w'. split; [exact E|]. split.
  - rewrite (F "tuesday.md"); [reflexivity|]. intros _. vm_compute. reflexivity.
  - rewrite (F "notes.txt"); [reflexivity|]. intros H. vm_compute in H. discriminate.
Defined.

(** X16 (the command "Stop All Running Timers"): in a vault whose paths
    are distinct and whose markdown files hold only blocks that the code
    reads as the embedding does, the command completes, and the notice it
    shows counts the markdown files that held a block with a running tracker,
    or says that no running timer was found when there is none; the paths of
    the vault and every file that held no running block are as they were. *)
Theorem stopAllTimers_counts_files (clock : nat -> string) (w : World) :
  NoDup (map fst (vault w)) ->
  let files := filter (ends_with ".md") (map fst (vault w)) in
  forallb (readable_file (vault w)) files = true ->
  let stoppedCount := length (filter (running_file (vault w)) files) in
  exists w',
    stopAllTimers clock w
    = (Normal (if 0 <? stoppedCount
               then ("Stopped running timers in " ++ Str.of_nat stoppedCount
                     ++ " file(s)")%string
               else "No running timers found"), w')
    /\ map fst (vault w') = map fst (vault w)
    /\ forall path, quiet (vault w) path -> assoc path (vault w') = assoc path (vault w).
Proof.
  intros Hnd files _ stoppedCount.
  unfold stopAllTimers, bind at 1, getMarkdownFiles. fold files.
  destruct (VaultFacts.command_fold clock files (NoDup_filter _ Hnd)
              (VaultFacts.markdown_files w) 0 w) as (w' & E & P & F).
  exists w'. unfold bind at 1. rewrite E. split; [reflexivity|]. split; [exact P|].
  intros path Hq. apply F. now apply VaultFacts.quiet_idle.
Qed.

(** Two notes, one with a running tracker, and a text file. *)
Lemma stopAllTimers_counts_files_witness :
  let w := mkWorld [("monday.md", running_note); ("tuesday.md", rested_note);
                    ("notes.txt", running_note)] [] 0 in
  exists w',
    stopAllTimers Calendar.clock w
    = (Normal "Stopped running timers in 1 file(s)", w')
    /\ map fst (vault w') = ["monday.md"; "tuesday.md"; "notes.txt"]
    /\ forall path, quiet (vault w) path -> assoc path (vault w') = assoc path (vault w).
Proof.
  intros w.
  apply (stopAllTimers_counts_files Calendar.clock w).
  - vm_compute. repeat constructor; simpl; intuition discriminate.
  - vm_compute. reflexivity.
Defined.

(** ** The times of the automatic stop *)

Module AutoStopFacts.
Import Str.

Lemma split_on_nonempty (sep : ascii) (s : string) : split_on sep s <> [].
Proof.
  destruct s as [|c r]; cbn [split_on]; [discriminate|].
  destruct (Ascii.eqb c sep); [discriminate|].
  destruct (split_on sep r); discriminate.
Qed.

Lemma split_on_app (sep : ascii) (a b : string) :
  split_on sep (a ++ String sep b) = split_on sep a ++ split_on sep b.
Proof.
  induction a as [|c a IH]; cbn [append split_on].
  - now rewrite Ascii.eqb_refl.
  - rewrite IH. destruct (Ascii.eqb c sep); [reflexivity|].
    pose proof (split_on_nonempty sep a) as Hne.
    destruct (split_on sep a) as [|h t]; [congruence | reflexivity].
Qed.

Lemma split_on_none (sep : ascii) (s : string) :
  all_chars (fun c => negb (Ascii.eqb c sep)) s = true -> split_on sep s = [s].
Proof.
  induction s as [|c s IH]; cbn [all_chars split_on]; intros H; [reflexivity|].
  apply andb_true_iff in H as [Hc Hs]. apply negb_true_iff in Hc.
  now rewrite Hc, (IH Hs).
Qed.

Lemma trim_blank (s : string) : trim s = EmptyString -> all_chars is_ws s = true.
Proof.
  unfold trim, trimStart. intros H.
  apply (StrFacts.all_chars_drop_while is_ws is_ws); [auto|].
  apply (StrFacts.all_chars_trimEnd is_ws); [auto|]. now rewrite H.
Qed.

(** The guard at the head of the function changes nothing. *)
Lemma guard_redundant (s t : string) :
  shouldAutoStopNow s t
  = existsb (String.eqb t) (filter truthy (map trim (split_on ";" s))).
Proof.
  unfold shouldAutoStopNow.
  destruct s as [|c r]; [reflexivity|]. cbn [truthy negb orb].
  destruct (trim (String c r) =? EmptyString)%string eqn:E; [|reflexivity].
  apply String.eqb_eq in E.
  rewrite split_on_none.
  - cbn [map filter]. rewrite E. reflexivity.
  - apply (StrFacts.all_chars_weaken is_ws); [|now apply trim_blank].
    intros [[] [] [] [] [] [] [] []]; try discriminate; reflexivity.
Qed.

End AutoStopFacts.

(** X17 (the list of stop times): [shouldAutoStopNow] reads its setting as
    a list separated by semicolons: a setting [a;b] matches a time when [a]
    or [b] does, and a setting without a semicolon matches the time that it
    is once the white space around it is cut, and no time when it is
    blank. *)
Theorem shouldAutoStopNow_list :
  (forall a b currentTime,
     shouldAutoStopNow (a ++ String ";" b) currentTime
     = shouldAutoStopNow a currentTime || shouldAutoStopNow b currentTime)
  /\ (forall s currentTime,
        Str.all_chars (fun c => negb (Ascii.eqb c ";")) s = true ->
        shouldAutoStopNow s currentTime
        = Str.truthy (trim s) && (currentTime =? trim s)%string).
Proof.
  split.
  - intros a b t. rewrite !AutoStopFacts.guard_redundant.
    rewrite AutoStopFacts.split_on_app, map_app, filter_app, existsb_app. reflexivity.
  - intros s t Hs. rewrite AutoStopFacts.guard_redundant.
    rewrite (AutoStopFacts.split_on_none ";" s Hs). cbn [map filter].
    destruct (Str.truthy (trim s)); [cbn [existsb]; now rewrite orb_false_r | reflexivity].
Qed.

Lemma shouldAutoStopNow_list_witness :
  shouldAutoStopNow " 17:00 " "17:00" = true
  /\ shouldAutoStopNow "12:00; 17:00 ;" "17:00"
     = shouldAutoStopNow "12:00" "17:00" || shouldAutoStopNow " 17:00 ;" "17:00".
Proof.
  split.
  - rewrite (proj2 shouldAutoStopNow_list " 17:00 " "17:00"); reflexivity.
  - apply (proj1 shouldAutoStopNow_list "12:00" " 17:00 ;" "17:00").
Defined.

(** ** What the migration does to the running leaves *)

Module HollowFacts.

Section WithLibrary.
Variable unixISO : TimeValue -> option string.

Lemma migrate_truthy (t : TimeValue) :
  (if truthy_time t && is_numeric t
   then truthy_time (of_option (unixISO t)) else true) = true ->
  truthy_time (migrate_time unixISO t) = truthy_time t.
Proof.
  unfold migrate_time. destruct (truthy_time t && is_numeric t) eqn:E; [|reflexivity].
  intros ->. apply andb_true_iff in E as [-> _]. reflexivity.
Qed.

Lemma updateLegacyEntry_running (entry : Entry) :
  converts unixISO entry = true ->
  runningLeaves (updateLegacyEntry unixISO entry) = runningLeaves entry + hollow entry.
Proof.
  induction entry as [n s e c|n s e c|n s e l c IH] using Entry_tree_ind;
    cbn [converts updateLegacyEntry runningLeaves hollow subEntries endTime name
         startTime collapsed]; intros H; apply andb_true_iff in H as [He Hl].
  - rewrite (migrate_truthy e He). lia.
  - rewrite (migrate_truthy e He). lia.
  - destruct l as [|x r].
    + cbn [runningLeaves subEntries endTime list_sum map].
      rewrite (migrate_truthy e He). destruct (truthy_time e); reflexivity.
    + cbn [runningLeaves subEntries].
      clear He. revert IH Hl. generalize (x :: r). clear x r.
      intros l IH. induction IH as [|x r Hx _ IHr]; intros Hl; [reflexivity|].
      cbn [forallb] in Hl. apply andb_true_iff in Hl as [Hcx Hcr].
      cbn [map]. simpl list_sum. rewrite (Hx Hcx), (IHr Hcr). lia.
Qed.

End WithLibrary.
End HollowFacts.

(** X18 (the view and the scanner): [loadTracker] passes what it parsed
    through [updateLegacyInfo], the scanner does not.  When the library
    converts every numeric end time, the migrated entries have the running
    leaves of the parsed ones and one more for every entry that holds an
    empty array of sub-entries and no end time: without such entries the
    view shows a tracker as running exactly when the scanner would stop
    it. *)
Theorem updateLegacyInfo_running_leaves
    (unixISO : TimeValue -> option string) (entries : list Entry) (target : option string) :
  forallb (converts unixISO) entries = true ->
  count_running (updateLegacyInfo unixISO entries)
  = count_running entries + list_sum (map hollow entries)
  /\ (list_sum (map hollow entries) = 0 ->
      isRunning (mkTracker (updateLegacyInfo unixISO entries) target)
      = isRunning (mkTracker entries target)).
Proof.
  intros H.
  assert (Hc : count_running (updateLegacyInfo unixISO entries)
               = count_running entries + list_sum (map hollow entries)).
  { unfold count_running, updateLegacyInfo. rewrite map_map.
    induction entries as [|x r IH]; [reflexivity|].
    cbn [forallb] in H. apply andb_true_iff in H as [Hx Hr].
    cbn [map]. simpl list_sum.
    rewrite (HollowFacts.updateLegacyEntry_running unixISO x Hx), (IH Hr). lia. }
  split; [exact Hc|]. intros H0.
  rewrite !Running.isRunning_count. simpl. rewrite Hc, H0. now rewrite Nat.add_0_r.
Qed.

(** The legacy entries: "old" holds an empty array and an end time, the
    second part of "split" is running before and after. *)
Lemma updateLegacyInfo_running_leaves_witness :
  count_running (updateLegacyInfo Calendar.unixISO legacy_entries) = 1 + 0.
Proof.
  exact (proj1 (updateLegacyInfo_running_leaves Calendar.unixISO legacy_entries None
                  eq_refl)).
Defined.

(** ** The inserted block *)

Module InsertFacts.
Import Str.

Lemma split_unlines (prior : list string) (rest : string) :
  Forall (fun l => no_nl l = true) prior ->
  split (unlines prior ++ rest) = prior ++ split rest.
Proof.
  induction 1 as [|l r Hl _ IH]; [reflexivity|].
  cbn [unlines app]. rewrite StrFacts.app_assoc_s.
  change (String nl (unlines r) ++ rest)%string with (String nl (unlines r ++ rest)).
  now rewrite (Protocol.split_app_nl _ _ Hl), IH.
Qed.

Lemma split_inserted (targetTime : option string) (after : string) :
  split (insertedText targetTime ++ after)
  = fence :: Codec.stringify (insertedTracker targetTime) :: fence_end :: split after.
Proof.
  unfold insertedText.
  rewrite StrFacts.app_assoc_s.
  change (String nl ?x ++ after)%string with (String nl (x ++ after)).
  rewrite (Protocol.split_app_nl fence _ eq_refl). f_equal.
  rewrite StrFacts.app_assoc_s.
  change (String nl ?x ++ after)%string with (String nl (x ++ after)).
  rewrite (Protocol.split_app_nl _ _ (proj1 (Protocol.stringify_line _))).
  reflexivity.
Qed.

End InsertFacts.

(** X19 (the inserted block is a tracker): whatever the answer of the
    target time dialog, also when it is cancelled, the command inserts a
    block; put in place of a selection that starts at the start of a line,
    after the lines [prior], the block is found by [loadAllTrackers] in the
    saved file as a tracker without entries, for which the view offers the
    play button, with the answer as target time once the white space around
    it is cut, and with no target time when the answer is blank or
    missing. *)
Theorem insertedText_located
    (unixISO : TimeValue -> option string) (answer : option string)
    (prior : list string) (selection after fileName : string) (w : World) :
  Forall (fun l => no_nl l = true) prior ->
  assoc fileName (vault w)
  = Some (replaceSelection (unlines prior) selection after (insertedText answer)) ->
  let k := Z.of_nat (length prior) in
  (exists rb ra w',
     loadAllTrackers unixISO fileName w
     = (Normal (rb ++ (mkSection (k + 1) (k + 1), insertedTracker answer) :: ra), w'))
  /\ offered (insertedTracker answer) StartButton = true
  /\ targetTime (insertedTracker answer)
     = match answer with
       | Some t => if Str.truthy (trim t) then Some (trim t) else None
       | None => None
       end.
Proof.
  intros Hprior Hfile k. split; [|split; [reflexivity|]].
  - unfold loadAllTrackers, bind, read_file. rewrite Hfile. unfold replaceSelection.
    rewrite (InsertFacts.split_unlines prior _ Hprior), InsertFacts.split_inserted.
    destruct (Protocol.locate_app unixISO prior
                (fence :: Codec.stringify (insertedTracker answer) :: fence_end
                 :: Str.split after) 0%Z None w) as (rb & st & w1 & _ & H).
    destruct (Protocol.locate_block unixISO fence fence_end (insertedTracker answer)
                (Str.split after) (0 + Z.of_nat (length prior))%Z st w1
                eq_refl eq_refl eq_refl) as (ra & w2 & E).
    exists rb, ra, w2. rewrite (H _ _ E). subst k. do 4 f_equal; lia.
  - destruct answer as [[|c t]|]; reflexivity.
Qed.

(** A block inserted under a heading, with a target of two and a half
    hours typed with a space after it. *)
Lemma insertedText_located_witness :
  let w := mkWorld [("monday.md",
                     ("# Monday" ++ String Str.nl (insertedText (Some "2h30m "))))%string]
                   [] 0 in
  exists rb ra w',
    loadAllTrackers Calendar.unixISO "monday.md" w
    = (Normal (rb ++ (mkSection 2 2, mkTracker [] (Some "2h30m")) :: ra), w').
Proof.
  intros w.
  apply (insertedText_located Calendar.unixISO (Some "2h30m ") ["# Monday"]
           EmptyString EmptyString "monday.md" w).
  - repeat constructor.
  - vm_compute. reflexivity.
Defined.

(** ** The other trackers of a document *)

Module LocatorFacts.
Import Str.

Section WithLibrary.
Variable unixISO : TimeValue -> option string.

Lemma loadTracker_loaded (json : string) (w : World) :
  exists w', loadTracker unixISO json w = (Normal (loaded unixISO json), w')
             /\ vault w' = vault w.
Proof.
  unfold loaded, loadTracker. destruct (truthy json).
  - unfold try_catch, bind, JSON_parse.
    destruct (JSON.parse json) as [v|]; [|eexists; split; reflexivity].
    unfold ret, as_Tracker.
    destruct (Codec.json_to_tracker v); eexists; split; reflexivity.
  - eexists; split; reflexivity.
Qed.

Lemma locate_located (content : list string) :
  forall i curr w, exists w',
    locate unixISO content i curr w = (Normal (located unixISO content i curr), w')
    /\ vault w' = vault w.
Proof.
  induction content as [|line rest IH]; intros i curr w; cbn [locate located].
  - exists w. split; reflexivity.
  - destruct (trimEnd line =? fence)%string; [apply IH|].
    destruct curr as [[start text]|]; [|apply IH].
    destruct (trimEnd line =? fence_end)%string; [|apply IH].
    destruct (loadTracker_loaded text w) as (w1 & E1 & V1).
    destruct (IH (i + 1)%Z None w1) as (w2 & E2 & V2).
    exists w2. unfold bind. rewrite E1, E2. split; [reflexivity | congruence].
Qed.

Lemma loadAllTrackers_located (fileName content : string) (w : World) :
  assoc fileName (vault w) = Some content ->
  exists w', loadAllTrackers unixISO fileName w
             = (Normal (located unixISO (split content) 0 None), w').
Proof.
  intros H. unfold loadAllTrackers, bind, read_file. rewrite H.
  destruct (locate_located (split content) 0%Z None w) as (w' & E & _).
  now exists w'.
Qed.

(** Before an opening fence the state of the loop does not matter. *)
Lemma located_fence (open : string) (B : list string) (i : Z) (curr : option (Z * string)) :
  trimEnd open = fence ->
  located unixISO (open :: B) i curr = located unixISO (open :: B) i None.
Proof. intros H. cbn [located]. now rewrite H. Qed.

Lemma located_app (A : list string) (open : string) (B : list string) :
  trimEnd open = fence ->
  forall i curr,
    located unixISO (A ++ open :: B) i curr
    = located unixISO A i curr
      ++ located unixISO (open :: B) (i + Z.of_nat (length A)) None.
Proof.
  intros Ho. induction A as [|line rest IH]; intros i curr.
  - cbn [app length located]. rewrite Ho, Z.add_0_r. reflexivity.
  - assert (Hlen : (i + 1 + Z.of_nat (length rest)
                    = i + Z.of_nat (length (line :: rest)))%Z) by (cbn [length]; lia).
    cbn [app]. cbn [located].
    destruct (trimEnd line =? fence)%string; [now rewrite IH, Hlen|].
    destruct curr as [[start text]|]; [|now rewrite IH, Hlen].
    destruct (trimEnd line =? fence_end)%string; now rewrite IH, Hlen.
Qed.

(** The lines of a payload are collected, each with its line break. *)
Lemma located_payload (payload rest : list string) :
  forallb payload_line payload = true ->
  forall i start text,
    located unixISO (payload ++ rest) i (Some (start, text))
    = located unixISO rest (i + Z.of_nat (length payload))
              (Some (start, (text ++ unlines payload)%string)).
Proof.
  induction payload as [|line more IH]; intros H i start text.
  - cbn [app length unlines]. now rewrite Z.add_0_r, StrFacts.app_nil_s.
  - cbn [forallb] in H. apply andb_true_iff in H as [Hl Hm].
    unfold payload_line in Hl. apply andb_true_iff in Hl as [Hf Hfe].
    apply negb_true_iff in Hf, Hfe.
    cbn [app]. cbn [located]. rewrite Hf, Hfe. rewrite (IH Hm).
    f_equal; [cbn [length]; lia|].
    cbn [unlines]. now rewrite !StrFacts.app_assoc_s.
Qed.

(** The same lines read further down. *)
Lemma located_shift (d : Z) (content : list string) :
  forall i curr,
    located unixISO content (i + d)
            (option_map (fun p => ((fst p + d)%Z, snd p)) curr)
    = map (shift_section d) (located unixISO content i curr).
Proof.
  induction content as [|line rest IH]; intros i curr; [reflexivity|].
  cbn [located].
  replace (i + d + 1)%Z with (i + 1 + d)%Z by lia.
  destruct (trimEnd line =? fence)%string.
  - exact (IH (i + 1)%Z (Some ((i + 1)%Z, EmptyString))).
  - destruct curr as [[start text]|]; cbn [option_map fst snd].
    + destruct (trimEnd line =? fence_end)%string.
      * cbn [map]. rewrite <- (IH (i + 1)%Z None). cbn [option_map].
        unfold shift_section at 1. cbn [fst snd lineStart lineEnd].
        do 3 f_equal. lia.
      * exact (IH (i + 1)%Z (Some (start, (text ++ line ++ String nl EmptyString)%string))).
    + exact (IH (i + 1)%Z None).
Qed.

Lemma loaded_line (tracker : Tracker) :
  canonical tracker = true ->
  loaded unixISO (Codec.stringify tracker ++ String nl EmptyString) = tracker.
Proof.
  intros H. unfold loaded. now rewrite (Protocol.loadTracker_line unixISO tracker _ H).
Qed.

(** A block between its fences, after any lines. *)
Lemma located_block (before payload after : list string) (open close : string) :
  trimEnd open = fence -> trimEnd close = fence_end ->
  forallb payload_line payload = true ->
  located unixISO (before ++ open :: payload ++ close :: after) 0 None
  = located unixISO before 0 None
    ++ (mkSection (Z.of_nat (length before) + 1)
                  (Z.of_nat (length before) + Z.of_nat (length payload)),
        loaded unixISO (unlines payload))
       :: located unixISO after
            (Z.of_nat (length before) + Z.of_nat (length payload) + 2) None.
Proof.
  intros Ho Hc Hp. rewrite (located_app before open _ Ho). f_equal.
  cbn [located]. rewrite Ho. change (fence =? fence)%string with true. cbv iota.
  rewrite (located_payload payload (close :: after) Hp).
  cbn [located]. rewrite Hc.
  change (fence_end =? fence)%string with false.
  change (fence_end =? fence_end)%string with true. cbv iota.
  change (EmptyString ++ unlines payload)%string with (unlines payload).
  f_equal; [f_equal; f_equal; lia | f_equal; lia].
Qed.

End WithLibrary.
End LocatorFacts.

(** X20 (saving one tracker keeps the others): in a document with a block
    between its fences, no fence among the lines of its payload,
    [loadAllTrackers] finds the trackers of the lines before, the tracker of
    the block and the trackers of the lines after; once [saveTracker] has
    written a canonical tracker over the block (called with the section of
    the two fence lines), it finds the same trackers before, in the same
    sections, the saved tracker in the section of the one line it takes, and
    the same trackers after, each section moved by the number of lines the
    payload has lost. *)
Theorem saveTracker_keeps_other_trackers
    (unixISO : TimeValue -> option string) (tracker : Tracker) (fileName content : string)
    (before payload after : list string) (open close : string) (w : World) :
  assoc fileName (vault w) = Some content ->
  Str.split content = before ++ open :: payload ++ close :: after ->
  Str.trimEnd open = fence ->
  Str.trimEnd close = fence_end ->
  forallb payload_line payload = true ->
  canonical tracker = true ->
  let k := Z.of_nat (length before) in
  let p := Z.of_nat (length payload) in
  exists rb ra old w0 w1 w2,
    loadAllTrackers unixISO fileName w
    = (Normal (rb ++ (mkSection (k + 1) (k + p), old) :: ra), w0)
    /\ saveTracker tracker fileName (mkSection k (k + p + 1)) w = (Normal tt, w1)
    /\ loadAllTrackers unixISO fileName w1
       = (Normal (rb ++ (mkSection (k + 1) (k + 1), tracker)
                     :: map (shift_section (1 - p)) ra), w2).
Proof.
  intros Hfile Hlines Ho Hc Hp Ht k p.
  set (section := mkSection k (k + p + 1)).
  set (written := Str.join (before ++ open :: Codec.stringify tracker :: close :: after)).
  assert (Hw : splice content section tracker = written).
  { rewrite Sections.splice_lines.
    - subst written section k p. cbn [lineStart lineEnd]. rewrite Hlines. f_equal.
      replace (Z.to_nat (Z.of_nat (length before) + 1)) with (length before + 1) by lia.
      replace (Z.to_nat (Z.of_nat (length before) + Z.of_nat (length payload) + 1))
        with (length before + length payload + 1) by lia.
      rewrite Protocol.firstn_block, Protocol.skipn_block.
      rewrite <- app_assoc. reflexivity.
    - subst section k. cbn [lineStart]. lia.
    - subst section k p. cbn [lineEnd]. rewrite Hlines.
      rewrite length_app. cbn [length]. rewrite length_app. cbn [length]. lia. }
  assert (Hsplit : Str.split written
                   = before ++ open :: [Codec.stringify tracker] ++ close :: after).
  { apply Protocol.split_join; [now destruct before|].
    pose proof (Protocol.split_no_nl content) as Hall. rewrite Hlines in Hall.
    apply Forall_app in Hall as [Hb Hrest].
    inversion Hrest as [|? ? Hopen Hrest']; subst.
    apply Forall_app in Hrest' as [_ Hrest''].
    inversion Hrest'' as [|? ? Hclose Hafter]; subst.
    apply Forall_app; split; [exact Hb|].
    repeat constructor; try assumption.
    apply (Protocol.stringify_line tracker). }
  destruct (LocatorFacts.loadAllTrackers_located unixISO fileName content w Hfile)
    as (w0 & E0).
  set (w1 := mkWorld (update fileName written (vault w)) (console w) (ticks w)).
  assert (Hfile1 : assoc fileName (vault w1) = Some written)
    by (cbn [vault]; now apply (Sections.assoc_update _ _ _ content)).
  destruct (LocatorFacts.loadAllTrackers_located unixISO fileName written w1 Hfile1)
    as (w2 & E2).
  exists (located unixISO before 0 None),
         (located unixISO after (k + p + 2) None),
         (loaded unixISO (unlines payload)), w0, w1, w2.
  split; [|split].
  - rewrite E0, Hlines.
    now rewrite (LocatorFacts.located_block unixISO before payload after open close Ho Hc Hp).
  - unfold saveTracker, bind, read_file. rewrite Hfile. unfold modify. now rewrite Hw.
  - rewrite E2, Hsplit.
    rewrite (LocatorFacts.located_block unixISO before [Codec.stringify tracker] after
               open close Ho Hc).
    2:{ cbn [forallb]. unfold payload_line.
        destruct (Protocol.stringify_line tracker) as (_ & -> & -> & ->). reflexivity. }
    cbn [length unlines]. rewrite (LocatorFacts.loaded_line unixISO tracker Ht).
    rewrite <- (LocatorFacts.located_shift unixISO (1 - p) after (k + p + 2) None).
    cbn [option_map]. fold k.
    replace (k + p + 2 + (1 - p))%Z with (k + Z.of_nat 1 + 2)%Z by lia.
    replace (k + Z.of_nat 1)%Z with (k + 1)%Z by lia. reflexivity.
Qed.

(** A note with two blocks: the first, of two payload lines, is saved at
    rest; the second is found as before, one line higher. *)
Lemma saveTracker_keeps_other_trackers_witness :
  let running :=
    mkTracker [mkEntry "Work" (TStr "2024-01-01T09:00:00.000Z") TNull Absent None] None in
  let content :=
    Str.join ["# Monday"; "```time-tracker-plus"; EmptyString; Codec.stringify running;
              "```"; "and"; "```time-tracker-plus"; Codec.stringify sample_tracker; "```"] in
  let w := mkWorld [("monday.md", content)] [] 0 in
  exists rb ra old w0 w1 w2,
    loadAllTrackers Calendar.unixISO "monday.md" w
    = (Normal (rb ++ (mkSection 2 3, old) :: ra), w0)
    /\ saveTracker rested "monday.md" (mkSection 1 4) w = (Normal tt, w1)
    /\ loadAllTrackers Calendar.unixISO "monday.md" w1
       = (Normal (rb ++ (mkSection 2 2, rested) :: map (shift_section (-1)) ra), w2).
Proof.
  intros running content w.
  apply (saveTracker_keeps_other_trackers Calendar.unixISO rested "monday.md" content
           ["# Monday"] [EmptyString; Codec.stringify running]
           ["and"; "```time-tracker-plus"; Codec.stringify sample_tracker; "```"]
           "```time-tracker-plus" "```" w).
  - reflexivity.
  - vm_compute. reflexivity.
  - reflexivity.
  - reflexivity.
  - vm_compute. reflexivity.
  - reflexivity.
Defined.

(** X21 (the sections of a document): the sections [loadAllTrackers]
    reports come in the order of the document and do not touch: each starts
    after line 0, ends at most one line before it starts (when the payload is
    empty), and the next one starts three lines or more after it ends, the
    closing fence and the next opening fence lying between them. *)
Theorem loadAllTrackers_sections_apart
    (unixISO : TimeValue -> option string) (fileName content : string) (w : World) :
  assoc fileName (vault w) = Some content ->
  exists sections w',
    loadAllTrackers unixISO fileName w = (Normal sections, w')
    /\ apart_from 1 sections.
Proof.
  intros Hfile.
  destruct (LocatorFacts.loadAllTrackers_located unixISO fileName content w Hfile)
    as (w' & E).
  exists (located unixISO (Str.split content) 0 None), w'. split; [exact E|].
  assert (H : forall lines i curr lo,
             match curr with
             | Some (start, _) => (lo <= start /\ start <= i)%Z
             | None => (lo <= i + 1)%Z
             end ->
             apart_from lo (located unixISO lines i curr)).
  { induction lines as [|line rest IH]; intros i curr lo Hlo; [exact I|].
    cbn [located].
    destruct (Str.trimEnd line =? fence)%string.
    - apply IH. destruct curr as [[start text]|]; lia.
    - destruct curr as [[start text]|].
      + destruct (Str.trimEnd line =? fence_end)%string.
        * cbn [apart_from fst lineStart lineEnd]. repeat split; try lia.
          apply IH. lia.
        * apply IH. lia.
      + apply IH. lia. }
  apply H. lia.
Qed.

Lemma loadAllTrackers_sections_apart_witness :
  exists sections w',
    loadAllTrackers Calendar.unixISO "note.md"
                    (mkWorld [("note.md", mixed_document)] [] 0)
    = (Normal sections, w')
    /\ apart_from 1 sections.
Proof.
  apply (loadAllTrackers_sections_apart Calendar.unixISO "note.md" mixed_document
           (mkWorld [("note.md", mixed_document)] [] 0)).
  reflexivity.
Defined.

(** ** The start discipline *)

Module CalendarFacts.





End CalendarFacts.


